(** * Traffic and transit simulation of the isometric city builder

    A shallow embedding of the agent managers (cars, pedestrians, trains,
    aircraft), the road-network analysis, the traffic-light controllers and
    the grid-version caches, followed by the properties proved about them.

    Conventions.
    - JavaScript numbers holding tile coordinates, sizes, identifiers and
      grid versions are integers ([Z]); numbers holding seconds, progress
      and speeds are exact rationals ([Q]).
    - A [MutableRefObject] is a field of the manager's state record; an
      update takes the state and returns the next one.
    - [Math.random()] reads the next value of an oracle [rand : nat -> Q];
      the position in the oracle is threaded through the state. *)

From Stdlib Require Import String ZArith QArith Qround List Bool Lia Lqa.
Import ListNotations.

Local Open Scope Z_scope.

(* ================================================================== *)
(** ** Grid, tiles and directions *)
(* ================================================================== *)

(** [BuildingType] is a union of string literals in the sources. *)
Definition BuildingType := string.

Record Building := mkBuilding
  { type : BuildingType;
    powered : bool;
    population : Q }.

Record Tile := mkTile { building : Building }.

Definition Grid := list (list Tile).

(** [grid[y][x]]: the row is selected by [y], the tile by [x].  The
    sources index the matrix only after the range test against
    [gridSize]; on a matrix smaller than [gridSize] the JavaScript raises
    a [TypeError], where this lookup answers [None] (read as a tile of no
    kind).  The example grids below are all N x N. *)
Definition tileAt (grid : Grid) (x y : Z) : option Tile :=
  if (x <? 0) || (y <? 0) then None
  else match nth_error grid (Z.to_nat y) with
       | Some row => nth_error row (Z.to_nat x)
       | None => None
       end.

(** The data model's N x N matrix. *)
Definition wf_grid (grid : Grid) (gridSize : Z) : Prop :=
  Z.of_nat (length grid) = gridSize /\
  Forall (fun row => Z.of_nat (length row) = gridSize) grid.

Definition typeIs (grid : Grid) (x y : Z) (k : BuildingType) : bool :=
  match tileAt grid x y with
  | Some t => String.eqb (type (building t)) k
  | None => false
  end.

(** roadNetwork.ts, [isRoadTile]. *)
Definition isRoadTile (grid : Grid) (gridSize x y : Z) : bool :=
  if (x <? 0) || (y <? 0) || (x >=? gridSize) || (y >=? gridSize) then false
  else typeIs grid x y "road"%string.

(** Modelled from the spec: [isRailTile] of the utilities module, which is
    not among the sources.  "A tile outside grid bounds is always reported
    as non-passable, never as an error"; it is [isRoadTile] for the rail
    surface kind. *)
Definition isRailTile (grid : Grid) (gridSize x y : Z) : bool :=
  if (x <? 0) || (y <? 0) || (x >=? gridSize) || (y >=? gridSize) then false
  else typeIs grid x y "rail"%string.

Definition Qltb (a b : Q) : bool := negb (Qle_bool b a).   (* a < b *)
Definition Qgeb (a b : Q) : bool := Qle_bool b a.          (* a >= b *)
Definition Qgtb (a b : Q) : bool := negb (Qle_bool a b).   (* a > b *)

Inductive CarDirection := north | east | south | west.

Definition CarDirection_eqb (a b : CarDirection) : bool :=
  match a, b with
  | north, north | east, east | south, south | west, west => true
  | _, _ => false
  end.

(* ================================================================== *)
(** ** Road network analysis (roadNetwork.ts) *)
(* ================================================================== *)

Inductive IntersectionType := T | cross | corner | straight | dead_end.

Record RoadNetworkInfo := mkRoadNetworkInfo
  { rn_north : bool; rn_east : bool; rn_south : bool; rn_west : bool;
    northParallel : Z; eastParallel : Z; southParallel : Z; westParallel : Z;
    isWideRoad : bool;
    laneCount : Z;
    isIntersection : bool;
    intersectionType : IntersectionType;
    needsTrafficLight : bool }.

(** [[north, east, south, west].filter(Boolean).length] *)
Definition countTrue (l : list bool) : Z :=
  Z.of_nat (length (filter (fun b => b) l)).

Definition analyzeRoadNetwork (grid : Grid) (gridSize x y : Z) : RoadNetworkInfo :=
  let north := isRoadTile grid gridSize (x - 1) y in
  let east := isRoadTile grid gridSize x (y - 1) in
  let south := isRoadTile grid gridSize (x + 1) y in
  let west := isRoadTile grid gridSize x (y + 1) in
  let eastParallel :=
    if (north || south) && isRoadTile grid gridSize (x + 1) y then
      let eastRoadNorth := isRoadTile grid gridSize (x + 1 - 1) y in
      let eastRoadSouth := isRoadTile grid gridSize (x + 1 + 1) y in
      if eastRoadNorth || eastRoadSouth then 1 else 0
    else 0 in
  let westParallel :=
    if (north || south) && isRoadTile grid gridSize (x - 1) y then
      let westRoadNorth := isRoadTile grid gridSize (x - 1 - 1) y in
      let westRoadSouth := isRoadTile grid gridSize (x - 1 + 1) y in
      if westRoadNorth || westRoadSouth then 1 else 0
    else 0 in
  let northParallel :=
    if (east || west) && isRoadTile grid gridSize x (y - 1) then
      let northRoadEast := isRoadTile grid gridSize x (y - 1 - 1) in
      let northRoadWest := isRoadTile grid gridSize x (y - 1 + 1) in
      if northRoadEast || northRoadWest then 1 else 0
    else 0 in
  let southParallel :=
    if (east || west) && isRoadTile grid gridSize x (y + 1) then
      let southRoadEast := isRoadTile grid gridSize x (y + 1 - 1) in
      let southRoadWest := isRoadTile grid gridSize x (y + 1 + 1) in
      if southRoadEast || southRoadWest then 1 else 0
    else 0 in
  let connectionCount := countTrue [north; east; south; west] in
  let intersectionType :=
    if connectionCount =? 4 then cross
    else if connectionCount =? 3 then T
    else if connectionCount =? 2 then
      if (north && south) || (east && west) then straight else corner
    else dead_end in
  let isWideRoad :=
    (northParallel >? 0) || (eastParallel >? 0) ||
    (southParallel >? 0) || (westParallel >? 0) in
  let laneCount :=
    if isWideRoad then
      let l := 2 in
      let l := if connectionCount >=? 3 then 3 else l in
      if connectionCount =? 4 then 4 else l
    else if connectionCount >=? 3 then 2
    else 1 in
  let needsTrafficLight := connectionCount >=? 3 in
  {| rn_north := north; rn_east := east; rn_south := south; rn_west := west;
     northParallel := northParallel; eastParallel := eastParallel;
     southParallel := southParallel; westParallel := westParallel;
     isWideRoad := isWideRoad;
     laneCount := laneCount;
     isIntersection := connectionCount >=? 3;
     intersectionType := intersectionType;
     needsTrafficLight := needsTrafficLight |}.

(* ================================================================== *)
(** ** Traffic light controller with one state per intersection
       (second module of roadNetwork.ts) *)
(* ================================================================== *)

Inductive LightColor := red | yellow | green.

Definition LightColor_eqb (a b : LightColor) : bool :=
  match a, b with
  | red, red | yellow, yellow | green, green => true
  | _, _ => false
  end.

Module IntersectionLights.

Record TrafficLightState := mkTrafficLightState
  { l_north : LightColor; l_east : LightColor;
    l_south : LightColor; l_west : LightColor;
    timer : Q;
    phase : Z }.

Definition createTrafficLightState (networkInfo : RoadNetworkInfo)
  : TrafficLightState :=
  match intersectionType networkInfo with
  | cross => mkTrafficLightState green red green red 0 0
  | T =>
      if rn_north networkInfo && rn_south networkInfo
      then mkTrafficLightState green red green red 0 0
      else if rn_east networkInfo && rn_west networkInfo
      then mkTrafficLightState red green red green 0 0
      else mkTrafficLightState red red red red 0 0
  | _ => mkTrafficLightState red red red red 0 0
  end.

Definition GREEN_TIME : Q := 5.
Definition YELLOW_TIME : Q := 3 # 2.
Definition RED_TIME : Q := 1 # 2.
Definition CYCLE_TIME : Q := GREEN_TIME + YELLOW_TIME + RED_TIME.

(** JavaScript's [a % b] on numbers: the remainder has the sign of the
    dividend (truncated division). *)
Definition Qtrunc (a : Q) : Z := Z.quot (Qnum a) (Z.pos (Qden a)).
Definition jsRem (a b : Q) : Q := (a - inject_Z (Qtrunc (a / b)) * b)%Q.

(** [pos < GREEN/CYCLE ? green : pos < (GREEN+YELLOW)/CYCLE ? yellow : red] *)
Definition phaseColor (pos : Q) : LightColor :=
  if Qltb pos (GREEN_TIME / CYCLE_TIME) then green
  else if Qltb pos ((GREEN_TIME + YELLOW_TIME) / CYCLE_TIME) then yellow
  else red.

Definition updateTrafficLightState (state : TrafficLightState)
    (networkInfo : RoadNetworkInfo) (deltaTime : Q) : TrafficLightState :=
  let timer' := (timer state + deltaTime)%Q in
  let cyclePosition := (jsRem timer' (CYCLE_TIME * 2) / CYCLE_TIME)%Q in
  match intersectionType networkInfo with
  | cross =>
      if Qltb cyclePosition 1 then
        let n := phaseColor cyclePosition in
        mkTrafficLightState n red n red timer' (phase state)
      else
        let phase2Pos := (cyclePosition - 1)%Q in
        let e := phaseColor phase2Pos in
        mkTrafficLightState red e red e timer' (phase state)
  | T =>
      if rn_north networkInfo && rn_south networkInfo then
        let n := phaseColor cyclePosition in
        let e := if LightColor_eqb n green then red else green in
        mkTrafficLightState n e n e timer' (phase state)
      else if rn_east networkInfo && rn_west networkInfo then
        let e := phaseColor cyclePosition in
        let n := if LightColor_eqb e green then red else green in
        mkTrafficLightState n e n e timer' (phase state)
      else
        mkTrafficLightState (l_north state) (l_east state)
          (l_south state) (l_west state) timer' (phase state)
  | _ =>
      mkTrafficLightState (l_north state) (l_east state)
        (l_south state) (l_west state) timer' (phase state)
  end.

End IntersectionLights.

(* ================================================================== *)
(** ** Traffic system with one light per direction (traffic system
       module: [analyzeRoad], [findIntersections], [initializeTrafficLights],
       [updateTrafficLights]) *)
(* ================================================================== *)

Module TrafficSystem.

Inductive RoadType := single | avenue | highway.

Record Directions := mkDirections
  { d_north : bool; d_east : bool; d_south : bool; d_west : bool }.

Record RoadAnalysis := mkRoadAnalysis
  { ra_type : RoadType;
    lanes : Z;
    hasCentralDivider : bool;
    hasTurnLanes : bool;
    directions : Directions;
    adjacentRoads : Directions;
    parallel_horizontal : Z;
    parallel_vertical : Z }.

Record TrafficLight := mkTrafficLight
  { tl_x : Z; tl_y : Z;
    state : LightColor;
    direction : CarDirection;
    timer : Q;
    phase : Z }.

Definition TRAFFIC_LIGHT_RED_DURATION : Q := 8.
Definition TRAFFIC_LIGHT_YELLOW_DURATION : Q := 2.
Definition TRAFFIC_LIGHT_GREEN_DURATION : Q := 8.

(** The four counting loops of [analyzeRoad]: at most four tiles are
    visited from [start] in steps of [step]; the loop stops at the first
    tile that is out of range or not a road. *)
Fixpoint streak (ok : Z -> bool) (start step : Z) (n : nat) : Z :=
  match n with
  | O => 0
  | S n' => if ok start then 1 + streak ok (start + step) step n' else 0
  end.

Definition analyzeRoad (grid : Grid) (gridSize x y : Z) : RoadAnalysis :=
  let hasRoad := fun gx gy => isRoadTile grid gridSize gx gy in
  let north := hasRoad (x - 1) y in
  let east := hasRoad x (y - 1) in
  let south := hasRoad (x + 1) y in
  let west := hasRoad x (y + 1) in
  let leftStreak :=
    streak (fun gx => (gx >=? 0) && (gx >=? x - 4) && hasRoad gx y) (x - 1) (-1) 4 in
  let rightStreak :=
    streak (fun gx => (gx <? gridSize) && (gx <=? x + 4) && hasRoad gx y) (x + 1) 1 4 in
  let horizontalCount := 1 + leftStreak + rightStreak in
  let upStreak :=
    streak (fun gy => (gy >=? 0) && (gy >=? y - 4) && hasRoad x gy) (y - 1) (-1) 4 in
  let downStreak :=
    streak (fun gy => (gy <? gridSize) && (gy <=? y + 4) && hasRoad x gy) (y + 1) 1 4 in
  let verticalCount := 1 + upStreak + downStreak in
  let isAvenue := (horizontalCount >=? 2) || (verticalCount >=? 2) in
  let isHighway := (horizontalCount >=? 4) || (verticalCount >=? 4) in
  {| ra_type := if isHighway then highway else if isAvenue then avenue else single;
     lanes := if isHighway then 3 else if isAvenue then 2 else 1;
     hasCentralDivider :=
       if isHighway then true
       else if isAvenue then (horizontalCount >=? 3) || (verticalCount >=? 3)
       else false;
     hasTurnLanes :=
       if isHighway then true
       else if isAvenue then (north && south) || (east && west)
       else false;
     directions := mkDirections north east south west;
     adjacentRoads := mkDirections north east south west;
     parallel_horizontal := horizontalCount;
     parallel_vertical := verticalCount |}.

Record Intersection := mkIntersection
  { ix : Z; iy : Z; idirections : list CarDirection }.

(** The coordinates [0 .. n-1] of a [for] loop over the grid. *)
Definition range (n : Z) : list Z := map Z.of_nat (seq 0 (Z.to_nat n)).

Definition intersectionAt (grid : Grid) (gridSize x y : Z) : list Intersection :=
  if negb (typeIs grid x y "road"%string) then []
  else
    let analysis := analyzeRoad grid gridSize x y in
    let d := directions analysis in
    let connectionCount := countTrue [d_north d; d_east d; d_south d; d_west d] in
    if connectionCount >=? 3 then
      [ mkIntersection x y
          ((if d_north d then [north] else []) ++
           (if d_east d then [east] else []) ++
           (if d_south d then [south] else []) ++
           (if d_west d then [west] else [])) ]
    else [].

Definition findIntersections (grid : Grid) (gridSize : Z) : list Intersection :=
  flat_map (fun y => flat_map (fun x => intersectionAt grid gridSize x y)
                       (range gridSize))
           (range gridSize).

Definition lightsOf (i : Intersection) (phase : Z) : list TrafficLight :=
  map (fun direction =>
         mkTrafficLight (ix i) (iy i)
           (if phase mod 2 =? 0 then green else red)
           direction
           (if phase mod 2 =? 0 then TRAFFIC_LIGHT_GREEN_DURATION
            else TRAFFIC_LIGHT_RED_DURATION)
           phase)
      (idirections i).

Fixpoint initializeTrafficLights_from (phase : Z) (intersections : list Intersection)
  : list TrafficLight :=
  match intersections with
  | [] => []
  | i :: rest => lightsOf i phase ++ initializeTrafficLights_from (phase + 1) rest
  end.

Definition initializeTrafficLights (intersections : list Intersection)
  : list TrafficLight :=
  initializeTrafficLights_from 0 intersections.

Definition updateLight (deltaTime : Q) (light : TrafficLight) : TrafficLight :=
  let newTimer := (timer light - deltaTime)%Q in
  if Qle_bool newTimer 0 then
    match state light with
    | green => mkTrafficLight (tl_x light) (tl_y light) yellow (direction light)
                 TRAFFIC_LIGHT_YELLOW_DURATION (phase light)
    | yellow => mkTrafficLight (tl_x light) (tl_y light) red (direction light)
                  TRAFFIC_LIGHT_RED_DURATION (phase light)
    | red => mkTrafficLight (tl_x light) (tl_y light) green (direction light)
               TRAFFIC_LIGHT_GREEN_DURATION (phase light)
    end
  else mkTrafficLight (tl_x light) (tl_y light) (state light) (direction light)
         newTimer (phase light).

Definition updateTrafficLights (lights : list TrafficLight) (deltaTime : Q)
  : list TrafficLight :=
  map (updateLight deltaTime) lights.

Definition getTrafficLightState (lights : list TrafficLight) (x y : Z)
    (direction0 : CarDirection) : option LightColor :=
  match find (fun l => (tl_x l =? x) && (tl_y l =? y) &&
                       CarDirection_eqb (direction l) direction0) lights with
  | Some light => Some (state light)
  | None => None
  end.

End TrafficSystem.

(* ================================================================== *)
(** ** Numbers, randomness and the world snapshot *)
(* ================================================================== *)

(** A computation that calls [Math.random()]: it reads the oracle from a
    position and returns the position after its last call. *)
Definition Rand (A : Type) : Type := nat -> A * nat.

Definition ret {A} (a : A) : Rand A := fun k => (a, k).

Definition bind {A B} (m : Rand A) (f : A -> Rand B) : Rand B :=
  fun k => let (a, k') := m k in f a k'.

Notation "x <- m ;; f" := (bind m (fun x => f))
  (at level 61, m at next level, right associativity).

(** [Math.floor(r * n)] *)
Definition floorTimes (r : Q) (n : Z) : Z := Qfloor (r * inject_Z n).

(** [list[i]] for an index computed from a random number. *)
Definition pick {A} (l : list A) (i : Z) (dflt : A) : A := nth (Z.to_nat i) l dflt.

(** The loop [for (const a of [...agents])] of the managers: agents are
    visited in order, each is kept ([Some]) or dropped ([None]), and the
    random calls made for one agent precede those of the next. *)
Fixpoint forEachAgent {A} (f : A -> Rand (option A)) (l : list A) : Rand (list A) :=
  match l with
  | [] => ret []
  | a :: rest =>
      r <- f a ;;
      rest' <- forEachAgent f rest ;;
      ret (match r with Some a' => a' :: rest' | None => rest' end)
  end.

Record WorldRenderState := mkWorld
  { grid : option Grid;      (* [!currentGrid] is [None] *)
    gridSize : Z;
    currentSpeed : Z;        (* [speed: currentSpeed] *)
    zoom : Q }.

Definition speedMultiplier (speed : Z) : Q :=
  if speed =? 0 then 0
  else if speed =? 1 then 1
  else if speed =? 2 then 5 # 2
  else 4.

Record Coord := mkCoord { cx : Z; cy : Z }.

(** A memoized grid scan: [{ count, gridVersion }]. *)
Record Cache := mkCache { count : Q; gridVersion : Z }.

(** Modelled from the spec: [getOppositeDirection] of the utilities module,
    which is not among the sources; "the exact opposite" of a cardinal
    direction. *)
Definition getOppositeDirection (d : CarDirection) : CarDirection :=
  match d with
  | north => south
  | south => north
  | east => west
  | west => east
  end.

(** Modelled from the spec: the [step] entries of [DIRECTION_META]
    (constants module, not among the sources), with the adjacency that
    [analyzeRoadNetwork] and [analyzeRoad] use: north is [x - 1], east is
    [y - 1], south is [x + 1], west is [y + 1]. *)
Definition directionStep (d : CarDirection) : Z * Z :=
  match d with
  | north => (-1, 0)
  | east => (0, -1)
  | south => (1, 0)
  | west => (0, 1)
  end.

(** Modelled from the spec: [getDirectionOptions] and
    [getRailDirectionOptions] of the utilities module (not among the
    sources): the directions in which the neighbouring tile is of the
    surface kind ("viable departure directions"). *)
Definition directionOptions (passable : Z -> Z -> bool) (x y : Z)
  : list CarDirection :=
  filter (fun d => let (dx, dy) := directionStep d in passable (x + dx) (y + dy))
         [north; east; south; west].

Definition getDirectionOptionsSpec (grid : Grid) (gridSize x y : Z) :=
  directionOptions (isRoadTile grid gridSize) x y.

Definition getRailDirectionOptionsSpec (grid : Grid) (gridSize x y : Z) :=
  directionOptions (isRailTile grid gridSize) x y.

(* ================================================================== *)
(** ** Car manager ([useCarSystem]; [useVehicles] repeats the same
       [spawnRandomCar] and [updateCars]) *)
(* ================================================================== *)

Record Car := mkCar
  { car_id : Z;
    car_tileX : Z; car_tileY : Z;
    car_direction : CarDirection;
    car_progress : Q;
    car_speed : Q;
    car_age : Q;
    car_maxAge : Q;
    car_color : string;
    car_laneOffset : Q }.

Record CarSystemState := mkCarSystemState
  { cars : list Car;            (* carsRef.current *)
    carId : Z;                  (* carIdRef.current *)
    carSpawnTimer : Q;          (* carSpawnTimerRef.current *)
    car_rng : nat }.            (* position in the random oracle *)

Section CarSystem.

(** The random oracle and the helpers imported from modules that are
    not among the sources. *)
Variable rand : nat -> Q.
Variable DIRECTION_META_step : CarDirection -> Z * Z.
Variable getDirectionOptions : Grid -> Z -> Z -> Z -> list CarDirection.
Variable pickNextDirection :
  CarDirection -> Grid -> Z -> Z -> Z -> Rand (option CarDirection).
Variable CAR_COLORS : list string.

Definition random : Rand Q := fun k => (rand k, S k).

(** One attempt of the [for (attempt ...)] loop of [spawnRandomCar];
    [None] is [continue]. *)
Definition spawnCarAttempt (currentGrid : Grid) (currentGridSize nextId : Z)
  : Rand (option Car) :=
  r1 <- random ;;
  r2 <- random ;;
  let tileX := floorTimes r1 currentGridSize in
  let tileY := floorTimes r2 currentGridSize in
  if negb (isRoadTile currentGrid currentGridSize tileX tileY) then ret None
  else
    let options := getDirectionOptions currentGrid currentGridSize tileX tileY in
    if (Z.of_nat (length options) =? 0) then ret None
    else
      r3 <- random ;;
      let direction := pick options (floorTimes r3 (Z.of_nat (length options))) south in
      r4 <- random ;;
      r5 <- random ;;
      r6 <- random ;;
      r7 <- random ;;
      r8 <- random ;;
      r9 <- random ;;
      ret (Some {| car_id := nextId;
                   car_tileX := tileX;
                   car_tileY := tileY;
                   car_direction := direction;
                   car_progress := r4 * (8 # 10);
                   car_speed := ((35 # 100) + r5 * (35 # 100)) * (7 # 10);
                   car_age := 0;
                   car_maxAge := 1800 + r6 * 2700;
                   car_color :=
                     pick CAR_COLORS
                       (floorTimes r7 (Z.of_nat (length CAR_COLORS))) EmptyString;
                   car_laneOffset :=
                     (if Qltb r8 (1 # 2) then -1 else 1) * (4 + r9 * 3) |}%Q).

Fixpoint spawnCarLoop (attempts : nat) (currentGrid : Grid)
    (currentGridSize nextId : Z) : Rand (option Car) :=
  match attempts with
  | O => ret None
  | S n =>
      r <- spawnCarAttempt currentGrid currentGridSize nextId ;;
      match r with
      | Some c => ret (Some c)
      | None => spawnCarLoop n currentGrid currentGridSize nextId
      end
  end.

(** [spawnRandomCar]: the result is [true] exactly when a car was
    pushed. *)
Definition spawnRandomCar (w : WorldRenderState) (s : CarSystemState)
  : bool * CarSystemState :=
  match grid w with
  | None => (false, s)
  | Some currentGrid =>
      if gridSize w <=? 0 then (false, s)
      else
        match spawnCarLoop 20 currentGrid (gridSize w) (carId s) (car_rng s) with
        | (Some c, k) =>
            (true, {| cars := cars s ++ [c];
                      carId := carId s + 1;
                      carSpawnTimer := carSpawnTimer s;
                      car_rng := k |})
        | (None, k) =>
            (false, {| cars := cars s; carId := carId s;
                       carSpawnTimer := carSpawnTimer s; car_rng := k |})
        end
  end.

(** The loop [while (car.progress >= 1 && guard < 4)]; [guardLeft] is
    [4 - guard].  [None] is [alive = false]. *)
Fixpoint moveCar (guardLeft : nat) (currentGrid : Grid) (currentGridSize : Z)
    (car : Car) : Rand (option Car) :=
  match guardLeft with
  | O => ret (Some car)
  | S n =>
      if Qgeb (car_progress car) 1 then
        let (sx, sy) := DIRECTION_META_step (car_direction car) in
        let tileX := car_tileX car + sx in
        let tileY := car_tileY car + sy in
        if negb (isRoadTile currentGrid currentGridSize tileX tileY) then ret None
        else
          nextDirection <-
            pickNextDirection (car_direction car) currentGrid currentGridSize
              tileX tileY ;;
          match nextDirection with
          | None => ret None
          | Some d =>
              moveCar n currentGrid currentGridSize
                {| car_id := car_id car;
                   car_tileX := tileX; car_tileY := tileY;
                   car_direction := d;
                   car_progress := (car_progress car - 1)%Q;
                   car_speed := car_speed car;
                   car_age := car_age car;
                   car_maxAge := car_maxAge car;
                   car_color := car_color car;
                   car_laneOffset := car_laneOffset car |}
          end
      else ret (Some car)
  end.

(** The body of [for (const car of [...carsRef.current])]. *)
Definition stepCar (currentGrid : Grid) (currentGridSize : Z)
    (multiplier delta : Q) (car : Car) : Rand (option Car) :=
  let age := (car_age car + delta)%Q in
  if Qgtb age (car_maxAge car) then ret None
  else if negb (isRoadTile currentGrid currentGridSize (car_tileX car) (car_tileY car))
  then ret None
  else
    moveCar 4 currentGrid currentGridSize
      {| car_id := car_id car;
         car_tileX := car_tileX car; car_tileY := car_tileY car;
         car_direction := car_direction car;
         car_progress := (car_progress car + car_speed car * delta * multiplier)%Q;
         car_speed := car_speed car;
         car_age := age;
         car_maxAge := car_maxAge car;
         car_color := car_color car;
         car_laneOffset := car_laneOffset car |}.

Definition maxCars (currentGridSize : Z) : Z :=
  Z.min 160 (Z.max 16 (currentGridSize * 2)).

(** The spawn step of [updateCars]: the timer is decremented, and when
    it has run out and the population is under the ceiling one spawn is
    attempted and the timer is reset. *)
Definition carSpawnStep (w : WorldRenderState) (delta : Q) (s : CarSystemState)
  : CarSystemState :=
  let timer := (carSpawnTimer s - delta)%Q in
  let s1 := {| cars := cars s; carId := carId s;
               carSpawnTimer := timer; car_rng := car_rng s |} in
  if (Z.of_nat (length (cars s1)) <? maxCars (gridSize w)) && Qle_bool timer 0 then
    match spawnRandomCar w s1 with
    | (true, s2) =>
        let (r, k) := random (car_rng s2) in
        {| cars := cars s2; carId := carId s2;
           carSpawnTimer := (9 # 10) + r * (13 # 10); car_rng := k |}
    | (false, s2) =>
        {| cars := cars s2; carId := carId s2;
           carSpawnTimer := 5 # 10; car_rng := car_rng s2 |}
    end
  else s1.

Definition updateCars (w : WorldRenderState) (delta : Q) (s : CarSystemState)
  : CarSystemState :=
  match grid w with
  | None => {| cars := []; carId := carId s;
               carSpawnTimer := carSpawnTimer s; car_rng := car_rng s |}
  | Some currentGrid =>
      if gridSize w <=? 0 then
        {| cars := []; carId := carId s;
           carSpawnTimer := carSpawnTimer s; car_rng := car_rng s |}
      else
        let s1 := carSpawnStep w delta s in
        let (updatedCars, k) :=
          forEachAgent
            (stepCar currentGrid (gridSize w) (speedMultiplier (currentSpeed w)) delta)
            (cars s1) (car_rng s1) in
        {| cars := updatedCars; carId := carId s1;
           carSpawnTimer := carSpawnTimer s1; car_rng := k |}
  end.

End CarSystem.

(* ================================================================== *)
(** ** Free-roaming train manager ([useTrainSystems]) *)
(* ================================================================== *)

Definition qmax (a b : Q) : Q := if Qle_bool a b then b else a.
Definition qmin (a b : Q) : Q := if Qle_bool a b then a else b.

Module RoamingTrains.

Inductive TrainType := passenger | freight.

Record Train := mkTrain
  { id : Z;
    tileX : Z; tileY : Z;
    direction : CarDirection;
    progress : Q;
    speed : Q;
    age : Q;
    maxAge : Q;
    ttype : TrainType;
    carriages : Z;
    color : string;
    trackOffset : Q }.

Record TrainSystemState := mkTrainSystemState
  { trains : list Train;                 (* trainsRef.current *)
    trainId : Z;                         (* trainIdRef.current *)
    trainSpawnTimer : Q;                 (* trainSpawnTimerRef.current *)
    cachedRailTileCount : Cache;         (* cachedRailTileCountRef.current *)
    rng : nat }.

Definition PASSENGER_TRAIN_COLORS : list string :=
  ["#dc2626"; "#1e40af"; "#059669"; "#7c3aed"; "#ea580c"]%string.
Definition FREIGHT_TRAIN_COLORS : list string :=
  ["#374151"; "#1f2937"; "#4b5563"; "#6b7280"]%string.

Definition setTile (t : Train) (x y : Z) : Train :=
  mkTrain (id t) x y (direction t) (progress t) (speed t) (age t) (maxAge t)
    (ttype t) (carriages t) (color t) (trackOffset t).
Definition setDirection (t : Train) (d : CarDirection) : Train :=
  mkTrain (id t) (tileX t) (tileY t) d (progress t) (speed t) (age t) (maxAge t)
    (ttype t) (carriages t) (color t) (trackOffset t).
Definition setProgress (t : Train) (p : Q) : Train :=
  mkTrain (id t) (tileX t) (tileY t) (direction t) p (speed t) (age t) (maxAge t)
    (ttype t) (carriages t) (color t) (trackOffset t).
Definition setAge (t : Train) (a : Q) : Train :=
  mkTrain (id t) (tileX t) (tileY t) (direction t) (progress t) (speed t) a (maxAge t)
    (ttype t) (carriages t) (color t) (trackOffset t).

(** The offsets of [for (dx = -2 .. 2) for (dy = -2 .. 2)], in the order
    in which the loops visit them. *)
Definition searchOffsets : list (Z * Z) :=
  flat_map (fun dx => map (fun dy => (dx, dy)) [-2; -1; 0; 1; 2]) [-2; -1; 0; 1; 2].

(** The first rail tile the search loop meets around [(x, y)]. *)
Definition findNearbyRail (currentGrid : Grid) (currentGridSize x y : Z)
  : option (Z * Z) :=
  find (fun p => isRailTile currentGrid currentGridSize (fst p) (snd p))
       (map (fun d => (x + fst d, y + snd d)) searchOffsets).

Section Manager.

Variable rand : nat -> Q.
Variable isMobile : bool.
Variable DIRECTION_META_step : CarDirection -> Z * Z.
Variable getRailDirectionOptions : Grid -> Z -> Z -> Z -> list CarDirection.

Definition random : Rand Q := fun k => (rand k, S k).

Definition notDirection (d : CarDirection) : CarDirection -> bool :=
  fun dir => negb (CarDirection_eqb dir d).

Definition spawnTrainAttempt (currentGrid : Grid) (currentGridSize nextId : Z)
  : Rand (option Train) :=
  r1 <- random ;;
  r2 <- random ;;
  let tileX := floorTimes r1 currentGridSize in
  let tileY := floorTimes r2 currentGridSize in
  if negb (isRailTile currentGrid currentGridSize tileX tileY) then ret None
  else
    let options := getRailDirectionOptions currentGrid currentGridSize tileX tileY in
    if (Z.of_nat (length options) =? 0) then ret None
    else
      r3 <- random ;;
      let direction := pick options (floorTimes r3 (Z.of_nat (length options))) south in
      r4 <- random ;;
      let trainType := if Qltb r4 (6 # 10) then passenger else freight in
      r5 <- random ;;
      let carriages :=
        match trainType with
        | passenger => 2 + floorTimes r5 4
        | freight => 3 + floorTimes r5 3
        end in
      let colors :=
        match trainType with
        | passenger => PASSENGER_TRAIN_COLORS
        | freight => FREIGHT_TRAIN_COLORS
        end in
      r6 <- random ;;
      let color := pick colors (floorTimes r6 (Z.of_nat (length colors))) EmptyString in
      r7 <- random ;;
      let trackOffset := ((if Qltb r7 (1 # 2) then -1 else 1) * 6)%Q in
      r8 <- random ;;
      let trainMaxAge := (if isMobile then 15 + r8 * 5 else 20 + r8 * 10)%Q in
      r9 <- random ;;
      r10 <- random ;;
      ret (Some {| id := nextId;
                   tileX := tileX;
                   tileY := tileY;
                   direction := direction;
                   progress := r9 * (8 # 10);
                   speed := ((25 # 100) + r10 * (15 # 100)) * (5 # 10);
                   age := 0;
                   maxAge := trainMaxAge;
                   ttype := trainType;
                   carriages := carriages;
                   color := color;
                   trackOffset := trackOffset |}%Q).

Fixpoint spawnTrainLoop (attempts : nat) (currentGrid : Grid)
    (currentGridSize nextId : Z) : Rand (option Train) :=
  match attempts with
  | O => ret None
  | S n =>
      r <- spawnTrainAttempt currentGrid currentGridSize nextId ;;
      match r with
      | Some t => ret (Some t)
      | None => spawnTrainLoop n currentGrid currentGridSize nextId
      end
  end.

Definition spawnRandomTrain (w : WorldRenderState) (s : TrainSystemState)
  : bool * TrainSystemState :=
  match grid w with
  | None => (false, s)
  | Some currentGrid =>
      if gridSize w <=? 0 then (false, s)
      else
        match spawnTrainLoop 20 currentGrid (gridSize w) (trainId s) (rng s) with
        | (Some t, k) =>
            (true, mkTrainSystemState (trains s ++ [t]) (trainId s + 1)
                     (trainSpawnTimer s) (cachedRailTileCount s) k)
        | (None, k) =>
            (false, mkTrainSystemState (trains s) (trainId s)
                      (trainSpawnTimer s) (cachedRailTileCount s) k)
        end
  end.

(** The branch [if (train.progress >= 1.0)] of the filter callback; the
    train it is given already has [progress = 0]. *)
Definition crossBoundary (currentGrid : Grid) (currentGridSize : Z) (train : Train)
  : Rand Train :=
  let (sx, sy) := DIRECTION_META_step (direction train) in
  let newTileX := tileX train + sx in
  let newTileY := tileY train + sy in
  if negb (isRailTile currentGrid currentGridSize newTileX newTileY) then
    let options :=
      getRailDirectionOptions currentGrid currentGridSize (tileX train) (tileY train) in
    let filtered :=
      filter (notDirection (getOppositeDirection (direction train))) options in
    if (Z.of_nat (length filtered) >? 0) then
      r <- random ;;
      ret (setDirection train
             (pick filtered (floorTimes r (Z.of_nat (length filtered)))
                (direction train)))
    else ret (setProgress train (1 # 2))
  else
    let moved := setTile train newTileX newTileY in
    let nextOptions :=
      getRailDirectionOptions currentGrid currentGridSize newTileX newTileY in
    let incoming := getOppositeDirection (direction train) in
    let filtered := filter (notDirection incoming) nextOptions in
    if (Z.of_nat (length filtered) >? 0) then
      r <- random ;;
      ret (setDirection moved
             (pick filtered (floorTimes r (Z.of_nat (length filtered)))
                (direction train)))
    else
      match nextOptions with
      | first :: _ => ret (setDirection moved first)
      | [] => ret moved
      end.

(** The callback of [trainsRef.current.filter]: [None] is [return false]. *)
Definition stepTrain (currentGrid : Grid) (currentGridSize : Z) (deltaTime : Q)
    (train0 : Train) : Rand (option Train) :=
  let train := setAge train0 (age train0 + deltaTime)%Q in
  if Qgeb (age train) (maxAge train) then ret None
  else if negb (isRailTile currentGrid currentGridSize (tileX train) (tileY train)) then
    match findNearbyRail currentGrid currentGridSize (tileX train) (tileY train) with
    | Some (nx, ny) => ret (Some (setTile train nx ny))
    | None => ret None
    end
  else
    let train := setProgress train (progress train + speed train * deltaTime)%Q in
    if Qgeb (progress train) 1 then
      t <- crossBoundary currentGrid currentGridSize (setProgress train 0) ;;
      ret (Some t)
    else ret (Some train).

(** The rail-tile count [updateTrains] spawns by: the cached count when
    the cache carries the current grid version, [0] otherwise. *)
Definition railTileCountUsed (cache : Cache) (currentGridVersion : Z) : Q :=
  if gridVersion cache =? currentGridVersion then count cache else 0.

Definition updateTrains (w : WorldRenderState) (currentGridVersion : Z)
    (deltaTime : Q) (s : TrainSystemState) : TrainSystemState :=
  match grid w with
  | None => s
  | Some currentGrid =>
      if gridSize w <=? 0 then s
      else
        let (kept, k) :=
          forEachAgent (stepTrain currentGrid (gridSize w) deltaTime)
                       (trains s) (rng s) in
        let timer := (trainSpawnTimer s + deltaTime)%Q in
        let s1 := mkTrainSystemState kept (trainId s) timer
                    (cachedRailTileCount s) k in
        let railTileCount :=
          railTileCountUsed (cachedRailTileCount s) currentGridVersion in
        if Qgtb railTileCount 0 then
          let spawnInterval := qmax 3 (10 - railTileCount / 20) in
          if Qgeb timer spawnInterval then
            snd (spawnRandomTrain w
                   (mkTrainSystemState kept (trainId s) 0
                      (cachedRailTileCount s) k))
          else s1
        else s1
  end.

End Manager.

End RoamingTrains.

(* ================================================================== *)
(** ** Grid scans behind the caches *)
(* ================================================================== *)

(** [for y < n, for x < n: if (grid[y][x].building.type === kind) count++] *)
Definition countTiles (grid : Grid) (n : Z) (kind : BuildingType) : Z :=
  fold_left
    (fun acc y =>
       fold_left (fun acc x => if typeIs grid x y kind then acc + 1 else acc)
                 (TrafficSystem.range n) acc)
    (TrafficSystem.range n) 0.

(** [totalPopulation += grid[y][x].building.population || 0] *)
Definition sumPopulation (grid : Grid) (n : Z) : Q :=
  fold_left
    (fun acc y =>
       fold_left (fun acc x =>
                    match tileAt grid x y with
                    | Some t => (acc + population (building t))%Q
                    | None => acc
                    end)
                 (TrafficSystem.range n) acc)
    (TrafficSystem.range n) 0%Q.

(* ================================================================== *)
(** ** Pedestrian manager ([usePedestrianSystem]) *)
(* ================================================================== *)

Module Pedestrians.

Inductive Side := left | right.

Record Destination := mkDestination { dest_x : Z; dest_y : Z; dest_type : string }.

Record Pedestrian := mkPedestrian
  { id : Z;
    tileX : Z; tileY : Z;
    direction : CarDirection;
    progress : Q;
    speed : Q;
    pathIndex : Z;
    age : Q;
    maxAge : Q;
    skinColor : string;
    shirtColor : string;
    walkOffset : Q;
    sidewalkSide : Side;
    destType : string;
    homeX : Z; homeY : Z;
    destX : Z; destY : Z;
    returningHome : bool;
    path : list Coord }.

Record PedestrianSystemState := mkPedestrianSystemState
  { pedestrians : list Pedestrian;       (* pedestriansRef.current *)
    pedestrianId : Z;                    (* pedestrianIdRef.current *)
    pedestrianSpawnTimer : Q;            (* pedestrianSpawnTimerRef.current *)
    cachedRoadTileCount : Cache;         (* cachedRoadTileCountRef.current *)
    rng : nat }.

(** [useRef({ count: 0, gridVersion: -1 })] and the other initial refs. *)
Definition initialState (k : nat) : PedestrianSystemState :=
  mkPedestrianSystemState [] 0 0 (mkCache 0 (-1)) k.

Definition pathLength (p : Pedestrian) : Z := Z.of_nat (length (path p)).

Definition pathAt (l : list Coord) (i : Z) : Coord := pick l i (mkCoord 0 0).

Section Manager.

Variable rand : nat -> Q.
Variable isMobile : bool.
Variable PI : Q.
Variable PEDESTRIAN_MIN_ZOOM : Q.
Variable PEDESTRIAN_SKIN_COLORS : list string.
Variable PEDESTRIAN_SHIRT_COLORS : list string.
Variable findPathOnRoads : Grid -> Z -> Z -> Z -> Z -> Z -> option (list Coord).
Variable getDirectionToTile : Z -> Z -> Z -> Z -> option CarDirection.
Variable findResidentialBuildings : Grid -> Z -> list Coord.
Variable findPedestrianDestinations : Grid -> Z -> list Destination.

Definition random : Rand Q := fun k => (rand k, S k).

(** [const dir = getDirectionToTile(...); if (dir) direction = dir] *)
Definition turnTowards (current : CarDirection) (fromX fromY toX toY : Z)
  : CarDirection :=
  match getDirectionToTile fromX fromY toX toY with
  | Some dir => dir
  | None => current
  end.

Definition spawnPedestrian (currentGrid : Grid) (currentGridSize : Z)
    (s : PedestrianSystemState) : bool * PedestrianSystemState :=
  let residentials := findResidentialBuildings currentGrid currentGridSize in
  if (Z.of_nat (length residentials) =? 0) then (false, s)
  else
    let destinations := findPedestrianDestinations currentGrid currentGridSize in
    if (Z.of_nat (length destinations) =? 0) then (false, s)
    else
      let (r1, k1) := random (rng s) in
      let (r2, k2) := random k1 in
      let home := pick residentials (floorTimes r1 (Z.of_nat (length residentials)))
                    (mkCoord 0 0) in
      let dest := pick destinations (floorTimes r2 (Z.of_nat (length destinations)))
                    (mkDestination 0 0 EmptyString) in
      let s2 := mkPedestrianSystemState (pedestrians s) (pedestrianId s)
                  (pedestrianSpawnTimer s) (cachedRoadTileCount s) k2 in
      match findPathOnRoads currentGrid currentGridSize
              (cx home) (cy home) (dest_x dest) (dest_y dest) with
      | None => (false, s2)
      | Some [] => (false, s2)
      | Some p =>
          let len := Z.of_nat (length p) in
          let (r3, k3) := random k2 in
          let startIndex := floorTimes r3 len in
          let startTile := pathAt p startIndex in
          let direction :=
            if startIndex + 1 <? len then
              let nextTile := pathAt p (startIndex + 1) in
              turnTowards south (cx startTile) (cy startTile) (cx nextTile) (cy nextTile)
            else if startIndex >? 0 then
              let prevTile := pathAt p (startIndex - 1) in
              turnTowards south (cx prevTile) (cy prevTile) (cx startTile) (cy startTile)
            else south in
          let (r4, k4) := random k3 in
          let (r5, k5) := random k4 in
          let (r6, k6) := random k5 in
          let (r7, k7) := random k6 in
          let (r8, k8) := random k7 in
          let (r9, k9) := random k8 in
          let (r10, k10) := random k9 in
          let ped :=
            {| id := pedestrianId s;
               tileX := cx startTile;
               tileY := cy startTile;
               direction := direction;
               progress := r4;
               speed := (12 # 100) + r5 * (8 # 100);
               pathIndex := startIndex;
               age := 0;
               maxAge := 60 + r6 * 90;
               skinColor :=
                 pick PEDESTRIAN_SKIN_COLORS
                   (floorTimes r7 (Z.of_nat (length PEDESTRIAN_SKIN_COLORS))) EmptyString;
               shirtColor :=
                 pick PEDESTRIAN_SHIRT_COLORS
                   (floorTimes r8 (Z.of_nat (length PEDESTRIAN_SHIRT_COLORS))) EmptyString;
               walkOffset := r9 * PI * 2;
               sidewalkSide := if Qltb r10 (1 # 2) then left else right;
               destType := dest_type dest;
               homeX := cx home; homeY := cy home;
               destX := dest_x dest; destY := dest_y dest;
               returningHome := startIndex >=? len - 1;
               path := p |}%Q in
          (true, mkPedestrianSystemState (pedestrians s ++ [ped]) (pedestrianId s + 1)
                   (pedestrianSpawnTimer s) (cachedRoadTileCount s) k10)
      end.

(** [for (i < spawnBatch) if (spawnPedestrian()) spawnedCount++] *)
Fixpoint spawnBatchLoop (n : nat) (currentGrid : Grid) (currentGridSize : Z)
    (s : PedestrianSystemState) (spawnedCount : Z) : Z * PedestrianSystemState :=
  match n with
  | O => (spawnedCount, s)
  | S n' =>
      let (ok, s') := spawnPedestrian currentGrid currentGridSize s in
      spawnBatchLoop n' currentGrid currentGridSize s'
        (if ok then spawnedCount + 1 else spawnedCount)
  end.

(** The road-tile count of [updatePedestrians] and the cache it leaves:
    the cached count on a version match, a recount of the grid stored
    under the current version otherwise. *)
Definition roadTileCountStep (currentGrid : Grid) (currentGridSize : Z)
    (currentGridVersion : Z) (cache : Cache) : Q * Cache :=
  if gridVersion cache =? currentGridVersion then (count cache, cache)
  else
    let roadTileCount := inject_Z (countTiles currentGrid currentGridSize "road"%string) in
    (roadTileCount, mkCache roadTileCount currentGridVersion).

Definition withPath (ped : Pedestrian) (x y : Z) (d : CarDirection)
    (returnPath : list Coord) : Pedestrian :=
  mkPedestrian (id ped) x y d 0 (speed ped) 0 (age ped) (maxAge ped)
    (skinColor ped) (shirtColor ped) (walkOffset ped) (sidewalkSide ped)
    (destType ped) (homeX ped) (homeY ped) (destX ped) (destY ped)
    true returnPath.

(** The three places where a pedestrian that reached its destination
    turns back: a fresh path from the destination to its home.  With
    [jump] the pedestrian is put on the first tile of that path (the two
    places outside the walking loop); without, its tile is kept.  [None]
    is "no path home" or "was already returning". *)
Definition turnBack (jump : bool) (currentGrid : Grid) (currentGridSize : Z)
    (ped : Pedestrian) : option Pedestrian :=
  if returningHome ped then None
  else
    match findPathOnRoads currentGrid currentGridSize
            (destX ped) (destY ped) (homeX ped) (homeY ped) with
    | None => None
    | Some [] => None
    | Some returnPath =>
        let first := pathAt returnPath 0 in
        let d :=
          if Z.of_nat (length returnPath) >? 1 then
            let nextTile := pathAt returnPath 1 in
            turnTowards (direction ped) (cx first) (cy first) (cx nextTile) (cy nextTile)
          else direction ped in
        Some (if jump then withPath ped (cx first) (cy first) d returnPath
              else withPath ped (tileX ped) (tileY ped) d returnPath)
    end.

Definition advance (ped : Pedestrian) (x y : Z) (d : CarDirection) (p : Q) (i : Z)
  : Pedestrian :=
  mkPedestrian (id ped) x y d p (speed ped) i (age ped) (maxAge ped)
    (skinColor ped) (shirtColor ped) (walkOffset ped) (sidewalkSide ped)
    (destType ped) (homeX ped) (homeY ped) (destX ped) (destY ped)
    (returningHome ped) (path ped).

(** [while (ped.progress >= 1 && ped.pathIndex < ped.path.length - 1)].
    Every pass that does not leave the loop moves [pathIndex] one step
    towards the end of an unchanged path, so [stepsLeft], the distance
    of [pathIndex] from the last index, bounds the passes.  The result
    is the pedestrian and whether it is still alive. *)
Fixpoint walk (stepsLeft : nat) (currentGrid : Grid) (currentGridSize : Z)
    (ped : Pedestrian) : Pedestrian * bool :=
  match stepsLeft with
  | O => (ped, true)
  | S n =>
      if Qgeb (progress ped) 1 && (pathIndex ped <? pathLength ped - 1) then
        let i := pathIndex ped + 1 in
        let p := (progress ped - 1)%Q in
        let currentTile := pathAt (path ped) i in
        if (cx currentTile <? 0) || (cx currentTile >=? currentGridSize) ||
           (cy currentTile <? 0) || (cy currentTile >=? currentGridSize)
        then (advance ped (tileX ped) (tileY ped) (direction ped) p i, false)
        else
          let ped1 := advance ped (cx currentTile) (cy currentTile) (direction ped) p i in
          if i >=? pathLength ped1 - 1 then
            match turnBack false currentGrid currentGridSize ped1 with
            | Some ped2 => (ped2, true)
            | None => (ped1, false)
            end
          else
            let ped2 :=
              if i + 1 <? pathLength ped1 then
                let nextTile := pathAt (path ped1) (i + 1) in
                advance ped1 (tileX ped1) (tileY ped1)
                  (turnTowards (direction ped1) (tileX ped1) (tileY ped1)
                     (cx nextTile) (cy nextTile))
                  p i
              else ped1 in
            walk n currentGrid currentGridSize ped2
      else (ped, true)
  end.

Definition stepsToEnd (ped : Pedestrian) : nat :=
  Z.to_nat (pathLength ped - 1 - pathIndex ped).

(** The body of [for (const ped of [...pedestriansRef.current])]. *)
Definition stepPedestrian (currentGrid : Grid) (currentGridSize : Z)
    (multiplier delta : Q) (ped0 : Pedestrian) : option Pedestrian :=
  let age' := (age ped0 + delta)%Q in
  if Qgtb age' (maxAge ped0) then None
  else if negb (isRoadTile currentGrid currentGridSize (tileX ped0) (tileY ped0))
  then None
  else
    let ped :=
      mkPedestrian (id ped0) (tileX ped0) (tileY ped0) (direction ped0)
        (progress ped0 + speed ped0 * delta * multiplier)%Q (speed ped0)
        (pathIndex ped0) age' (maxAge ped0)
        (skinColor ped0) (shirtColor ped0) (walkOffset ped0 + delta * 8)%Q
        (sidewalkSide ped0) (destType ped0) (homeX ped0) (homeY ped0)
        (destX ped0) (destY ped0) (returningHome ped0) (path ped0) in
    let arrived :=
      if (pathLength ped =? 1) && Qgeb (progress ped) 1
      then turnBack true currentGrid currentGridSize ped
      else Some ped in
    match arrived with
    | None => None
    | Some ped =>
        let (ped, alive) := walk (stepsToEnd ped) currentGrid currentGridSize ped in
        if alive && Qgeb (progress ped) 1 && (pathIndex ped >=? pathLength ped - 1) then
          turnBack true currentGrid currentGridSize ped
        else if alive then Some ped else None
    end.

Definition minZoomForPedestrians : Q :=
  if isMobile then 8 # 10 else PEDESTRIAN_MIN_ZOOM.

Definition maxPedestrians (roadTileCount : Q) : Q :=
  if isMobile
  then qmin 50 (qmax 20 (inject_Z (Qfloor (roadTileCount * (8 # 10)))))
  else qmax 200 (roadTileCount * 3).

Definition spawnBatch (roadTileCount : Q) : Z :=
  if isMobile
  then Z.min 8 (Z.max 3 (Qfloor (roadTileCount / 25)))
  else Z.min 50 (Z.max 20 (Qfloor (roadTileCount / 10))).

Definition cleared (s : PedestrianSystemState) : PedestrianSystemState :=
  mkPedestrianSystemState [] (pedestrianId s) (pedestrianSpawnTimer s)
    (cachedRoadTileCount s) (rng s).

Definition updatePedestrians (w : WorldRenderState) (currentGridVersion : Z)
    (delta : Q) (s : PedestrianSystemState) : PedestrianSystemState :=
  if Qltb (zoom w) minZoomForPedestrians then cleared s
  else
    match grid w with
    | None => cleared s
    | Some currentGrid =>
        if gridSize w <=? 0 then cleared s
        else
          let currentGridSize := gridSize w in
          let (roadTileCount, cache) :=
            roadTileCountStep currentGrid currentGridSize currentGridVersion
              (cachedRoadTileCount s) in
          let timer := (pedestrianSpawnTimer s - delta)%Q in
          let s1 := mkPedestrianSystemState (pedestrians s) (pedestrianId s)
                      timer cache (rng s) in
          let s2 :=
            if Qltb (inject_Z (Z.of_nat (length (pedestrians s1))))
                    (maxPedestrians roadTileCount) && Qle_bool timer 0
            then
              let (spawnedCount, s') :=
                spawnBatchLoop (Z.to_nat (spawnBatch roadTileCount))
                  currentGrid currentGridSize s1 0 in
              mkPedestrianSystemState (pedestrians s') (pedestrianId s')
                (if spawnedCount >? 0
                 then (if isMobile then 15 # 100 else 2 # 100)
                 else (if isMobile then 8 # 100 else 1 # 100))
                (cachedRoadTileCount s') (rng s')
            else s1 in
          mkPedestrianSystemState
            (flat_map
               (fun ped =>
                  match stepPedestrian currentGrid currentGridSize
                          (speedMultiplier (currentSpeed w)) delta ped with
                  | Some ped' => [ped']
                  | None => []
                  end)
               (pedestrians s2))
            (pedestrianId s2) (pedestrianSpawnTimer s2) (cachedRoadTileCount s2)
            (rng s2)
    end.

End Manager.

End Pedestrians.

(* ================================================================== *)
(** ** Path-following train manager ([useTrainSystem], trainSystem.ts) *)
(* ================================================================== *)

Module PathTrains.

Record Train := mkTrain
  { id : Z;
    tileX : Z; tileY : Z;
    direction : CarDirection;
    progress : Q;
    speed : Q;
    age : Q;
    maxAge : Q;
    color : string;
    originStationX : Z; originStationY : Z;
    destStationX : Z; destStationY : Z;
    path : list Coord;
    pathIndex : Z;
    carCount : Z }.

Record TrainSystemState := mkTrainSystemState
  { trains : list Train;                 (* trainsRef.current *)
    trainId : Z;                         (* trainIdRef.current *)
    trainSpawnTimer : Q;                 (* trainSpawnTimerRef.current *)
    cachedRailTileCount : Cache;         (* cachedRailTileCountRef.current *)
    rng : nat }.

Definition pathAt (l : list Coord) (i : Z) : Coord := pick l i (mkCoord 0 0).
Definition pathLength (t : Train) : Z := Z.of_nat (length (path t)).

Section Manager.

Variable rand : nat -> Q.
Variable isMobile : bool.
Variable TRAIN_MIN_ZOOM : Q.
Variable TRAIN_COLORS : list string.
Variable findPathOnRails : Grid -> Z -> Z -> Z -> Z -> Z -> option (list Coord).
Variable getDirectionToTile : Z -> Z -> Z -> Z -> option CarDirection.
Variable findRailStations : Grid -> Z -> list Coord.

(** The two loops that draw a station index again until it differs from
    the one to avoid end only when the oracle allows it.  [retryBudget]
    bounds the draws the embedding follows; a computation is [None] when
    such a loop is still running after that many draws. *)
Variable retryBudget : nat.

Definition random : Rand Q := fun k => (rand k, S k).

(** [while (avoid(idx)) idx = Math.floor(Math.random() * len)] *)
Fixpoint redraw (budget : nat) (len : Z) (avoid : Z -> bool) (idx : Z)
  : Rand (option Z) :=
  if avoid idx then
    match budget with
    | O => ret None
    | S b => r <- random ;; redraw b len avoid (floorTimes r len)
    end
  else ret (Some idx).

Definition turnTowards (current : CarDirection) (fromX fromY toX toY : Z)
  : CarDirection :=
  match getDirectionToTile fromX fromY toX toY with
  | Some dir => dir
  | None => current
  end.

(** [spawnTrain]: [None] when the redraw loop does not end, otherwise
    whether a train was pushed and the state. *)
Definition spawnTrain (currentGrid : Grid) (currentGridSize : Z)
    (s : TrainSystemState) : option (bool * TrainSystemState) :=
  let stations := findRailStations currentGrid currentGridSize in
  let len := Z.of_nat (length stations) in
  if len <? 2 then Some (false, s)
  else
    let (r1, k1) := random (rng s) in
    let (r2, k2) := random k1 in
    let originIdx := floorTimes r1 len in
    match redraw retryBudget len (fun i => (i =? originIdx) && (len >? 1))
            (floorTimes r2 len) k2 with
    | (None, _) => None
    | (Some destIdx, k3) =>
        let origin := pathAt stations originIdx in
        let dest := pathAt stations destIdx in
        let s3 := mkTrainSystemState (trains s) (trainId s) (trainSpawnTimer s)
                    (cachedRailTileCount s) k3 in
        match findPathOnRails currentGrid currentGridSize
                (cx origin) (cy origin) (cx dest) (cy dest) with
        | None => Some (false, s3)
        | Some [] => Some (false, s3)
        | Some p =>
            let startTile := pathAt p 0 in
            let direction :=
              if Z.of_nat (length p) >=? 2 then
                let nextTile := pathAt p 1 in
                turnTowards south (cx startTile) (cy startTile)
                  (cx nextTile) (cy nextTile)
              else south in
            let (r4, k4) := random k3 in
            let (r5, k5) := random k4 in
            let (r6, k6) := random k5 in
            let (r7, k7) := random k6 in
            let train :=
              {| id := trainId s;
                 tileX := cx startTile;
                 tileY := cy startTile;
                 direction := direction;
                 progress := 0;
                 speed := (5 # 10) + r4 * (3 # 10);
                 age := 0;
                 maxAge := 3000 + r5 * 2000;
                 color := pick TRAIN_COLORS
                            (floorTimes r6 (Z.of_nat (length TRAIN_COLORS))) EmptyString;
                 originStationX := cx origin; originStationY := cy origin;
                 destStationX := cx dest; destStationY := cy dest;
                 path := p;
                 pathIndex := 0;
                 carCount := 1 + floorTimes r7 3 |}%Q in
            Some (true, mkTrainSystemState (trains s ++ [train]) (trainId s + 1)
                          (trainSpawnTimer s) (cachedRailTileCount s) k7)
        end
    end.

(** The branch [if (train.pathIndex >= train.path.length - 1)] of the
    loop: a new destination and a new path, or [alive = false].  The
    outer [option] is the redraw loop, the inner one the train. *)
Definition newLeg (currentGrid : Grid) (currentGridSize : Z) (train : Train)
  : Rand (option (option Train)) :=
  let stations := findRailStations currentGrid currentGridSize in
  let len := Z.of_nat (length stations) in
  if len >=? 2 then
    r <- random ;;
    idx <- redraw retryBudget len
             (fun i => (len >? 1) &&
                       (cx (pathAt stations i) =? destStationX train) &&
                       (cy (pathAt stations i) =? destStationY train))
             (floorTimes r len) ;;
    match idx with
    | None => ret None
    | Some newDestIdx =>
        let newDest := pathAt stations newDestIdx in
        match findPathOnRails currentGrid currentGridSize
                (tileX train) (tileY train) (cx newDest) (cy newDest) with
        | None => ret (Some None)
        | Some [] => ret (Some None)
        | Some newPath =>
            let d :=
              if Z.of_nat (length newPath) >? 1 then
                let nextTile := pathAt newPath 1 in
                turnTowards (direction train) (tileX train) (tileY train)
                  (cx nextTile) (cy nextTile)
              else direction train in
            ret (Some (Some
                   (mkTrain (id train) (tileX train) (tileY train) d 0 (speed train)
                      (age train) (maxAge train) (color train)
                      (destStationX train) (destStationY train)
                      (cx newDest) (cy newDest) newPath 0 (carCount train))))
        end
    end
  else ret (Some None).

Definition advance (t : Train) (x y : Z) (d : CarDirection) (p : Q) (i : Z) : Train :=
  mkTrain (id t) x y d p (speed t) (age t) (maxAge t) (color t)
    (originStationX t) (originStationY t) (destStationX t) (destStationY t)
    (path t) i (carCount t).

(** [while (progress >= 1 && pathIndex < path.length - 1 && guard < 4)];
    [guardLeft] is [4 - guard]. *)
Fixpoint moveTrain (guardLeft : nat) (currentGrid : Grid) (currentGridSize : Z)
    (train : Train) : Rand (option (option Train)) :=
  match guardLeft with
  | O => ret (Some (Some train))
  | S n =>
      if Qgeb (progress train) 1 && (pathIndex train <? pathLength train - 1) then
        let i := pathIndex train + 1 in
        let p := (progress train - 1)%Q in
        let currentTile := pathAt (path train) i in
        if (cx currentTile <? 0) || (cx currentTile >=? currentGridSize) ||
           (cy currentTile <? 0) || (cy currentTile >=? currentGridSize)
        then ret (Some None)
        else
          let train1 :=
            advance train (cx currentTile) (cy currentTile) (direction train) p i in
          if i >=? pathLength train1 - 1 then
            newLeg currentGrid currentGridSize train1
          else
            let train2 :=
              if i + 1 <? pathLength train1 then
                let nextTile := pathAt (path train1) (i + 1) in
                advance train1 (tileX train1) (tileY train1)
                  (turnTowards (direction train1) (tileX train1) (tileY train1)
                     (cx nextTile) (cy nextTile))
                  p i
              else train1 in
            moveTrain n currentGrid currentGridSize train2
      else ret (Some (Some train))
  end.

Definition stepTrain (currentGrid : Grid) (currentGridSize : Z)
    (multiplier delta : Q) (train : Train) : Rand (option (option Train)) :=
  let age' := (age train + delta)%Q in
  if Qgtb age' (maxAge train) then ret (Some None)
  else if negb (isRailTile currentGrid currentGridSize (tileX train) (tileY train))
  then ret (Some None)
  else
    moveTrain 4 currentGrid currentGridSize
      (mkTrain (id train) (tileX train) (tileY train) (direction train)
         (progress train + speed train * delta * multiplier)%Q (speed train)
         age' (maxAge train) (color train)
         (originStationX train) (originStationY train)
         (destStationX train) (destStationY train)
         (path train) (pathIndex train) (carCount train)).

Fixpoint forEachTrain (f : Train -> Rand (option (option Train))) (l : list Train)
  : Rand (option (list Train)) :=
  match l with
  | [] => ret (Some [])
  | t :: rest =>
      r <- f t ;;
      match r with
      | None => ret None
      | Some kept =>
          rest' <- forEachTrain f rest ;;
          ret (match rest' with
               | None => None
               | Some l' => Some (match kept with Some t' => t' :: l' | None => l' end)
               end)
      end
  end.

(** The rail-tile count of [updateTrains] and the cache it leaves. *)
Definition railTileCountStep (currentGrid : Grid) (currentGridSize : Z)
    (currentGridVersion : Z) (cache : Cache) : Q * Cache :=
  if gridVersion cache =? currentGridVersion then (count cache, cache)
  else
    let railTileCount := inject_Z (countTiles currentGrid currentGridSize "rail"%string) in
    (railTileCount, mkCache railTileCount currentGridVersion).

Definition minZoomForTrains : Q := if isMobile then 6 # 10 else TRAIN_MIN_ZOOM.

Definition maxTrains (railTileCount : Q) : Z :=
  if isMobile
  then Z.min 8 (Z.max 2 (Qfloor (railTileCount / 30)))
  else Z.max 20 (Qfloor (railTileCount / 15)).

Definition cleared (s : TrainSystemState) : TrainSystemState :=
  mkTrainSystemState [] (trainId s) (trainSpawnTimer s) (cachedRailTileCount s) (rng s).

(** [updateTrains]: [None] only when a redraw loop does not end. *)
Definition updateTrains (w : WorldRenderState) (currentGridVersion : Z)
    (delta : Q) (s : TrainSystemState) : option TrainSystemState :=
  if Qltb (zoom w) minZoomForTrains then Some (cleared s)
  else
    match grid w with
    | None => Some (cleared s)
    | Some currentGrid =>
        if gridSize w <=? 0 then Some (cleared s)
        else
          let currentGridSize := gridSize w in
          let (railTileCount, cache) :=
            railTileCountStep currentGrid currentGridSize currentGridVersion
              (cachedRailTileCount s) in
          let timer := (trainSpawnTimer s - delta)%Q in
          let s1 := mkTrainSystemState (trains s) (trainId s) timer cache (rng s) in
          let spawned :=
            if (Z.of_nat (length (trains s1)) <? maxTrains railTileCount)
               && Qle_bool timer 0
            then
              match spawnTrain currentGrid currentGridSize s1 with
              | None => None
              | Some (true, s') =>
                  let (r, k) := random (rng s') in
                  Some (mkTrainSystemState (trains s') (trainId s')
                          (3 + r * 4)%Q (cachedRailTileCount s') k)
              | Some (false, s') =>
                  Some (mkTrainSystemState (trains s') (trainId s')
                          1 (cachedRailTileCount s') (rng s'))
              end
            else Some s1 in
          match spawned with
          | None => None
          | Some s2 =>
              match forEachTrain
                      (stepTrain currentGrid currentGridSize
                         (speedMultiplier (currentSpeed w)) delta)
                      (trains s2) (rng s2) with
              | (None, _) => None
              | (Some updatedTrains, k) =>
                  Some (mkTrainSystemState updatedTrains (trainId s2)
                          (trainSpawnTimer s2) (cachedRailTileCount s2) k)
              end
          end
    end.

End Manager.

End PathTrains.

(* ================================================================== *)
(** ** Airplane manager ([useAircraft]: [getPopulation], [updateAirplanes]) *)
(* ================================================================== *)

Module Aircraft.

Inductive AirplaneState := taking_off | flying | landing | taxiing.

Record Particle := mkParticle { px : Q; py : Q; p_age : Q; opacity : Q }.

Record Airplane := mkAirplane
  { id : Z;
    x : Q; y : Q;
    angle : Q;
    state : AirplaneState;
    speed : Q;
    altitude : Q;
    targetAltitude : Q;
    airportX : Z; airportY : Z;
    stateProgress : Q;
    contrail : list Particle;
    lifeTime : Q;
    color : string }.

Record AircraftState := mkAircraftState
  { airplanes : list Airplane;           (* airplanesRef.current *)
    airplaneId : Z;                      (* airplaneIdRef.current *)
    airplaneSpawnTimer : Q;              (* airplaneSpawnTimerRef.current *)
    cachedPopulation : Cache;            (* cachedPopulationRef.current *)
    rng : nat }.

(** [getPopulation]: the cached total on a version match, a fresh sum over
    the grid stored under the current version otherwise. *)
Definition getPopulation (currentGrid : Grid) (currentGridSize : Z)
    (currentGridVersion : Z) (cache : Cache) : Q * Cache :=
  if gridVersion cache =? currentGridVersion then (count cache, cache)
  else
    let totalPopulation := sumPopulation currentGrid currentGridSize in
    (totalPopulation, mkCache totalPopulation currentGridVersion).

Section Manager.

Variable rand : nat -> Q.
Variable isMobile : bool.
(** [Math.cos], [Math.sin], [Math.atan2], [Math.hypot], [Math.PI] and
    the constants and helpers of modules that are not among the sources. *)
Variables cos sin : Q -> Q.
Variables atan2 hypot : Q -> Q -> Q.
Variable PI : Q.
Variables TILE_WIDTH TILE_HEIGHT : Q.
Variable AIRPLANE_MIN_POPULATION : Q.
Variable AIRPLANE_COLORS : list string.
Variables CONTRAIL_MAX_AGE CONTRAIL_SPAWN_INTERVAL : Q.
Variable gridToScreen : Z -> Z -> Q -> Q -> Q * Q.
Variable findAirports : Grid -> Z -> list Coord.

Definition random : Rand Q := fun k => (rand k, S k).

Definition airportCenter (ax ay : Z) : Q * Q :=
  let (screenX, screenY) := gridToScreen ax ay 0 0 in
  (screenX + TILE_WIDTH * 2, screenY + TILE_HEIGHT * 2)%Q.

Definition pickColor (r : Q) : string :=
  pick AIRPLANE_COLORS (floorTimes r (Z.of_nat (length AIRPLANE_COLORS))) EmptyString.

(** The spawn branch of [updateAirplanes]. *)
Definition spawnAirplane (currentGridSize : Z) (airports : list Coord)
    (nextId : Z) : Rand Airplane :=
  r1 <- random ;;
  let airport := pick airports (floorTimes r1 (Z.of_nat (length airports)))
                   (mkCoord 0 0) in
  let (airportCenterX, airportCenterY) := airportCenter (cx airport) (cy airport) in
  r2 <- random ;;
  if Qltb r2 (1 # 2) then
    r3 <- random ;;
    r4 <- random ;;
    r5 <- random ;;
    r6 <- random ;;
    ret (mkAirplane nextId airportCenterX airportCenterY (r3 * PI * 2) taking_off
           (30 + r4 * 20) 0 1 (cx airport) (cy airport) 0 [] (30 + r5 * 20)
           (pickColor r6))%Q
  else
    r3 <- random ;;
    let edge := floorTimes r3 4 in
    let mapCenterX := 0%Q in
    let mapCenterY := (inject_Z currentGridSize * TILE_HEIGHT / 2)%Q in
    let mapExtent := (inject_Z currentGridSize * TILE_WIDTH)%Q in
    r4 <- random ;;
    let (startX, startY) :=
      (if edge =? 0 then
         (mapCenterX + (r4 - (1 # 2)) * mapExtent, mapCenterY - mapExtent / 2 - 200)
       else if edge =? 1 then
         (mapCenterX + mapExtent / 2 + 200, mapCenterY + (r4 - (1 # 2)) * mapExtent / 2)
       else if edge =? 2 then
         (mapCenterX + (r4 - (1 # 2)) * mapExtent, mapCenterY + mapExtent / 2 + 200)
       else
         (mapCenterX - mapExtent / 2 - 200, mapCenterY + (r4 - (1 # 2)) * mapExtent / 2))%Q in
    let angleToAirport := atan2 (airportCenterY - startY) (airportCenterX - startX) in
    r5 <- random ;;
    r6 <- random ;;
    r7 <- random ;;
    ret (mkAirplane nextId startX startY angleToAirport flying
           (80 + r5 * 40) 1 1 (cx airport) (cy airport) 0 [] (30 + r6 * 20)
           (pickColor r7))%Q.

Definition ageContrail (delta contrailMaxAge : Q) (l : list Particle) : list Particle :=
  filter (fun p => Qltb (p_age p) contrailMaxAge)
    (map (fun p => mkParticle (px p) (py p) (p_age p + delta)
                     (qmax 0 (1 - p_age p / contrailMaxAge)))%Q l).

(** The body of [for (const plane of airplanesRef.current)]; [None] is
    [continue] before the push. *)
Definition stepAirplane (multiplier delta : Q) (plane : Airplane) : option Airplane :=
  let contrailMaxAge := if isMobile then 8 # 10 else CONTRAIL_MAX_AGE in
  let contrailSpawnInterval := if isMobile then 6 # 100 else CONTRAIL_SPAWN_INTERVAL in
  let contrail1 := ageContrail delta contrailMaxAge (contrail plane) in
  let (stateProgress1, contrail2) :=
    if Qgtb (altitude plane) (7 # 10) then
      let sp := (stateProgress plane + delta)%Q in
      if Qgeb sp contrailSpawnInterval then
        let perpAngle := (angle plane + PI / 2)%Q in
        let engineOffset := (4 * ((1 # 2) + altitude plane * (1 # 2)))%Q in
        ((sp - contrailSpawnInterval)%Q,
         if isMobile then contrail1 ++ [mkParticle (x plane) (y plane) 0 1]
         else contrail1 ++
              [mkParticle (x plane + cos perpAngle * engineOffset)
                 (y plane + sin perpAngle * engineOffset) 0 1;
               mkParticle (x plane - cos perpAngle * engineOffset)
                 (y plane - sin perpAngle * engineOffset) 0 1]%Q)
      else (sp, contrail1)
    else (stateProgress plane, contrail1) in
  let (airportCenterX, airportCenterY) :=
    airportCenter (airportX plane) (airportY plane) in
  match state plane with
  | taking_off =>
      let x' := (x plane + cos (angle plane) * speed plane * delta * multiplier)%Q in
      let y' := (y plane + sin (angle plane) * speed plane * delta * multiplier)%Q in
      let altitude' := qmin 1 (altitude plane + delta * (3 # 10)) in
      let speed' := qmin 120 (speed plane + delta * 20) in
      Some (mkAirplane (id plane) x' y' (angle plane)
              (if Qgeb altitude' 1 then flying else taking_off)
              speed' altitude' (targetAltitude plane) (airportX plane) (airportY plane)
              stateProgress1 contrail2 (lifeTime plane) (color plane))
  | flying =>
      let x' := (x plane + cos (angle plane) * speed plane * delta * multiplier)%Q in
      let y' := (y plane + sin (angle plane) * speed plane * delta * multiplier)%Q in
      let lifeTime' := (lifeTime plane - delta)%Q in
      let distToAirport := hypot (x' - airportCenterX) (y' - airportCenterY) in
      if Qltb distToAirport 400 && Qltb lifeTime' 10 then
        Some (mkAirplane (id plane) x' y'
                (atan2 (airportCenterY - y') (airportCenterX - x')) landing
                (speed plane) (altitude plane) 0 (airportX plane) (airportY plane)
                stateProgress1 contrail2 lifeTime' (color plane))
      else if Qle_bool lifeTime' 0 then None
      else
        Some (mkAirplane (id plane) x' y' (angle plane) flying
                (speed plane) (altitude plane) (targetAltitude plane)
                (airportX plane) (airportY plane)
                stateProgress1 contrail2 lifeTime' (color plane))
  | landing =>
      let angle' := atan2 (airportCenterY - y plane) (airportCenterX - x plane) in
      let x' := (x plane + cos angle' * speed plane * delta * multiplier)%Q in
      let y' := (y plane + sin angle' * speed plane * delta * multiplier)%Q in
      let altitude' := qmax 0 (altitude plane - delta * (25 # 100)) in
      let speed' := qmax 30 (speed plane - delta * 15) in
      let distToAirport := hypot (x' - airportCenterX) (y' - airportCenterY) in
      if Qltb distToAirport 50 || Qle_bool altitude' 0 then None
      else
        Some (mkAirplane (id plane) x' y' angle' landing speed' altitude'
                (targetAltitude plane) (airportX plane) (airportY plane)
                stateProgress1 contrail2 (lifeTime plane) (color plane))
  | taxiing => None
  end.

Definition maxAirplanes (totalPopulation : Q) : Z :=
  Z.min 54 (Z.max 18 (Qfloor (totalPopulation / 3500) * 3)).

Definition updateAirplanes (w : WorldRenderState) (currentGridVersion : Z)
    (delta : Q) (s : AircraftState) : AircraftState :=
  match grid w with
  | None => s
  | Some currentGrid =>
      if (gridSize w <=? 0) || (currentSpeed w =? 0) then s
      else
        let airports := findAirports currentGrid (gridSize w) in
        let (totalPopulation, cache) :=
          getPopulation currentGrid (gridSize w) currentGridVersion
            (cachedPopulation s) in
        if (Z.of_nat (length airports) =? 0) ||
           Qltb totalPopulation AIRPLANE_MIN_POPULATION
        then mkAircraftState [] (airplaneId s) (airplaneSpawnTimer s) cache (rng s)
        else
          let multiplier : Q :=
            (if currentSpeed w =? 1 then 1
             else if currentSpeed w =? 2 then 3 # 2 else 2)%Q in
          let timer := (airplaneSpawnTimer s - delta)%Q in
          let s1 :=
            if (Z.of_nat (length (airplanes s)) <? maxAirplanes totalPopulation)
               && Qle_bool timer 0
            then
              let (plane, k) :=
                spawnAirplane (gridSize w) airports (airplaneId s) (rng s) in
              let (r, k') := random k in
              mkAircraftState (airplanes s ++ [plane]) (airplaneId s + 1)
                (5 + r * 10)%Q cache k'
            else mkAircraftState (airplanes s) (airplaneId s) timer cache (rng s) in
          mkAircraftState
            (flat_map (fun plane =>
                         match stepAirplane multiplier delta plane with
                         | Some plane' => [plane']
                         | None => []
                         end)
                      (airplanes s1))
            (airplaneId s1) (airplaneSpawnTimer s1) (cachedPopulation s1) (rng s1)
  end.

End Manager.

End Aircraft.

(* ================================================================== *)
(** ** Pathfinding and direction choice (utilities module) *)
(* ================================================================== *)

(** Modelled from the spec: the utilities module is not among the sources,
    so everything in this module follows the description of [findPath]
    and [pickNextDirection] (sections 4.2 and 4.4), not an
    implementation. *)
Module Pathfinding.

Inductive SurfaceKind := roadSurface | railSurface.

Definition passable (surfaceKind : SurfaceKind) (grid : Grid) (gridSize : Z)
    (c : Coord) : bool :=
  match surfaceKind with
  | roadSurface => isRoadTile grid gridSize (cx c) (cy c)
  | railSurface => isRailTile grid gridSize (cx c) (cy c)
  end.

Definition Coord_eqb (a b : Coord) : bool := (cx a =? cx b) && (cy a =? cy b).

Definition visitedHas (visited : list Coord) (c : Coord) : bool :=
  existsb (Coord_eqb c) visited.

(** The four grid neighbours of a coordinate. *)
Definition neighbours (c : Coord) : list Coord :=
  [ mkCoord (cx c - 1) (cy c); mkCoord (cx c + 1) (cy c);
    mkCoord (cx c) (cy c - 1); mkCoord (cx c) (cy c + 1) ].

(** A queue entry is the path walked to reach its first element, last
    step first. *)
Definition Entry := list Coord.

(** One expansion: every passable neighbour that is not yet visited is
    marked visited and enqueued with the path extended by it. *)
Fixpoint expand (ok : Coord -> bool) (candidates : list Coord) (walked : Entry)
    (visited : list Coord) : list Coord * list Entry :=
  match candidates with
  | [] => (visited, [])
  | n :: rest =>
      if ok n && negb (visitedHas visited n) then
        let (visited', entries) := expand ok rest walked (n :: visited) in
        (visited', (n :: walked) :: entries)
      else expand ok rest walked visited
  end.

(** Breadth-first search: the queue is served first-in first-out, a tile
    is enqueued at most once, and the search ends at the goal or with an
    empty queue.  [rounds] bounds the number of dequeues. *)
Fixpoint bfs (rounds : nat) (ok : Coord -> bool) (goal : Coord)
    (queue : list Entry) (visited : list Coord) : option (list Coord) :=
  match rounds with
  | O => None
  | S r =>
      match queue with
      | [] => None
      | [] :: _ => None
      | (current :: before) :: queue' =>
          if Coord_eqb current goal then Some (rev (current :: before))
          else
            let (visited', entries) :=
              expand ok (neighbours current) (current :: before) visited in
            bfs r ok goal (queue' ++ entries) visited'
      end
  end.

(** Modelled from the spec: [findPath] of the utilities module, which is
    not among the sources (section 4.2): "breadth-first search over
    passable neighbors, visited-set guarded, no re-expansion", for the
    road and the rail surface "via the same algorithm parameterized by a
    tile predicate"; "returns null when no connected path exists"; "the
    returned path always begins at the start coordinate and ends at the
    goal coordinate; a start-equals-goal query returns a single-element
    path".  Each dequeue visits a tile of the N x N grid (or the start)
    that was not dequeued before, so N * N + 2 rounds serve every queue. *)
Definition findPath (grid : Grid) (gridSize startX startY goalX goalY : Z)
    (surfaceKind : SurfaceKind) : option (list Coord) :=
  let start := mkCoord startX startY in
  bfs (Z.to_nat (gridSize * gridSize) + 2)
      (passable surfaceKind grid gridSize)
      (mkCoord goalX goalY) [[start]] [start].

Definition findPathOnRoads (grid : Grid) (gridSize startX startY goalX goalY : Z) :=
  findPath grid gridSize startX startY goalX goalY roadSurface.

Definition findPathOnRails (grid : Grid) (gridSize startX startY goalX goalY : Z) :=
  findPath grid gridSize startX startY goalX goalY railSurface.

(** Two coordinates are grid-adjacent when they differ by one step along
    one axis. *)
Definition adjacent (a b : Coord) : Prop := In b (neighbours a).

(** A walk: consecutive elements are grid-adjacent and every element is of
    the required surface kind. *)
Inductive walk (ok : Coord -> bool) : list Coord -> Prop :=
  | walk_one : forall c, ok c = true -> walk ok [c]
  | walk_cons : forall a b l,
      ok a = true -> adjacent a b -> walk ok (b :: l) -> walk ok (a :: b :: l).

(** Two tiles are connected through tiles of the surface kind. *)
Definition connected (ok : Coord -> bool) (a b : Coord) : Prop :=
  exists l, walk ok l /\ hd_error l = Some a /\ last l a = b.

(** Modelled from the spec: [pickNextDirection] of the utilities module,
    which is not among the sources: the "direction [is] re-chosen at every
    cell boundary, excluding the reverse of current direction unless it is
    the only option"; with "no viable next direction" there is none. *)
Definition pickNextDirection (rand : nat -> Q) (previousDirection : CarDirection)
    (grid : Grid) (gridSize x y : Z) : Rand (option CarDirection) :=
  let options := getDirectionOptionsSpec grid gridSize x y in
  match options with
  | [] => ret None
  | first :: _ =>
      let incoming := getOppositeDirection previousDirection in
      let filtered := filter (fun dir => negb (CarDirection_eqb dir incoming)) options in
      let pool := match filtered with [] => options | _ => filtered end in
      fun k =>
        (Some (pick pool (floorTimes (rand k) (Z.of_nat (length pool))) first), S k)
  end.

End Pathfinding.

(* ================================================================== *)
(** * Properties *)
(* ================================================================== *)

(** ** Comparisons on rationals *)

Lemma Qltb_lt (a b : Q) : Qltb a b = true <-> (a < b)%Q.
Proof.
  unfold Qltb. rewrite negb_true_iff. split; intro H.
  - apply Qnot_le_lt. intro Hle. apply Qle_bool_iff in Hle. congruence.
  - destruct (Qle_bool b a) eqn:E; [|reflexivity].
    apply Qle_bool_iff in E. exfalso. eapply Qlt_not_le; eauto.
Qed.

Lemma Qgeb_le (a b : Q) : Qgeb a b = true <-> (b <= a)%Q.
Proof. unfold Qgeb. apply Qle_bool_iff. Qed.

Lemma Qgeb_false_lt (a b : Q) : Qgeb a b = false <-> (a < b)%Q.
Proof.
  unfold Qgeb. split; intro H.
  - apply Qnot_le_lt. intro Hle. apply Qle_bool_iff in Hle. congruence.
  - destruct (Qle_bool b a) eqn:E; [|reflexivity].
    apply Qle_bool_iff in E. exfalso. eapply Qlt_not_le; eauto.
Qed.

Lemma Qgtb_false_le (a b : Q) : Qgtb a b = false <-> (a <= b)%Q.
Proof.
  unfold Qgtb. rewrite negb_false_iff. apply Qle_bool_iff.
Qed.

Lemma Qgtb_lt (a b : Q) : Qgtb a b = true <-> (b < a)%Q.
Proof. apply Qltb_lt. Qed.

(** ** Example grids *)

Definition tileOf (k : string) : Tile := mkTile (mkBuilding k false 0).
Definition R : Tile := tileOf "road".
Definition G : Tile := tileOf "grass".
Definition L : Tile := tileOf "rail".

(** A 3 x 3 grid whose centre tile has a road on all four sides. *)
Definition crossGrid : Grid :=
  [ [G; R; G];
    [R; R; R];
    [G; R; G] ].

(** ** Intersection classification *)



(** ** Traffic lights *)

Section LightRuns.

Import IntersectionLights.

(** The controller's state after a sequence of update calls. *)
Fixpoint runLightState (info : RoadNetworkInfo) (state : TrafficLightState)
    (deltas : list Q) : TrafficLightState :=
  match deltas with
  | [] => state
  | d :: rest => runLightState info (updateTrafficLightState state info d) rest
  end.

Definition axisRed (s : TrafficLightState) : Prop :=
  (l_north s = red /\ l_south s = red) \/ (l_east s = red /\ l_west s = red).

Lemma updateTrafficLightState_cross (state : TrafficLightState)
    (info : RoadNetworkInfo) (deltaTime : Q) :
  intersectionType info = cross ->
  axisRed (updateTrafficLightState state info deltaTime).
Proof.
  intro Hc. unfold updateTrafficLightState. rewrite Hc.
  destruct (Qltb _ 1); [right | left]; split; reflexivity.
Qed.

(** The controller with one state per intersection keeps the two axes of
    a cross intersection exclusive: at every sampled time, one of the
    pairs north/south and east/west is red as a whole. *)
Theorem cross_axes_never_both_green :
  forall (info : RoadNetworkInfo) (deltas : list Q),
    intersectionType info = cross ->
    axisRed (runLightState info (createTrafficLightState info) deltas).
Proof.
  intros info deltas Hc.
  assert (H0 : axisRed (createTrafficLightState info)).
  { unfold createTrafficLightState. rewrite Hc. right. split; reflexivity. }
  revert H0. generalize (createTrafficLightState info).
  induction deltas as [|d rest IH]; intros s Hs; cbn.
  - exact Hs.
  - apply IH. apply updateTrafficLightState_cross. exact Hc.
Qed.

Lemma cross_axes_never_both_green_witness :
  axisRed (runLightState (analyzeRoadNetwork crossGrid 3 1 1)
             (createTrafficLightState (analyzeRoadNetwork crossGrid 3 1 1))
             [3; 3 # 2; 4]%Q).
Proof.
  apply cross_axes_never_both_green. reflexivity.
Defined.

End LightRuns.

Section LockstepLights.

Import TrafficSystem.

Fixpoint runLights (lights : list TrafficLight) (deltas : list Q)
  : list TrafficLight :=
  match deltas with
  | [] => lights
  | d :: rest => runLights (updateTrafficLights lights d) rest
  end.

(** The four lights of one intersection, all in the same state. *)
Definition fourLights (x y : Z) (st : LightColor) (tm : Q) (ph : Z)
  : list TrafficLight :=
  map (fun d => mkTrafficLight x y st d tm ph) [north; east; south; west].

Lemma updateTrafficLights_fourLights x y st tm ph d :
  exists st' tm',
    updateTrafficLights (fourLights x y st tm ph) d = fourLights x y st' tm' ph.
Proof.
  unfold updateTrafficLights, fourLights. cbn [map]. unfold updateLight.
  cbn [timer state tl_x tl_y direction phase].
  destruct (Qle_bool (tm - d) 0); [destruct st|]; eauto.
Qed.

Lemma runLights_fourLights deltas :
  forall x y st tm ph,
  exists st' tm',
    runLights (fourLights x y st tm ph) deltas = fourLights x y st' tm' ph.
Proof.
  induction deltas as [|d rest IH]; intros x y st tm ph; cbn [runLights].
  - eauto.
  - destruct (updateTrafficLights_fourLights x y st tm ph d) as (st' & tm' & ->).
    apply IH.
Qed.

(** C6 on the traffic system with one light per direction: the lights of
    the cross intersection of [crossGrid] all start green, and after any
    sequence of updates the north, east, south and west lights show the
    same colour, so the two axes are green together whenever one is. *)
Theorem cross_lights_green_together :
  forall deltas : list Q,
    let lights0 := initializeTrafficLights (findIntersections crossGrid 3) in
    let lights := runLights lights0 deltas in
    (getTrafficLightState lights0 1 1 north = Some green /\
     getTrafficLightState lights0 1 1 south = Some green /\
     getTrafficLightState lights0 1 1 east = Some green /\
     getTrafficLightState lights0 1 1 west = Some green) /\
    (exists st,
       getTrafficLightState lights 1 1 north = Some st /\
       getTrafficLightState lights 1 1 south = Some st /\
       getTrafficLightState lights 1 1 east = Some st /\
       getTrafficLightState lights 1 1 west = Some st).
Proof.
  intros deltas lights0 lights.
  assert (E : lights0 = fourLights 1 1 green 8 0) by reflexivity.
  split.
  - rewrite E. repeat split; reflexivity.
  - subst lights. rewrite E.
    destruct (runLights_fourLights deltas 1 1 green 8 0) as (st' & tm' & ->).
    exists st'. repeat split; reflexivity.
Qed.

End LockstepLights.

(** ** The agent loop *)

Lemma forEachAgent_cons {A} (f : A -> Rand (option A)) (a : A) (l : list A) (k : nat) :
  forEachAgent f (a :: l) k =
    (match fst (f a k) with
     | Some a' => a' :: fst (forEachAgent f l (snd (f a k)))
     | None => fst (forEachAgent f l (snd (f a k)))
     end,
     snd (forEachAgent f l (snd (f a k)))).
Proof.
  cbn [forEachAgent]. unfold bind, ret.
  destruct (f a k) as [r k1]. cbn [fst snd].
  destruct (forEachAgent f l k1) as [rest k2]. reflexivity.
Qed.

(** Every agent the loop keeps is the result of the loop body on an agent
    of the list. *)
Lemma forEachAgent_In {A} (f : A -> Rand (option A)) (l : list A) :
  forall (k : nat) (y : A),
    In y (fst (forEachAgent f l k)) ->
    exists x k', In x l /\ fst (f x k') = Some y.
Proof.
  induction l as [|a l IH]; intros k y Hy.
  - contradiction.
  - rewrite forEachAgent_cons in Hy. cbn [fst] in Hy.
    destruct (fst (f a k)) as [a'|] eqn:E.
    + destruct Hy as [<- | Hy].
      * exists a, k. split; [left; reflexivity | exact E].
      * destruct (IH _ _ Hy) as (x & k' & Hx & Hf).
        exists x, k'. split; [right; exact Hx | exact Hf].
    + destruct (IH _ _ Hy) as (x & k' & Hx & Hf).
      exists x, k'. split; [right; exact Hx | exact Hf].
Qed.

(** An agent that the loop body keeps the same way at every oracle
    position is in the result. *)
Lemma forEachAgent_keeps {A} (f : A -> Rand (option A)) (l : list A) (x y : A) :
  In x l ->
  (forall k, fst (f x k) = Some y) ->
  forall k, In y (fst (forEachAgent f l k)).
Proof.
  intros Hx Hf. induction l as [|a l IH]; intro k.
  - contradiction.
  - rewrite forEachAgent_cons. cbn [fst].
    destruct Hx as [-> | Hx].
    + rewrite Hf. left. reflexivity.
    + destruct (fst (f a k)); [right|]; apply IH; exact Hx.
Qed.

(** ** Cars *)

Section CarProperties.

Variable rand : nat -> Q.
Variable DIRECTION_META_step : CarDirection -> Z * Z.
Variable getDirectionOptions : Grid -> Z -> Z -> Z -> list CarDirection.
Variable pickNextDirection :
  CarDirection -> Grid -> Z -> Z -> Z -> Rand (option CarDirection).
Variable CAR_COLORS : list string.

Let update := updateCars rand DIRECTION_META_step getDirectionOptions
                pickNextDirection CAR_COLORS.
Let step := stepCar DIRECTION_META_step pickNextDirection.
Let move := moveCar DIRECTION_META_step pickNextDirection.
Let spawnStep := carSpawnStep rand getDirectionOptions CAR_COLORS.

(** What the movement loop keeps of a car. *)
Lemma moveCar_frame (guardLeft : nat) (g : Grid) (n : Z) :
  forall (car car' : Car) (k : nat),
    fst (move guardLeft g n car k) = Some car' ->
    car_id car' = car_id car /\ car_age car' = car_age car /\
    car_maxAge car' = car_maxAge car /\ car_speed car' = car_speed car.
Proof.
  induction guardLeft as [|m IH]; intros car car' k H; cbn in H.
  - injection H as <-. repeat split.
  - destruct (Qgeb (car_progress car) 1); [|injection H as <-; repeat split].
    destruct (DIRECTION_META_step (car_direction car)) as [sx sy].
    destruct (negb (isRoadTile g n (car_tileX car + sx) (car_tileY car + sy)));
      [discriminate|].
    unfold bind in H.
    destruct (pickNextDirection _ g n _ _ k) as [[d|] k1]; [|discriminate].
    apply IH in H. cbn in H. exact H.
Qed.

(** A car the movement loop keeps is on a road tile, if it was on one. *)
Lemma moveCar_on_road (guardLeft : nat) (g : Grid) (n : Z) :
  forall (car car' : Car) (k : nat),
    isRoadTile g n (car_tileX car) (car_tileY car) = true ->
    fst (move guardLeft g n car k) = Some car' ->
    isRoadTile g n (car_tileX car') (car_tileY car') = true.
Proof.
  induction guardLeft as [|m IH]; intros car car' k Hr H; cbn in H.
  - injection H as <-. exact Hr.
  - destruct (Qgeb (car_progress car) 1); [|injection H as <-; exact Hr].
    destruct (DIRECTION_META_step (car_direction car)) as [sx sy].
    destruct (isRoadTile g n (car_tileX car + sx) (car_tileY car + sy)) eqn:E;
      cbn in H; [|discriminate].
    unfold bind in H.
    destruct (pickNextDirection _ g n _ _ k) as [[d|] k1]; [|discriminate].
    apply IH in H; [exact H | exact E].
Qed.

(** A car the loop body keeps has aged by [delta], is not older than its
    [maxAge], started on a road tile and ends on one. *)
Lemma stepCar_kept (g : Grid) (n : Z) (mult delta : Q) (car car' : Car) (k : nat) :
  fst (step g n mult delta car k) = Some car' ->
  car_id car' = car_id car /\
  car_age car' = (car_age car + delta)%Q /\
  car_maxAge car' = car_maxAge car /\
  car_speed car' = car_speed car /\
  (car_age car' <= car_maxAge car')%Q /\
  isRoadTile g n (car_tileX car) (car_tileY car) = true /\
  isRoadTile g n (car_tileX car') (car_tileY car') = true.
Proof.
  unfold step, stepCar. intro H.
  destruct (Qgtb (car_age car + delta) (car_maxAge car)) eqn:Eage; [discriminate|].
  destruct (isRoadTile g n (car_tileX car) (car_tileY car)) eqn:Eroad;
    cbn [negb] in H; [|discriminate].
  pose proof (moveCar_frame _ _ _ _ _ _ H) as (Hid & Ha & Hm & Hs).
  pose proof (fun E => moveCar_on_road _ _ _ _ _ _ E H) as Hr.
  specialize (Hr Eroad).
  cbn in Hid, Ha, Hm, Hs.
  repeat split; try assumption.
  rewrite Ha, Hm. apply Qgtb_false_le. exact Eage.
Qed.

End CarProperties.

Section CarSpawn.

Variable rand : nat -> Q.
Variable getDirectionOptions : Grid -> Z -> Z -> Z -> list CarDirection.
Variable CAR_COLORS : list string.

(** What is known of a car that [spawnRandomCar] pushes. *)
Definition freshCar (g : Grid) (n nextId : Z) (c : Car) : Prop :=
  car_id c = nextId /\
  isRoadTile g n (car_tileX c) (car_tileY c) = true /\
  car_age c = 0%Q /\
  (exists k, car_progress c = (rand k * (8 # 10))%Q) /\
  (exists k, car_speed c = (((35 # 100) + rand k * (35 # 100)) * (7 # 10))%Q) /\
  (exists k, car_maxAge c = (1800 + rand k * 2700)%Q).

Lemma spawnCarAttempt_fresh (g : Grid) (n nextId : Z) (k : nat) (c : Car) :
  fst (spawnCarAttempt rand getDirectionOptions CAR_COLORS g n nextId k) = Some c ->
  freshCar g n nextId c.
Proof.
  unfold spawnCarAttempt, bind, random, ret. cbn [fst snd].
  destruct (isRoadTile g n _ _) eqn:Eroad; cbn [negb]; [|discriminate].
  destruct (Z.of_nat (length _) =? 0); [discriminate|].
  cbn [fst]. intro H. injection H as <-.
  unfold freshCar. cbn.
  repeat split; eauto.
Qed.

Lemma spawnCarLoop_fresh (attempts : nat) (g : Grid) (n nextId : Z) :
  forall (k : nat) (c : Car),
    fst (spawnCarLoop rand getDirectionOptions CAR_COLORS attempts g n nextId k) = Some c ->
    freshCar g n nextId c.
Proof.
  induction attempts as [|m IH]; intros k c H; cbn in H.
  - discriminate.
  - unfold bind in H.
    destruct (spawnCarAttempt rand getDirectionOptions CAR_COLORS g n nextId k)
      as [[c1|] k1] eqn:E.
    + cbn in H. injection H as <-.
      apply (spawnCarAttempt_fresh g n nextId k). rewrite E. reflexivity.
    + apply IH in H. exact H.
Qed.

(** The spawn step leaves the cars as they were or appends one fresh car
    that takes the next identifier. *)
Lemma carSpawnStep_cars (w : WorldRenderState) (g : Grid) (delta : Q)
    (s : CarSystemState) :
  grid w = Some g ->
  let s1 := carSpawnStep rand getDirectionOptions CAR_COLORS w delta s in
  (cars s1 = cars s /\ carId s1 = carId s) \/
  (exists c, cars s1 = cars s ++ [c] /\ carId s1 = carId s + 1 /\
             freshCar g (gridSize w) (carId s) c).
Proof.
  intros Hg s1. subst s1. unfold carSpawnStep. cbn [cars carId car_rng].
  destruct (_ && _); [|left; split; reflexivity].
  unfold spawnRandomCar. rewrite Hg. cbn [cars carId car_rng carSpawnTimer].
  destruct (gridSize w <=? 0); [left; split; reflexivity|].
  destruct (spawnCarLoop rand getDirectionOptions CAR_COLORS 20 g (gridSize w)
              (carId s) (car_rng s)) as [[c|] k] eqn:E.
  - right. exists c. cbn. split; [reflexivity | split; [reflexivity|]].
    apply (spawnCarLoop_fresh 20 g (gridSize w) (carId s) (car_rng s)).
    rewrite E. reflexivity.
  - left. split; reflexivity.
Qed.

End CarSpawn.



Definition gridPresent (w : WorldRenderState) : Prop :=
  exists g, grid w = Some g /\ 0 < gridSize w.

Section CarManager.

Variable rand : nat -> Q.
Variable DIRECTION_META_step : CarDirection -> Z * Z.
Variable getDirectionOptions : Grid -> Z -> Z -> Z -> list CarDirection.
Variable pickNextDirection :
  CarDirection -> Grid -> Z -> Z -> Z -> Rand (option CarDirection).
Variable CAR_COLORS : list string.

Let update := updateCars rand DIRECTION_META_step getDirectionOptions
                pickNextDirection CAR_COLORS.
Let step := stepCar DIRECTION_META_step pickNextDirection.
Let spawnStep := carSpawnStep rand getDirectionOptions CAR_COLORS.


Lemma updateCars_absent (w : WorldRenderState) (delta : Q) (s : CarSystemState) :
  grid w = None \/ gridSize w <= 0 ->
  update w delta s = mkCarSystemState [] (carId s) (carSpawnTimer s) (car_rng s).
Proof.
  intros H. unfold update, updateCars.
  destruct (grid w) as [g|]; [|reflexivity].
  destruct H as [H|H]; [discriminate|].
  apply Z.leb_le in H. rewrite H. reflexivity.
Qed.

Lemma updateCars_present (w : WorldRenderState) (g : Grid) (delta : Q)
    (s : CarSystemState) :
  grid w = Some g -> 0 < gridSize w ->
  let s1 := spawnStep w delta s in
  let r := forEachAgent (step g (gridSize w) (speedMultiplier (currentSpeed w)) delta)
             (cars s1) (car_rng s1) in
  update w delta s = mkCarSystemState (fst r) (carId s1) (carSpawnTimer s1) (snd r).
Proof.
  intros Hg Hn s1 r. unfold update, updateCars. rewrite Hg.
  apply Z.leb_gt in Hn. rewrite Hn.
  fold spawnStep. fold s1. fold step. fold r.
  destruct r as [l k]. reflexivity.
Qed.

Lemma updateCars_cases (w : WorldRenderState) :
  (grid w = None \/ gridSize w <= 0) \/ gridPresent w.
Proof.
  unfold gridPresent. destruct (grid w) as [g|]; [|left; left; reflexivity].
  destruct (Z_le_gt_dec (gridSize w) 0); [left; right; assumption|].
  right. exists g. split; [reflexivity | lia].
Qed.

(** Every car in the live set after an update is the loop body's result
    on a car that was live before, or on the car spawned in this call. *)
Lemma updateCars_kept (w : WorldRenderState) (delta : Q) (s : CarSystemState)
    (c' : Car) :
  In c' (cars (update w delta s)) ->
  exists g c k,
    grid w = Some g /\ 0 < gridSize w /\
    fst (step g (gridSize w) (speedMultiplier (currentSpeed w)) delta c k) = Some c' /\
    (In c (cars s) \/ freshCar rand g (gridSize w) (carId s) c).
Proof.
  intro H. destruct (updateCars_cases w) as [Ha | (g & Hg & Hn)].
  - rewrite (updateCars_absent _ _ _ Ha) in H. contradiction.
  - rewrite (updateCars_present _ _ _ _ Hg Hn) in H. cbn [cars] in H.
    apply forEachAgent_In in H. destruct H as (c & k & Hc & Hf).
    exists g, c, k. repeat split; try assumption.
    destruct (carSpawnStep_cars rand getDirectionOptions CAR_COLORS w g delta s Hg)
      as [[E _] | (c1 & E & _ & Hfresh)]; fold spawnStep in E; rewrite E in Hc.
    + left. exact Hc.
    + apply in_app_or in Hc. destruct Hc as [Hc | [<- | []]].
      * left. exact Hc.
      * right. exact Hfresh.
Qed.






End CarManager.

(** ** Random indices *)

Definition unitOracle (rand : nat -> Q) : Prop :=
  forall k, (0 <= rand k)%Q /\ (rand k < 1)%Q.

Lemma floorTimes_range (r : Q) (n : Z) :
  (0 <= r)%Q -> (r < 1)%Q -> 0 < n -> 0 <= floorTimes r n < n.
Proof.
  intros H0 H1 Hn. unfold floorTimes.
  assert (Hpos : (0 < inject_Z n)%Q).
  { replace 0%Q with (inject_Z 0) by reflexivity. rewrite <- Zlt_Qlt. exact Hn. }
  split.
  - change 0 with (Qfloor 0). apply Qfloor_resp_le.
    apply Qmult_le_0_compat; [exact H0 | apply Qlt_le_weak; exact Hpos].
  - rewrite Zlt_Qlt.
    apply Qle_lt_trans with (r * inject_Z n)%Q; [apply Qfloor_le|].
    setoid_replace (inject_Z n) with (1 * inject_Z n)%Q at 2 by ring.
    apply Qmult_lt_compat_r; assumption.
Qed.

Lemma pick_In {A} (l : list A) (r : Q) (dflt : A) :
  (0 <= r)%Q -> (r < 1)%Q -> l <> [] ->
  In (pick l (floorTimes r (Z.of_nat (length l))) dflt) l.
Proof.
  intros H0 H1 Hne. unfold pick. apply nth_In.
  assert (0 < Z.of_nat (length l)) by (destruct l; [congruence | cbn; lia]).
  pose proof (floorTimes_range r _ H0 H1 H). lia.
Qed.

Lemma opposite_differs (d : CarDirection) : getOppositeDirection d <> d.
Proof. destruct d; discriminate. Qed.

Lemma CarDirection_eqb_eq (a b : CarDirection) :
  CarDirection_eqb a b = true <-> a = b.
Proof. destruct a, b; cbn; split; intro H; try reflexivity; discriminate. Qed.

(** When nothing survives the filter that drops direction [d], every
    option is [d]. *)
Lemma filter_not_nil (d : CarDirection) (options : list CarDirection) :
  filter (fun dir => negb (CarDirection_eqb dir d)) options = [] ->
  forall o, In o options -> o = d.
Proof.
  intros H o Ho.
  destruct (CarDirection_eqb o d) eqn:E; [apply CarDirection_eqb_eq; exact E|].
  assert (Hin : In o (filter (fun dir => negb (CarDirection_eqb dir d)) options)).
  { apply filter_In. split; [exact Ho | rewrite E; reflexivity]. }
  rewrite H in Hin. contradiction.
Qed.

Lemma filter_not_In (d o : CarDirection) (options : list CarDirection) :
  In o (filter (fun dir => negb (CarDirection_eqb dir d)) options) -> o <> d.
Proof.
  intros H. apply filter_In in H. destruct H as [_ H].
  apply negb_true_iff in H. intro E. apply CarDirection_eqb_eq in E. congruence.
Qed.

(** ** Free-roaming trains *)

Section RoamingTrainManager.

Import RoamingTrains.

Variable rand : nat -> Q.
Variable isMobile : bool.
Variable DIRECTION_META_step : CarDirection -> Z * Z.
Variable getRailDirectionOptions : Grid -> Z -> Z -> Z -> list CarDirection.

Let update := updateTrains rand isMobile DIRECTION_META_step getRailDirectionOptions.
Let stepT := stepTrain rand DIRECTION_META_step getRailDirectionOptions.
Let cross := crossBoundary rand DIRECTION_META_step getRailDirectionOptions.


(** What crossing a cell boundary keeps of a train. *)
Lemma crossBoundary_frame (g : Grid) (n : Z) (t : Train) (k : nat) :
  let t' := fst (cross g n t k) in
  id t' = id t /\ age t' = age t /\ maxAge t' = maxAge t /\ speed t' = speed t /\
  (progress t' = progress t \/ progress t' = 1 # 2) /\
  (isRailTile g n (tileX t) (tileY t) = true ->
   isRailTile g n (tileX t') (tileY t') = true).
Proof.
  unfold cross, crossBoundary.
  destruct (DIRECTION_META_step (direction t)) as [sx sy].
  destruct (isRailTile g n (tileX t + sx) (tileY t + sy)) eqn:Enext; cbn [negb].
  - destruct (Z.of_nat (length _) >? 0).
    + cbn. repeat split; auto.
    + destruct (getRailDirectionOptions g n (tileX t + sx) (tileY t + sy));
        cbn; repeat split; auto.
  - destruct (Z.of_nat (length _) >? 0); cbn; repeat split; auto.
Qed.

(** The branch decision: a train leaves a cell boundary in the opposite
    of its direction of travel only on a tile where that is the only
    option. *)
Lemma crossBoundary_no_reversal (g : Grid) (n : Z) (t : Train) (k : nat) :
  unitOracle rand ->
  let t' := fst (cross g n t k) in
  direction t' = getOppositeDirection (direction t) ->
  getRailDirectionOptions g n (tileX t') (tileY t') <> [] /\
  forall o, In o (getRailDirectionOptions g n (tileX t') (tileY t')) ->
            o = getOppositeDirection (direction t).
Proof.
  intros Hrand. unfold cross, crossBoundary.
  destruct (DIRECTION_META_step (direction t)) as [sx sy].
  set (back := getOppositeDirection (direction t)).
  assert (Hpick : forall (l : list CarDirection) r,
             In r (filter (notDirection back) l) -> r <> back).
  { intros l r Hr. apply (filter_not_In back r l). exact Hr. }
  destruct (isRailTile g n (tileX t + sx) (tileY t + sy)) eqn:Enext; cbn [negb].
  - remember (getRailDirectionOptions g n (tileX t + sx) (tileY t + sy))
      as nextOptions eqn:Eo.
    destruct (filter (notDirection back) nextOptions) as [|f1 fl] eqn:Ef.
    + cbn [length Z.of_nat Z.gtb Z.compare].
      destruct nextOptions as [|first others].
      * cbn. intro H. exfalso. exact (opposite_differs _ (eq_sym H)).
      * cbn. intros Hd. rewrite <- Eo.
        split; [discriminate|].
        intros o Ho. apply (filter_not_nil back (first :: others)); assumption.
    + replace (Z.of_nat (length (f1 :: fl)) >? 0) with true by (cbn; reflexivity).
      unfold bind, random, ret. cbn [fst snd direction setDirection setTile].
      intros H. exfalso.
      apply (Hpick nextOptions _) in H; [exact H|].
      rewrite Ef. apply pick_In; try apply Hrand. discriminate.
  - set (options := getRailDirectionOptions g n (tileX t) (tileY t)).
    destruct (filter (notDirection back) options) as [|f1 fl] eqn:Ef.
    + cbn. intro H. exfalso. exact (opposite_differs _ (eq_sym H)).
    + replace (Z.of_nat (length (f1 :: fl)) >? 0) with true by (cbn; reflexivity).
      unfold bind, random, ret. cbn [fst snd direction setDirection setTile].
      intros H. exfalso.
      apply (Hpick options _) in H; [exact H|].
      rewrite Ef. apply pick_In; try apply Hrand. discriminate.
Qed.

Lemma findNearbyRail_some (g : Grid) (n x y nx ny : Z) :
  findNearbyRail g n x y = Some (nx, ny) ->
  isRailTile g n nx ny = true /\ -2 <= nx - x <= 2 /\ -2 <= ny - y <= 2.
Proof.
  unfold findNearbyRail. intro H. apply find_some in H. destruct H as [Hin Hr].
  split; [exact Hr|].
  apply in_map_iff in Hin. destruct Hin as ([dx dy] & E & Hd).
  injection E as <- <-. cbn [fst snd].
  unfold searchOffsets in Hd. cbn in Hd.
  repeat (destruct Hd as [Hd | Hd]; [injection Hd as <- <-; lia|]).
  contradiction.
Qed.

Lemma findNearbyRail_none (g : Grid) (n x y : Z) :
  findNearbyRail g n x y = None ->
  forall dx dy, -2 <= dx <= 2 -> -2 <= dy <= 2 ->
                isRailTile g n (x + dx) (y + dy) = false.
Proof.
  unfold findNearbyRail. intros H dx dy Hx Hy.
  apply (find_none _ _ H (x + dx, y + dy)).
  apply in_map_iff. exists (dx, dy). split; [reflexivity|].
  unfold searchOffsets. cbn.
  assert (dx = -2 \/ dx = -1 \/ dx = 0 \/ dx = 1 \/ dx = 2) as Hdx by lia.
  assert (dy = -2 \/ dy = -1 \/ dy = 0 \/ dy = 1 \/ dy = 2) as Hdy by lia.
  destruct Hdx as [-> | [-> | [-> | [-> | ->]]]];
    destruct Hdy as [-> | [-> | [-> | [-> | ->]]]];
    repeat (first [left; reflexivity | right]).
Qed.

(** A train that the filter callback keeps has aged by [deltaTime], is
    younger than its [maxAge] and is on a rail tile. *)
Lemma stepTrain_kept (g : Grid) (n : Z) (d : Q) (t t' : Train) (k : nat) :
  fst (stepT g n d t k) = Some t' ->
  id t' = id t /\ age t' = (age t + d)%Q /\ maxAge t' = maxAge t /\
  speed t' = speed t /\ (age t' < maxAge t')%Q /\
  isRailTile g n (tileX t') (tileY t') = true.
Proof.
  unfold stepT, stepTrain. cbn [age maxAge tileX tileY setAge].
  destruct (Qgeb (age t + d) (maxAge t)) eqn:Eage; [discriminate|].
  apply Qgeb_false_lt in Eage.
  destruct (isRailTile g n (tileX t) (tileY t)) eqn:Erail; cbn [negb].
  - cbn [progress speed setProgress setAge].
    destruct (Qgeb _ 1).
    + unfold bind, ret.
      match goal with |- context [crossBoundary ?a ?b ?c ?g0 ?n0 ?t0 ?k0] =>
        pose proof (crossBoundary_frame g0 n0 t0 k0) as Hc;
        fold cross;
        destruct (cross g0 n0 t0 k0) as [t1 k1] end.
      cbn in Hc. destruct Hc as (Hi & Ha & Hm & Hs & _ & Hr).
      cbn. intro H. injection H as <-.
      rewrite Hi, Ha, Hm, Hs. repeat split; auto.
    + cbn. intro H. injection H as <-. cbn. repeat split; auto.
  - destruct (findNearbyRail g n (tileX t) (tileY t)) as [[nx ny]|] eqn:Ef;
      [|discriminate].
    cbn. intro H. injection H as <-. cbn.
    apply findNearbyRail_some in Ef. destruct Ef as [Ef _].
    repeat split; assumption.
Qed.


End RoamingTrainManager.

Section RoamingTrainRuns.

Import RoamingTrains.

Variable rand : nat -> Q.
Variable isMobile : bool.
Variable DIRECTION_META_step : CarDirection -> Z * Z.
Variable getRailDirectionOptions : Grid -> Z -> Z -> Z -> list CarDirection.

Let update := updateTrains rand isMobile DIRECTION_META_step getRailDirectionOptions.
Let stepT := stepTrain rand DIRECTION_META_step getRailDirectionOptions.

(** What is known of a train that [spawnRandomTrain] pushes. *)
Definition freshTrain (g : Grid) (n nextId : Z) (t : Train) : Prop :=
  id t = nextId /\
  isRailTile g n (tileX t) (tileY t) = true /\
  age t = 0%Q /\
  (exists k, progress t = (rand k * (8 # 10))%Q) /\
  (exists k, speed t = (((25 # 100) + rand k * (15 # 100)) * (5 # 10))%Q).

Lemma spawnTrainAttempt_fresh (g : Grid) (n nextId : Z) (k : nat) (t : Train) :
  fst (spawnTrainAttempt rand isMobile getRailDirectionOptions g n nextId k) = Some t ->
  freshTrain g n nextId t.
Proof.
  unfold spawnTrainAttempt, bind, random, ret. cbn [fst snd].
  destruct (isRailTile g n _ _) eqn:Erail; cbn [negb]; [|discriminate].
  destruct (Z.of_nat (length _) =? 0); [discriminate|].
  cbn [fst]. intro H. injection H as <-.
  unfold freshTrain. cbn [id tileX tileY age progress speed].
  repeat split; eauto.
Qed.

Lemma spawnTrainLoop_fresh (attempts : nat) (g : Grid) (n nextId : Z) :
  forall (k : nat) (t : Train),
    fst (spawnTrainLoop rand isMobile getRailDirectionOptions attempts g n nextId k)
      = Some t ->
    freshTrain g n nextId t.
Proof.
  induction attempts as [|m IH]; intros k t H; cbn in H.
  - discriminate.
  - unfold bind in H.
    destruct (spawnTrainAttempt rand isMobile getRailDirectionOptions g n nextId k)
      as [[t1|] k1] eqn:E.
    + cbn in H. injection H as <-.
      apply (spawnTrainAttempt_fresh g n nextId k). rewrite E. reflexivity.
    + apply IH in H. exact H.
Qed.

Lemma updateTrains_absent (w : WorldRenderState) (v : Z) (d : Q)
    (s : TrainSystemState) :
  grid w = None \/ gridSize w <= 0 -> update w v d s = s.
Proof.
  intros H. unfold update, updateTrains.
  destruct (grid w) as [g|]; [|reflexivity].
  destruct H as [H|H]; [discriminate|].
  apply Z.leb_le in H. rewrite H. reflexivity.
Qed.

(** With a grid, the live set after an update holds the trains the
    filter kept, in order, and at most one fresh train behind them; the
    cache is not written. *)
Lemma updateTrains_present (w : WorldRenderState) (g : Grid) (v : Z) (d : Q)
    (s : TrainSystemState) :
  grid w = Some g -> 0 < gridSize w ->
  let kept := fst (forEachAgent (stepT g (gridSize w) d) (trains s) (rng s)) in
  let s' := update w v d s in
  cachedRailTileCount s' = cachedRailTileCount s /\
  ((trains s' = kept /\ trainId s' = trainId s) \/
   (exists t, trains s' = kept ++ [t] /\ trainId s' = trainId s + 1 /\
              freshTrain g (gridSize w) (trainId s) t /\
              (0 < railTileCountUsed (cachedRailTileCount s) v)%Q)).
Proof.
  intros Hg Hn kept s'. subst s' kept. unfold update, updateTrains. rewrite Hg.
  pose proof Hn as Hn'. apply Z.leb_gt in Hn'. rewrite Hn'.
  fold stepT.
  destruct (forEachAgent (stepT g (gridSize w) d) (trains s) (rng s)) as [kept k].
  cbn [fst].
  destruct (Qgtb (railTileCountUsed (cachedRailTileCount s) v) 0) eqn:Ecount;
    [|split; [reflexivity | left; split; reflexivity]].
  destruct (Qgeb _ _); [|split; [reflexivity | left; split; reflexivity]].
  unfold spawnRandomTrain. rewrite Hg, Hn'.
  cbn [trains trainId rng trainSpawnTimer cachedRailTileCount].
  destruct (spawnTrainLoop rand isMobile getRailDirectionOptions 20 g (gridSize w)
              (trainId s) k) as [[t|] k1] eqn:E; cbn [snd trains trainId cachedRailTileCount].
  - split; [reflexivity|]. right. exists t.
    split; [reflexivity | split; [reflexivity | split]].
    + apply (spawnTrainLoop_fresh 20 g (gridSize w) (trainId s) k).
      rewrite E. reflexivity.
    + apply Qgtb_lt. exact Ecount.
  - split; [reflexivity | left; split; reflexivity].
Qed.




End RoamingTrainRuns.

(** ** Pedestrians *)

Section PedestrianManager.

Import Pedestrians.

Variable rand : nat -> Q.
Variable isMobile : bool.
Variable PI : Q.
Variable PEDESTRIAN_MIN_ZOOM : Q.
Variable PEDESTRIAN_SKIN_COLORS : list string.
Variable PEDESTRIAN_SHIRT_COLORS : list string.
Variable findPathOnRoads : Grid -> Z -> Z -> Z -> Z -> Z -> option (list Coord).
Variable getDirectionToTile : Z -> Z -> Z -> Z -> option CarDirection.
Variable findResidentialBuildings : Grid -> Z -> list Coord.
Variable findPedestrianDestinations : Grid -> Z -> list Destination.

Let update :=
  updatePedestrians rand isMobile PI PEDESTRIAN_MIN_ZOOM PEDESTRIAN_SKIN_COLORS
    PEDESTRIAN_SHIRT_COLORS findPathOnRoads getDirectionToTile
    findResidentialBuildings findPedestrianDestinations.
Let stepP := stepPedestrian findPathOnRoads getDirectionToTile.
Let back := turnBack findPathOnRoads getDirectionToTile.
Let walkP := walk findPathOnRoads getDirectionToTile.

(** The fields that neither walking nor turning back touches. *)
Definition sameWalker (p p' : Pedestrian) : Prop :=
  id p' = id p /\ age p' = age p /\ maxAge p' = maxAge p /\ speed p' = speed p.

Lemma turnBack_frame (jump : bool) (g : Grid) (n : Z) (p p' : Pedestrian) :
  back jump g n p = Some p' -> sameWalker p p' /\ progress p' = 0%Q.
Proof.
  unfold back, turnBack. destruct (returningHome p); [discriminate|].
  destruct (findPathOnRoads g n _ _ _ _) as [[|c l]|]; try discriminate.
  intro H. injection H as <-. unfold sameWalker.
  destruct jump; cbn; repeat split.
Qed.

Lemma walk_frame (fuel : nat) (g : Grid) (n : Z) :
  forall (p p' : Pedestrian) (alive : bool),
    walkP fuel g n p = (p', alive) -> sameWalker p p'.
Proof.
  unfold sameWalker.
  induction fuel as [|m IH]; intros p p' alive H; cbn in H.
  - injection H as <- _. repeat split.
  - destruct (Qgeb (progress p) 1 && (pathIndex p <? pathLength p - 1));
      [|injection H as <- _; repeat split].
    destruct (_ || _).
    + injection H as <- _. cbn. repeat split.
    + match type of H with
      | (if ?c then _ else _) = _ => destruct c
      end.
      * match type of H with
        | match ?b with _ => _ end = _ => destruct b as [p2|] eqn:Eb
        end.
        -- injection H as <- _. apply turnBack_frame in Eb.
           destruct Eb as [Hs _]. unfold sameWalker in Hs. cbn in Hs. exact Hs.
        -- injection H as <- _. cbn. repeat split.
      * apply IH in H.
        match type of H with
        | context [if ?c then _ else _] => destruct c
        end; cbn in H; exact H.
Qed.


(** A pedestrian that the loop body keeps has aged by [delta], is not
    older than its [maxAge] and stood on a road tile when the call began. *)
Lemma stepPedestrian_kept (g : Grid) (n : Z) (mult d : Q) (p p' : Pedestrian) :
  stepP g n mult d p = Some p' ->
  id p' = id p /\ age p' = (age p + d)%Q /\ maxAge p' = maxAge p /\
  speed p' = speed p /\ (age p' <= maxAge p')%Q /\
  isRoadTile g n (tileX p) (tileY p) = true.
Proof using findPathOnRoads getDirectionToTile.
  unfold stepP, stepPedestrian.
  destruct (Qgtb (age p + d) (maxAge p)) eqn:Eage; [discriminate|].
  apply Qgtb_false_le in Eage.
  destruct (isRoadTile g n (tileX p) (tileY p)); cbn [negb]; [|discriminate].
  set (p0 := mkPedestrian _ _ _ _ _ _ _ _ _ _ _ _ _ _ _ _ _ _ _ _).
  assert (H0 : sameWalker p0 p0) by (unfold sameWalker; repeat split).
  assert (Hbase : id p0 = id p /\ age p0 = (age p + d)%Q /\
                  maxAge p0 = maxAge p /\ speed p0 = speed p)
    by (repeat split).
  assert (Hgoal : forall q, sameWalker p0 q ->
            id q = id p /\ age q = (age p + d)%Q /\ maxAge q = maxAge p /\
            speed q = speed p /\ (age q <= maxAge q)%Q /\ true = true).
  { intros q (Hi & Ha & Hm & Hs). destruct Hbase as (Bi & Ba & Bm & Bs).
    rewrite Hi, Ha, Hm, Hs, Bi, Ba, Bm, Bs. repeat split. exact Eage. }
  assert (Htrans : forall a b c, sameWalker a b -> sameWalker b c -> sameWalker a c).
  { unfold sameWalker. intros a b c (A1 & A2 & A3 & A4) (B1 & B2 & B3 & B4).
    repeat split; congruence. }
  destruct (if _ && _ then _ else Some p0) as [p1|] eqn:Earr; [|discriminate].
  assert (H1 : sameWalker p0 p1).
  { destruct ((pathLength p0 =? 1) && Qgeb (progress p0) 1) in Earr.
    - apply turnBack_frame in Earr. destruct Earr as [Earr _]. exact Earr.
    - injection Earr as <-. exact H0. }
  fold walkP.
  destruct (walkP (stepsToEnd p1) g n p1) as [p2 alive] eqn:Ewalk.
  pose proof (walk_frame _ _ _ _ _ _ Ewalk) as H2.
  destruct alive; cbn [andb].
  - destruct (Qgeb (progress p2) 1 && (pathIndex p2 >=? pathLength p2 - 1)).
    + intro H. fold back in H. apply turnBack_frame in H. destruct H as [H3 _].
      apply Hgoal. apply (Htrans _ _ _ H1). apply (Htrans _ _ _ H2). exact H3.
    + intro H. injection H as <-. apply Hgoal. apply (Htrans _ _ _ H1). exact H2.
  - discriminate.
Qed.


End PedestrianManager.

Section PedestrianRuns.

Import Pedestrians.

Variable rand : nat -> Q.
Variable isMobile : bool.
Variable PI : Q.
Variable PEDESTRIAN_MIN_ZOOM : Q.
Variable PEDESTRIAN_SKIN_COLORS : list string.
Variable PEDESTRIAN_SHIRT_COLORS : list string.
Variable findPathOnRoads : Grid -> Z -> Z -> Z -> Z -> Z -> option (list Coord).
Variable getDirectionToTile : Z -> Z -> Z -> Z -> option CarDirection.
Variable findResidentialBuildings : Grid -> Z -> list Coord.
Variable findPedestrianDestinations : Grid -> Z -> list Destination.

Let update :=
  updatePedestrians rand isMobile PI PEDESTRIAN_MIN_ZOOM PEDESTRIAN_SKIN_COLORS
    PEDESTRIAN_SHIRT_COLORS findPathOnRoads getDirectionToTile
    findResidentialBuildings findPedestrianDestinations.
Let stepP := stepPedestrian findPathOnRoads getDirectionToTile.
Let spawn :=
  spawnPedestrian rand PI PEDESTRIAN_SKIN_COLORS PEDESTRIAN_SHIRT_COLORS
    findPathOnRoads getDirectionToTile findResidentialBuildings
    findPedestrianDestinations.
Let spawnLoop :=
  spawnBatchLoop rand PI PEDESTRIAN_SKIN_COLORS PEDESTRIAN_SHIRT_COLORS
    findPathOnRoads getDirectionToTile findResidentialBuildings
    findPedestrianDestinations.


(** What is known of a pedestrian pushed in a call that started with
    the identifier counter at [lo]. *)
Definition freshPedestrian (lo : Z) (p : Pedestrian) : Prop :=
  lo <= id p /\ age p = 0%Q /\
  (exists k, progress p = rand k) /\
  (exists k, speed p = ((12 # 100) + rand k * (8 # 100))%Q).

Lemma spawnPedestrian_state (g : Grid) (n : Z) (s : PedestrianSystemState) :
  let s' := snd (spawn g n s) in
  pedestrianId s <= pedestrianId s' /\
  cachedRoadTileCount s' = cachedRoadTileCount s /\
  pedestrianSpawnTimer s' = pedestrianSpawnTimer s /\
  forall p, In p (pedestrians s') ->
            In p (pedestrians s) \/ freshPedestrian (pedestrianId s) p.
Proof.
  unfold spawn, spawnPedestrian.
  destruct (Z.of_nat (length _) =? 0);
    [cbn; repeat split; auto; lia|].
  destruct (Z.of_nat (length _) =? 0);
    [cbn; repeat split; auto; lia|].
  unfold random.
  destruct (findPathOnRoads g n _ _ _ _) as [[|c l]|];
    try (cbn; repeat split; auto; lia).
  cbn [snd pedestrians pedestrianId cachedRoadTileCount pedestrianSpawnTimer].
  repeat split; try lia.
  intros p Hp. apply in_app_or in Hp. destruct Hp as [Hp | [<- | []]].
  - left. exact Hp.
  - right. unfold freshPedestrian. cbn [id age progress speed].
    repeat split; eauto. lia.
Qed.

Lemma spawnBatchLoop_state (m : nat) (g : Grid) (n : Z) :
  forall (s : PedestrianSystemState) (spawned : Z),
    let s' := snd (spawnLoop m g n s spawned) in
    pedestrianId s <= pedestrianId s' /\
    cachedRoadTileCount s' = cachedRoadTileCount s /\
    forall p, In p (pedestrians s') ->
              In p (pedestrians s) \/ freshPedestrian (pedestrianId s) p.
Proof.
  induction m as [|m IH]; intros s spawned; cbn.
  - repeat split; auto. lia.
  - pose proof (spawnPedestrian_state g n s) as H1. fold spawn.
    destruct (spawn g n s) as [ok s1]. cbn [snd] in H1.
    destruct H1 as (Hid & Hc & _ & Hp).
    specialize (IH s1 (if ok then spawned + 1 else spawned)).
    fold spawnLoop. cbn zeta in IH.
    destruct IH as (Hid' & Hc' & Hp').
    repeat split; [lia | congruence |].
    intros p Hin. destruct (Hp' p Hin) as [H | H].
    + apply Hp. exact H.
    + right. unfold freshPedestrian in *. destruct H as (Hlo & Hrest).
      split; [lia | exact Hrest].
Qed.

Definition zoomedOut (w : WorldRenderState) : Prop :=
  (zoom w < minZoomForPedestrians isMobile PEDESTRIAN_MIN_ZOOM)%Q.

Lemma updatePedestrians_cleared (w : WorldRenderState) (v : Z) (d : Q)
    (s : PedestrianSystemState) :
  zoomedOut w \/ grid w = None \/ gridSize w <= 0 ->
  update w v d s = cleared s.
Proof.
  intros H. unfold update, updatePedestrians.
  destruct (Qltb (zoom w) _) eqn:Ez; [reflexivity|].
  destruct H as [H | H].
  - apply Qltb_lt in H. unfold zoomedOut in H. congruence.
  - destruct (grid w) as [g|]; [|reflexivity].
    destruct H as [H|H]; [discriminate|].
    apply Z.leb_le in H. rewrite H. reflexivity.
Qed.

Lemma updatePedestrians_cases (w : WorldRenderState) :
  (zoomedOut w \/ grid w = None \/ gridSize w <= 0) \/
  (~ zoomedOut w /\ gridPresent w).
Proof.
  unfold zoomedOut, gridPresent.
  destruct (Qlt_le_dec (zoom w) (minZoomForPedestrians isMobile PEDESTRIAN_MIN_ZOOM))
    as [Hz | Hz]; [left; left; exact Hz|].
  destruct (grid w) as [g|]; [|left; right; left; reflexivity].
  destruct (Z_le_gt_dec (gridSize w) 0); [left; right; right; assumption|].
  right. split; [apply Qle_not_lt; exact Hz|].
  exists g. split; [reflexivity | lia].
Qed.

(** Every pedestrian in the live set after an update is the loop body's
    result on a pedestrian that was live before or was pushed in this
    call; the identifier counter does not go down. *)
Lemma updatePedestrians_kept (w : WorldRenderState) (v : Z) (d : Q)
    (s : PedestrianSystemState) :
  pedestrianId s <= pedestrianId (update w v d s) /\
  forall p', In p' (pedestrians (update w v d s)) ->
    exists g p,
      grid w = Some g /\
      stepP g (gridSize w) (speedMultiplier (currentSpeed w)) d p = Some p' /\
      (In p (pedestrians s) \/ freshPedestrian (pedestrianId s) p).
Proof.
  destruct (updatePedestrians_cases w) as [Hc | [Hz (g & Hg & Hn)]].
  - rewrite (updatePedestrians_cleared _ _ _ _ Hc). cbn.
    split; [lia | contradiction].
  - unfold update, updatePedestrians.
    destruct (Qltb (zoom w) _) eqn:Ez;
      [apply Qltb_lt in Ez; contradiction|].
    rewrite Hg. apply Z.leb_gt in Hn. rewrite Hn.
    destruct (roadTileCountStep g (gridSize w) v (cachedRoadTileCount s))
      as [roadTileCount cache].
    set (s1 := mkPedestrianSystemState (pedestrians s) (pedestrianId s)
                 (pedestrianSpawnTimer s - d)%Q cache (rng s)).
    cbn [pedestrians pedestrianId].
    match goal with
    | |- context [if ?c then ?a else s1] => set (s2 := if c then a else s1)
    end.
    assert (H2 : pedestrianId s <= pedestrianId s2 /\
                 forall p, In p (pedestrians s2) ->
                           In p (pedestrians s) \/ freshPedestrian (pedestrianId s) p).
    { subst s2. destruct (_ && _).
      - pose proof (spawnBatchLoop_state (Z.to_nat (spawnBatch isMobile roadTileCount))
                      g (gridSize w) s1 0) as H.
        fold spawnLoop.
        destruct (spawnLoop _ g (gridSize w) s1 0) as [cnt s'].
        cbn [snd] in H. cbn [pedestrians pedestrianId].
        destruct H as (Hid & _ & Hp). split; [exact Hid | exact Hp].
      - subst s1. cbn. split; [lia | auto]. }
    destruct H2 as [Hid Hp]. split; [exact Hid|].
    intros p' Hin. apply in_flat_map in Hin. destruct Hin as (p & Hp0 & Hin).
    fold stepP in Hin.
    destruct (stepP g (gridSize w) (speedMultiplier (currentSpeed w)) d p)
      as [q|] eqn:Es; [|contradiction].
    destruct Hin as [<- | []].
    exists g, p. repeat split; auto.
Qed.




End PedestrianRuns.

(** ** Bounded age *)


(** *** A concrete world *)

Definition zeroOracle : nat -> Q := fun _ => 0%Q.
Definition sampleColors : list string := ["#ef4444"; "#3b82f6"]%string.

Definition runningCross : WorldRenderState := mkWorld (Some crossGrid) 3 1 1.

(** A car standing on the centre tile of [crossGrid]. *)
Definition carAt (ident x y : Z) (prog spd age maxAge : Q) : Car :=
  mkCar ident x y south prog spd age maxAge "#ef4444" 4.

Definition exampleUpdateCars :=
  updateCars zeroOracle directionStep getDirectionOptionsSpec
    (Pathfinding.pickNextDirection zeroOracle) sampleColors.




(** ** Progress normalization *)

Section CarProgress.

Variable rand : nat -> Q.
Variable DIRECTION_META_step : CarDirection -> Z * Z.
Variable getDirectionOptions : Grid -> Z -> Z -> Z -> list CarDirection.
Variable pickNextDirection :
  CarDirection -> Grid -> Z -> Z -> Z -> Rand (option CarDirection).
Variable CAR_COLORS : list string.



(** While the multiplier is 0 a car below a full cell of progress is
    kept where it is: only its age changes. *)
Lemma stepCar_paused (g : Grid) (n : Z) (delta : Q) (car car' : Car) (k : nat) :
  (car_progress car < 1)%Q ->
  fst (stepCar DIRECTION_META_step pickNextDirection g n 0 delta car k) = Some car' ->
  car_id car' = car_id car /\
  car_tileX car' = car_tileX car /\ car_tileY car' = car_tileY car /\
  car_direction car' = car_direction car /\
  (car_progress car' == car_progress car)%Q /\
  car_age car' = (car_age car + delta)%Q /\
  (car_age car' <= car_maxAge car')%Q.
Proof.
  intros H1 H.
  pose proof (stepCar_kept _ _ _ _ _ _ _ _ _ H) as (_ & _ & _ & _ & Hage & _).
  revert H. unfold stepCar.
  destruct (Qgtb _ _); [discriminate|].
  destruct (negb _); [discriminate|].
  cbn [moveCar car_progress].
  assert (E : Qgeb (car_progress car + car_speed car * delta * 0) 1 = false).
  { apply Qgeb_false_lt. lra. }
  rewrite E. cbn. intro H. injection H as <-. cbn in *.
  repeat split; try reflexivity; [ring | exact Hage].
Qed.

End CarProgress.



(** *** A straight road *)

Definition grassRow : list Tile := [G; G; G; G; G; G].

(** A 6 x 6 grid whose tiles [(0,0) .. (5,0)] are road. *)
Definition roadRow : Grid :=
  [ [R; R; R; R; R; R]; grassRow; grassRow; grassRow; grassRow; grassRow ].

Definition runningRow : WorldRenderState := mkWorld (Some roadRow) 6 1 1.

Lemma zeroOracle_unit : unitOracle zeroOracle.
Proof. intro k. split; [apply Qle_refl | reflexivity]. Qed.



(** ** Paused cars *)










(** ** No reversal *)

Lemma stepTrain_no_reversal rand step options (g : Grid) (n : Z) (d : Q)
    (t t' : RoamingTrains.Train) (k : nat) :
  unitOracle rand ->
  fst (RoamingTrains.stepTrain rand step options g n d t k) = Some t' ->
  RoamingTrains.direction t' = getOppositeDirection (RoamingTrains.direction t) ->
  options g n (RoamingTrains.tileX t') (RoamingTrains.tileY t') <> [] /\
  forall o, In o (options g n (RoamingTrains.tileX t') (RoamingTrains.tileY t')) ->
            o = getOppositeDirection (RoamingTrains.direction t).
Proof.
  intros Hrand. unfold RoamingTrains.stepTrain.
  cbn [RoamingTrains.age RoamingTrains.maxAge RoamingTrains.tileX RoamingTrains.tileY
       RoamingTrains.setAge].
  destruct (Qgeb _ _); [discriminate|].
  destruct (negb _).
  - destruct (RoamingTrains.findNearbyRail _ _ _ _) as [[nx ny]|]; [|discriminate].
    cbn. intro H. injection H as <-. cbn. intro E.
    exfalso. exact (opposite_differs _ (eq_sym E)).
  - cbn [RoamingTrains.progress RoamingTrains.speed RoamingTrains.setProgress
         RoamingTrains.setAge].
    destruct (Qgeb _ 1).
    + unfold bind, ret.
      match goal with
      | |- context [RoamingTrains.crossBoundary rand step options g n ?t0 k] =>
          pose proof (crossBoundary_no_reversal rand step options g n t0 k Hrand) as Hc;
          destruct (RoamingTrains.crossBoundary rand step options g n t0 k) as [t1 k1]
      end.
      cbn in Hc. cbn. intro H. injection H as <-. exact Hc.
    + cbn. intro H. injection H as <-. cbn. intro E.
      exfalso. exact (opposite_differs _ (eq_sym E)).
Qed.

Lemma pickNextDirection_no_reversal rand (previous d : CarDirection)
    (g : Grid) (n x y : Z) (k : nat) :
  unitOracle rand ->
  fst (Pathfinding.pickNextDirection rand previous g n x y k) = Some d ->
  d = getOppositeDirection previous ->
  forall o, In o (getDirectionOptionsSpec g n x y) -> o = getOppositeDirection previous.
Proof.
  intros Hrand. unfold Pathfinding.pickNextDirection.
  destruct (getDirectionOptionsSpec g n x y) as [|first others] eqn:Eo;
    [discriminate|].
  set (incoming := getOppositeDirection previous).
  destruct (filter (fun dir => negb (CarDirection_eqb dir incoming)) (first :: others))
    as [|f1 fl] eqn:Ef.
  - intros _ _ o Ho. apply (filter_not_nil incoming (first :: others)); assumption.
  - cbv beta iota.
    assert (Hne : f1 :: fl <> []) by discriminate.
    revert Hne Ef. generalize (f1 :: fl). intros pool Hne Ef.
    cbn [fst]. intro H. injection H as <-. intro E. exfalso.
    apply (filter_not_In incoming _ (first :: others)) in E; [exact E|].
    rewrite Ef. apply pick_In; try apply Hrand. exact Hne.
Qed.

(** C5: at a cell boundary a free-roaming train never takes the opposite
    of its direction of travel unless that is the only option of the tile
    it is on; a car takes the direction [pickNextDirection] chooses for the
    tile it enters, which is the opposite of its direction of travel only
    when that tile has no other option. *)
Theorem no_reversal_at_cell_boundary :
  (forall rand step options (g : Grid) (n : Z) (deltaTime : Q)
          (t t' : RoamingTrains.Train) (k : nat),
     unitOracle rand ->
     fst (RoamingTrains.stepTrain rand step options g n deltaTime t k) = Some t' ->
     RoamingTrains.direction t' = getOppositeDirection (RoamingTrains.direction t) ->
     options g n (RoamingTrains.tileX t') (RoamingTrains.tileY t') <> [] /\
     forall o, In o (options g n (RoamingTrains.tileX t') (RoamingTrains.tileY t')) ->
               o = getOppositeDirection (RoamingTrains.direction t)) /\
  (forall rand step (g : Grid) (n : Z) (car car' : Car) (k : nat),
     unitOracle rand ->
     fst (moveCar step (Pathfinding.pickNextDirection rand) 1 g n car k) = Some car' ->
     car_direction car' = getOppositeDirection (car_direction car) ->
     getDirectionOptionsSpec g n (car_tileX car') (car_tileY car') <> [] /\
     forall o, In o (getDirectionOptionsSpec g n (car_tileX car') (car_tileY car')) ->
               o = getOppositeDirection (car_direction car)).
Proof.
  split.
  - intros. eapply stepTrain_no_reversal; eauto.
  - intros rand step g n car car' k Hrand. cbn [moveCar].
    destruct (Qgeb (car_progress car) 1).
    2:{ cbn. intro H. injection H as <-. intro E.
        exfalso. exact (opposite_differs _ (eq_sym E)). }
    destruct (step (car_direction car)) as [sx sy].
    destruct (negb _); [discriminate|].
    unfold bind.
    destruct (Pathfinding.pickNextDirection rand (car_direction car) g n
                (car_tileX car + sx) (car_tileY car + sy) k) as [[d|] k1] eqn:Ep;
      [|discriminate].
    cbn [moveCar ret fst]. intro H. injection H as <-.
    cbn [car_direction car_tileX car_tileY]. intro E.
    assert (Hp : fst (Pathfinding.pickNextDirection rand (car_direction car) g n
                        (car_tileX car + sx) (car_tileY car + sy) k) = Some d)
      by (rewrite Ep; reflexivity).
    split.
    + unfold Pathfinding.pickNextDirection in Hp.
      destruct (getDirectionOptionsSpec g n (car_tileX car + sx) (car_tileY car + sy));
        [cbn in Hp; discriminate Hp | discriminate].
    + exact (pickNextDirection_no_reversal rand _ _ g n _ _ k Hrand Hp E).
Qed.

(** ** Stranded agents *)

Lemma NoDup_map_unique {A} (f : A -> Z) (l : list A) (x y : A) :
  NoDup (map f l) -> In x l -> In y l -> f x = f y -> x = y.
Proof.
  induction l as [|a l IH]; intros Hnd Hx Hy Hf; [contradiction|].
  cbn in Hnd. apply NoDup_cons_iff in Hnd. destruct Hnd as [Hnotin Hnd].
  destruct Hx as [-> | Hx], Hy as [-> | Hy]; auto.
  - exfalso. apply Hnotin. rewrite Hf. apply in_map. exact Hy.
  - exfalso. apply Hnotin. rewrite <- Hf. apply in_map. exact Hx.
Qed.

(** Where the free-roaming train manager puts a train that is off the
    rails: on the first rail tile of the 5 x 5 scan around it. *)
Lemma stepTrain_off_rail rand step options (g : Grid) (n : Z) (d : Q)
    (t : RoamingTrains.Train) (k : nat) :
  (RoamingTrains.age t + d < RoamingTrains.maxAge t)%Q ->
  isRailTile g n (RoamingTrains.tileX t) (RoamingTrains.tileY t) = false ->
  fst (RoamingTrains.stepTrain rand step options g n d t k) =
    match RoamingTrains.findNearbyRail g n (RoamingTrains.tileX t) (RoamingTrains.tileY t)
    with
    | Some (nx, ny) =>
        Some (RoamingTrains.setTile
                (RoamingTrains.setAge t (RoamingTrains.age t + d)%Q) nx ny)
    | None => None
    end.
Proof.
  intros Hage Hrail. unfold RoamingTrains.stepTrain.
  cbn [RoamingTrains.age RoamingTrains.maxAge RoamingTrains.tileX RoamingTrains.tileY
       RoamingTrains.setAge].
  apply Qgeb_false_lt in Hage. rewrite Hage, Hrail. cbn [negb].
  destruct (RoamingTrains.findNearbyRail _ _ _ _) as [[nx ny]|]; reflexivity.
Qed.

(** C7, as the managers implement it.  A car or a pedestrian whose tile is
    no road when the call begins is despawned, whatever lies next to it;
    every car left after the call is on a road tile.  A free-roaming train
    that is off the rails is put on the first rail tile that the scan of
    the 5 x 5 neighbourhood meets (each coordinate at most 2 away), and is
    despawned when that neighbourhood has no rail tile; every train left
    after the call is on a rail tile. *)
Theorem stranded_agents_repaired_or_culled :
  (forall rand step options pick colors (w : WorldRenderState) (delta : Q)
          (s : CarSystemState),
     let s' := updateCars rand step options pick colors w delta s in
     (forall g c, grid w = Some g -> In c (cars s') ->
                  isRoadTile g (gridSize w) (car_tileX c) (car_tileY c) = true) /\
     (forall c0,
        NoDup (map car_id (cars s)) ->
        Forall (fun c => car_id c < carId s) (cars s) ->
        In c0 (cars s) ->
        (forall g, grid w = Some g ->
                   isRoadTile g (gridSize w) (car_tileX c0) (car_tileY c0) = false) ->
        forall c, In c (cars s') -> car_id c <> car_id c0)) /\
  (forall rand isMobile pi minZoom skins shirts findPath dirTo homes dests
          (w : WorldRenderState) (v : Z) (delta : Q)
          (s : Pedestrians.PedestrianSystemState) (p0 : Pedestrians.Pedestrian),
     NoDup (map Pedestrians.id (Pedestrians.pedestrians s)) ->
     Forall (fun p => Pedestrians.id p < Pedestrians.pedestrianId s)
            (Pedestrians.pedestrians s) ->
     In p0 (Pedestrians.pedestrians s) ->
     (forall g, grid w = Some g ->
                isRoadTile g (gridSize w) (Pedestrians.tileX p0) (Pedestrians.tileY p0)
                = false) ->
     forall p,
       In p (Pedestrians.pedestrians
               (Pedestrians.updatePedestrians rand isMobile pi minZoom skins shirts
                  findPath dirTo homes dests w v delta s)) ->
       Pedestrians.id p <> Pedestrians.id p0) /\
  (forall rand isMobile step options (w : WorldRenderState) (g : Grid) (v : Z)
          (deltaTime : Q) (s : RoamingTrains.TrainSystemState),
     grid w = Some g -> 0 < gridSize w ->
     let s' := RoamingTrains.updateTrains rand isMobile step options w v deltaTime s in
     (forall t, In t (RoamingTrains.trains s') ->
                isRailTile g (gridSize w) (RoamingTrains.tileX t) (RoamingTrains.tileY t)
                = true) /\
     (forall t0,
        NoDup (map RoamingTrains.id (RoamingTrains.trains s)) ->
        Forall (fun t => RoamingTrains.id t < RoamingTrains.trainId s)
               (RoamingTrains.trains s) ->
        In t0 (RoamingTrains.trains s) ->
        (RoamingTrains.age t0 + deltaTime < RoamingTrains.maxAge t0)%Q ->
        isRailTile g (gridSize w) (RoamingTrains.tileX t0) (RoamingTrains.tileY t0)
        = false ->
        match RoamingTrains.findNearbyRail g (gridSize w)
                (RoamingTrains.tileX t0) (RoamingTrains.tileY t0) with
        | Some (nx, ny) =>
            In (RoamingTrains.setTile
                  (RoamingTrains.setAge t0 (RoamingTrains.age t0 + deltaTime)%Q) nx ny)
               (RoamingTrains.trains s') /\
            isRailTile g (gridSize w) nx ny = true /\
            -2 <= nx - RoamingTrains.tileX t0 <= 2 /\
            -2 <= ny - RoamingTrains.tileY t0 <= 2
        | None =>
            (forall t, In t (RoamingTrains.trains s') ->
                       RoamingTrains.id t <> RoamingTrains.id t0) /\
            (forall dx dy, -2 <= dx <= 2 -> -2 <= dy <= 2 ->
               isRailTile g (gridSize w)
                 (RoamingTrains.tileX t0 + dx) (RoamingTrains.tileY t0 + dy) = false)
        end)).
Proof.
  split; [|split].
  - intros rand step options pick colors w delta s s'. split.
    + intros g c Hg Hc.
      destruct (updateCars_kept _ _ _ _ _ _ _ _ _ Hc) as (g' & c1 & k & Hg' & _ & Hf & _).
      apply stepCar_kept in Hf. destruct Hf as (_ & _ & _ & _ & _ & _ & Hroad).
      assert (g' = g) as -> by congruence. exact Hroad.
    + intros c0 Hnd Hlt Hin Hoff c Hc Hid.
      destruct (updateCars_kept _ _ _ _ _ _ _ _ _ Hc) as (g & c1 & k & Hg & _ & Hf & Hsrc).
      apply stepCar_kept in Hf. destruct Hf as (Hi & _ & _ & _ & _ & Hroad & _).
      destruct Hsrc as [Hin1 | (Hnew & _)].
      * assert (c1 = c0) as ->
          by (apply (NoDup_map_unique car_id (cars s)); congruence).
        rewrite (Hoff g Hg) in Hroad. discriminate.
      * rewrite Forall_forall in Hlt. specialize (Hlt c0 Hin). lia.
  - intros rand isMobile pi minZoom skins shirts findPath dirTo homes dests
           w v delta s p0 Hnd Hlt Hin Hoff p Hp Hid.
    destruct (updatePedestrians_kept rand isMobile pi minZoom skins shirts findPath
                dirTo homes dests w v delta s) as [_ Hkept].
    destruct (Hkept p Hp) as (g & p1 & Hg & Hf & Hsrc).
    apply stepPedestrian_kept in Hf. destruct Hf as (Hi & _ & _ & _ & _ & Hroad).
    destruct Hsrc as [Hin1 | (Hnew & _)].
    + assert (p1 = p0) as ->
        by (apply (NoDup_map_unique Pedestrians.id (Pedestrians.pedestrians s));
            congruence).
      rewrite (Hoff g Hg) in Hroad. discriminate.
    + rewrite Forall_forall in Hlt. specialize (Hlt p0 Hin). lia.
  - intros rand isMobile step options w g v d s Hg Hn s'.
    destruct (updateTrains_present rand isMobile step options w g v d s Hg Hn)
      as [_ Hcases].
    fold s' in Hcases.
    set (kept := fst (forEachAgent (RoamingTrains.stepTrain rand step options g
                                      (gridSize w) d)
                        (RoamingTrains.trains s) (RoamingTrains.rng s))) in *.
    assert (Hsub : forall t, In t kept -> In t (RoamingTrains.trains s')).
    { intros t Ht. destruct Hcases as [[-> _] | (t1 & -> & _)];
        [exact Ht | apply in_or_app; left; exact Ht]. }
    assert (Hfrom : forall t, In t (RoamingTrains.trains s') ->
                      In t kept \/
                      freshTrain rand g (gridSize w) (RoamingTrains.trainId s) t).
    { intros t Ht. destruct Hcases as [[E _] | (t1 & E & _ & Hfresh & _)];
        rewrite E in Ht; [left; exact Ht|].
      apply in_app_or in Ht. destruct Ht as [Ht | [<- | []]];
        [left; exact Ht | right; exact Hfresh]. }
    split.
    + intros t Ht. destruct (Hfrom t Ht) as [Hk | Hfresh].
      * apply forEachAgent_In in Hk. destruct Hk as (t1 & k & _ & Hf).
        apply stepTrain_kept in Hf.
        destruct Hf as (_ & _ & _ & _ & _ & Hrail). exact Hrail.
      * destruct Hfresh as (_ & Hrail & _). exact Hrail.
    + intros t0 Hnd Hlt Hin Hage Hoff.
      pose proof (fun k => stepTrain_off_rail rand step options g (gridSize w) d t0 k
                             Hage Hoff) as Hstep.
      destruct (RoamingTrains.findNearbyRail g (gridSize w) (RoamingTrains.tileX t0)
                  (RoamingTrains.tileY t0)) as [[nx ny]|] eqn:Ef.
      * split.
        -- apply Hsub. apply (forEachAgent_keeps _ _ t0); assumption.
        -- apply findNearbyRail_some. exact Ef.
      * split.
        -- intros t Ht Hid. destruct (Hfrom t Ht) as [Hk | (Hnew & _)].
           ++ apply forEachAgent_In in Hk. destruct Hk as (t1 & k & Hin1 & Hf).
              pose proof (stepTrain_kept _ _ _ _ _ _ _ _ _ Hf) as (Hi & _).
              assert (t1 = t0) as ->
                by (apply (NoDup_map_unique RoamingTrains.id (RoamingTrains.trains s));
                    congruence).
              rewrite Hstep in Hf. discriminate.
           ++ rewrite Forall_forall in Hlt. specialize (Hlt t0 Hin). lia.
        -- apply findNearbyRail_none. exact Ef.
Qed.

(** *** Example rails *)

(** A 6 x 6 grid whose tiles [(0,0) .. (5,0)] are rail. *)
Definition railRow : Grid :=
  [ [L; L; L; L; L; L]; grassRow; grassRow; grassRow; grassRow; grassRow ].

(** A 5 x 5 grid with rail on the tiles [(0,0)] and [(3,2)] only. *)
Definition railSpots : Grid :=
  [ [L; G; G; G; G];
    [G; G; G; G; G];
    [G; G; G; L; G];
    [G; G; G; G; G];
    [G; G; G; G; G] ].

Definition trainAt (ident x y : Z) (d : CarDirection) (prog spd age maxAge : Q)
  : RoamingTrains.Train :=
  RoamingTrains.mkTrain ident x y d prog spd age maxAge RoamingTrains.passenger 2
    "#dc2626" 6.

Definition exampleUpdateTrains :=
  RoamingTrains.updateTrains zeroOracle false directionStep getRailDirectionOptionsSpec.

Lemma no_reversal_at_cell_boundary_witness :
  getRailDirectionOptionsSpec railRow 6 5 0 <> [] /\
  forall o, In o (getRailDirectionOptionsSpec railRow 6 5 0) -> o = north.
Proof.
  destruct no_reversal_at_cell_boundary as [Htrain _].
  apply (Htrain zeroOracle directionStep getRailDirectionOptionsSpec railRow 6 1%Q
           (trainAt 0 4 0 south (9 # 10) (1 # 5) 0 100)
           (trainAt 0 5 0 north 0 (1 # 5) (0 + 1) 100) 0%nat).
  - exact zeroOracle_unit.
  - vm_compute. reflexivity.
  - reflexivity.
Defined.

Lemma stranded_agents_repaired_or_culled_witness :
  Forall (fun c => car_id c <> 0)
    (cars (exampleUpdateCars runningCross (1 # 10)
             (mkCarSystemState [carAt 0 0 0 0 (2 # 5) 0 1800] 1 5000 0))).
Proof.
  apply Forall_forall.
  destruct stranded_agents_repaired_or_culled as (Hcars & _ & _).
  destruct (Hcars zeroOracle directionStep getDirectionOptionsSpec
              (Pathfinding.pickNextDirection zeroOracle) sampleColors runningCross
              (1 # 10) (mkCarSystemState [carAt 0 0 0 0 (2 # 5) 0 1800] 1 5000 0))
    as [_ Hculled].
  apply (Hculled (carAt 0 0 0 0 (2 # 5) 0 1800)).
  - cbn. constructor; [intros [] | constructor].
  - constructor; [cbn; lia | constructor].
  - left. reflexivity.
  - intros g Hg. injection Hg as <-. reflexivity.
Defined.

(** C7 as stated fails twice.  A car standing on the grass tile [(0,0)] of
    [crossGrid], right next to the road tile [(1,0)], is despawned and not
    moved to that tile.  A free-roaming train stranded on tile [(2,2)] of
    [railSpots] is moved to the rail tile [(0,0)], the first of the scan,
    although the rail tile [(3,2)] is next to it. *)
Lemma stranded_agent_not_moved_to_nearest :
  (isRoadTile crossGrid 3 0 0 = false /\ isRoadTile crossGrid 3 1 0 = true /\
   cars (exampleUpdateCars runningCross (1 # 10)
           (mkCarSystemState [carAt 0 0 0 0 (2 # 5) 0 1800] 1 5000 0)) = []) /\
  (isRailTile railSpots 5 2 2 = false /\ isRailTile railSpots 5 3 2 = true /\
   exists t,
     RoamingTrains.trains
       (exampleUpdateTrains (mkWorld (Some railSpots) 5 1 1) 0 (1 # 10)
          (RoamingTrains.mkTrainSystemState
             [trainAt 0 2 2 south (1 # 2) (1 # 5) 0 20] 1 0 (mkCache 0 (-1)) 0)) = [t] /\
     RoamingTrains.id t = 0 /\
     (RoamingTrains.tileX t, RoamingTrains.tileY t) = (0, 0)).
Proof.
  split.
  - repeat split.
  - split; [reflexivity | split; [reflexivity|]].
    eexists. split; [vm_compute; reflexivity|]. split; reflexivity.
Qed.

(** ** No grid *)

(** C8, as the managers implement it.  When the grid is absent or
    [gridSize <= 0], no manager spawns or moves anything: the car, the
    pedestrian and the path-following train manager return with an empty
    live set and everything else as it was; the free-roaming train manager
    and the airplane manager return with their state, live set included,
    as it was. *)
Theorem update_without_grid :
  forall w : WorldRenderState,
    grid w = None \/ gridSize w <= 0 ->
    (forall rand step options pick colors delta (s : CarSystemState),
       updateCars rand step options pick colors w delta s
       = mkCarSystemState [] (carId s) (carSpawnTimer s) (car_rng s)) /\
    (forall rand isMobile pi minZoom skins shirts findPath dirTo homes dests v delta
            (s : Pedestrians.PedestrianSystemState),
       Pedestrians.updatePedestrians rand isMobile pi minZoom skins shirts findPath
         dirTo homes dests w v delta s
       = Pedestrians.mkPedestrianSystemState [] (Pedestrians.pedestrianId s)
           (Pedestrians.pedestrianSpawnTimer s) (Pedestrians.cachedRoadTileCount s)
           (Pedestrians.rng s)) /\
    (forall rand isMobile minZoom colors findPath dirTo stations budget v delta
            (s : PathTrains.TrainSystemState),
       PathTrains.updateTrains rand isMobile minZoom colors findPath dirTo stations
         budget w v delta s
       = Some (PathTrains.mkTrainSystemState [] (PathTrains.trainId s)
                 (PathTrains.trainSpawnTimer s) (PathTrains.cachedRailTileCount s)
                 (PathTrains.rng s))) /\
    (forall rand isMobile step options v deltaTime (s : RoamingTrains.TrainSystemState),
       RoamingTrains.updateTrains rand isMobile step options w v deltaTime s = s) /\
    (forall rand isMobile cos sin atan2 hypot pi tileW tileH minPopulation colors
            contrailAge contrailInterval toScreen airports v delta
            (s : Aircraft.AircraftState),
       Aircraft.updateAirplanes rand isMobile cos sin atan2 hypot pi tileW tileH
         minPopulation colors contrailAge contrailInterval toScreen airports
         w v delta s = s).
Proof.
  intros w Hw.
  assert (Hguard : grid w = None \/
                   exists g, grid w = Some g /\ (gridSize w <=? 0) = true).
  { destruct (grid w) as [g|]; [|left; reflexivity].
    destruct Hw as [Hw | Hw]; [discriminate|].
    right. exists g. split; [reflexivity | apply Z.leb_le; exact Hw]. }
  repeat split.
  - intros. apply updateCars_absent. exact Hw.
  - intros. rewrite updatePedestrians_cleared by (right; exact Hw). reflexivity.
  - intros. unfold PathTrains.updateTrains, PathTrains.cleared.
    destruct (Qltb (zoom w) _); [reflexivity|].
    destruct Hguard as [-> | (g & -> & ->)]; reflexivity.
  - intros. apply updateTrains_absent. exact Hw.
  - intros. unfold Aircraft.updateAirplanes.
    destruct Hguard as [-> | (g & -> & ->)]; reflexivity.
Qed.

Definition noGrid : WorldRenderState := mkWorld None 0 1 1.

Lemma update_without_grid_witness :
  cars (exampleUpdateCars noGrid (1 # 10)
          (mkCarSystemState [carAt 0 1 1 0 (2 # 5) 0 1800] 1 0 0)) = [].
Proof.
  destruct (update_without_grid noGrid) as (Hcars & _).
  - left. reflexivity.
  - unfold exampleUpdateCars. rewrite Hcars. reflexivity.
Defined.

Definition examplePlane : Aircraft.Airplane :=
  Aircraft.mkAirplane 0 10 10 0 Aircraft.flying 100 1 1 2 2 0 [] 30 "#ffffff".

(** C8 as stated fails for the managers that return at once: with no grid
    loaded the free-roaming train manager and the airplane manager leave
    their live sets as they were instead of clearing them. *)
Lemma live_set_kept_without_grid :
  RoamingTrains.trains
    (exampleUpdateTrains noGrid 0 (1 # 10)
       (RoamingTrains.mkTrainSystemState
          [trainAt 0 2 2 south (1 # 2) (1 # 5) 0 20] 1 0 (mkCache 0 (-1)) 0))
  = [trainAt 0 2 2 south (1 # 2) (1 # 5) 0 20] /\
  Aircraft.airplanes
    (Aircraft.updateAirplanes zeroOracle false (fun _ => 0%Q) (fun _ => 0%Q)
       (fun _ _ => 0%Q) (fun _ _ => 0%Q) (22 # 7) 64 32 5000 sampleColors 2 (1 # 10)
       (fun _ _ _ _ => (0%Q, 0%Q)) (fun _ _ => []) noGrid 0 (1 # 10)
       (Aircraft.mkAircraftState [examplePlane] 1 0 (mkCache 0 (-1)) 0))
  = [examplePlane].
Proof.
  split; reflexivity.
Qed.

(** ** Caches keyed by the grid version *)










(** ** Path validity *)

Section BreadthFirstSearch.

Import Pathfinding.

Variable ok : Coord -> bool.
Variable start goal : Coord.
Hypothesis start_ok : ok start = true.

Lemma Coord_eqb_eq (a b : Coord) : Coord_eqb a b = true <-> a = b.
Proof.
  unfold Coord_eqb. destruct a as [ax ay], b as [bx b_y]. cbn.
  rewrite andb_true_iff, !Z.eqb_eq. split.
  - intros [-> ->]. reflexivity.
  - intro H. injection H as -> ->. split; reflexivity.
Qed.

Lemma visitedHas_In (visited : list Coord) (c : Coord) :
  visitedHas visited c = true <-> In c visited.
Proof.
  unfold visitedHas. rewrite existsb_exists. split.
  - intros (x & Hx & E). apply Coord_eqb_eq in E. subst. exact Hx.
  - intro H. exists c. split; [exact H | apply Coord_eqb_eq; reflexivity].
Qed.

(** A walk can be extended at its end. *)
Lemma walk_snoc (l : list Coord) (a b : Coord) :
  walk ok (l ++ [a]) -> adjacent a b -> ok b = true -> walk ok (l ++ [a; b]).
Proof.
  revert a b. induction l as [|x l IH]; intros a b Hw Hadj Hb; cbn in *.
  - inversion Hw; subst.
    apply walk_cons; [assumption | exact Hadj | apply walk_one; exact Hb].
  - destruct l as [|y l].
    + cbn in *. inversion Hw; subst.
      apply walk_cons; [assumption | assumption |].
      apply (IH a b); assumption.
    + cbn in *. inversion Hw; subst.
      apply walk_cons; [assumption | assumption |].
      apply (IH a b); assumption.
Qed.

(** A queue entry is a walk from the start, read backwards. *)
Definition goodEntry (e : Entry) : Prop :=
  walk ok (rev e) /\ hd_error (rev e) = Some start.

Lemma goodEntry_extend (current n : Coord) (before : list Coord) :
  goodEntry (current :: before) -> adjacent current n -> ok n = true ->
  goodEntry (n :: current :: before).
Proof.
  intros [Hw Hh] Hadj Hn. unfold goodEntry. cbn [rev] in *. split.
  - rewrite <- app_assoc. cbn. apply walk_snoc; assumption.
  - rewrite <- app_assoc.
    destruct (rev before) as [|x l]; cbn in *; exact Hh.
Qed.

(** What one expansion adds to the visited set and to the queue. *)
Lemma expand_spec (walked : Entry) (candidates : list Coord) :
  forall (visited visited' : list Coord) (entries : list Entry),
    expand ok candidates walked visited = (visited', entries) ->
    NoDup visited ->
    NoDup visited' /\
    length visited' = (length visited + length entries)%nat /\
    (forall v, In v visited -> In v visited') /\
    (forall n, In n candidates -> ok n = true -> In n visited') /\
    (forall e, In e entries ->
               exists n, e = n :: walked /\ In n candidates /\ ok n = true /\
                         In n visited') /\
    (forall v, In v visited' ->
               In v visited \/ exists e, In e entries /\ hd_error e = Some v).
Proof.
  induction candidates as [|c rest IH]; intros visited visited' entries H Hnd;
    cbn [expand] in H.
  - injection H as <- <-. repeat split; auto; try contradiction.
  - destruct (ok c) eqn:Eok; cbn [andb] in H.
    + destruct (visitedHas visited c) eqn:Evis; cbn [negb] in H.
      * apply visitedHas_In in Evis.
        destruct (IH _ _ _ H Hnd) as (H1 & H2 & H3 & H4 & H5 & H6).
        repeat split; auto.
        -- intros n [<- | Hn] Hokn; [apply H3; exact Evis | apply H4; assumption].
        -- intros e He. destruct (H5 e He) as (n & -> & Hn & Hokn & Hv).
           exists n. repeat split; auto. right. exact Hn.
      * destruct (expand ok rest walked (c :: visited)) as [v1 e1] eqn:E.
        injection H as <- <-.
        assert (Hnot : ~ In c visited).
        { intro Hin. apply visitedHas_In in Hin. congruence. }
        assert (Hnd' : NoDup (c :: visited)) by (constructor; assumption).
        destruct (IH _ _ _ E Hnd') as (H1 & H2 & H3 & H4 & H5 & H6).
        repeat split.
        -- exact H1.
        -- rewrite H2. cbn. lia.
        -- intros v Hv. apply H3. right. exact Hv.
        -- intros n [<- | Hn] Hokn; [apply H3; left; reflexivity | apply H4; assumption].
        -- intros e [<- | He].
           ++ exists c. repeat split; auto; [left; reflexivity | apply H3; left; reflexivity].
           ++ destruct (H5 e He) as (n & -> & Hn & Hokn & Hv).
              exists n. repeat split; auto. right. exact Hn.
        -- intros v Hv. destruct (H6 v Hv) as [[<- | Hin] | (e & He & Hh)].
           ++ right. exists (c :: walked). split; [left; reflexivity | reflexivity].
           ++ left. exact Hin.
           ++ right. exists e. split; [right; exact He | exact Hh].
    + destruct (IH _ _ _ H Hnd) as (H1 & H2 & H3 & H4 & H5 & H6).
      repeat split; auto.
      * intros n [<- | Hn] Hokn; [congruence | apply H4; assumption].
      * intros e He. destruct (H5 e He) as (n & -> & Hn & Hokn & Hv).
        exists n. repeat split; auto. right. exact Hn.
Qed.

(** Soundness: an answer of the search is a walk from the start to the
    goal. *)
Lemma bfs_sound (rounds : nat) :
  forall (queue : list Entry) (visited : list Coord) (p : list Coord),
    (forall e, In e queue -> goodEntry e) ->
    bfs rounds ok goal queue visited = Some p ->
    walk ok p /\ hd_error p = Some start /\ last p start = goal.
Proof.
  induction rounds as [|r IH]; intros queue visited p Hq H; cbn [bfs] in H.
  - discriminate.
  - destruct queue as [|[|current before] queue']; try discriminate.
    destruct (Coord_eqb current goal) eqn:Eg.
    + injection H as <-. apply Coord_eqb_eq in Eg. subst current.
      destruct (Hq (goal :: before)) as [Hw Hh]; [left; reflexivity|].
      repeat split; try assumption.
      cbn [rev]. apply last_last.
    + destruct (expand ok (neighbours current) (current :: before) visited)
        as [visited' entries] eqn:E.
      apply IH in H; [exact H|].
      intros e He. apply in_app_or in He. destruct He as [He | He].
      * apply Hq. right. exact He.
      * assert (Hgen : forall cands v v' es,
                   expand ok cands (current :: before) v = (v', es) ->
                   (forall n, In n cands -> adjacent current n) ->
                   forall e0, In e0 es -> goodEntry e0).
        { induction cands as [|c rest IHc]; intros v v' es Hex Hadj e0 He0;
            cbn [expand] in Hex.
          - injection Hex as _ <-. contradiction.
          - destruct (ok c && negb (visitedHas v c)) eqn:Ec.
            + destruct (expand ok rest (current :: before) (c :: v)) as [v1 e1] eqn:E1.
              injection Hex as _ <-. destruct He0 as [<- | He0].
              * apply goodEntry_extend.
                -- apply Hq. left. reflexivity.
                -- apply Hadj. left. reflexivity.
                -- apply andb_true_iff in Ec. apply Ec.
              * apply (IHc _ _ _ E1); [|exact He0].
                intros n Hn. apply Hadj. right. exact Hn.
            + apply (IHc _ _ _ Hex); [|exact He0].
              intros n Hn. apply Hadj. right. exact Hn. }
        apply (Hgen _ _ _ _ E); [|exact He].
        intros n Hn. exact Hn.
Qed.

End BreadthFirstSearch.

Section BreadthFirstSearchComplete.

Import Pathfinding.

Variable ok : Coord -> bool.
Variable start goal : Coord.
Variable universe : list Coord.
Hypothesis start_ok : ok start = true.
Hypothesis universe_ok : forall c, ok c = true -> In c universe.

(** A visited tile is closed once it was dequeued: it is not the goal
    and all its passable neighbours are visited. *)
Definition closedAt (visited : list Coord) (v : Coord) : Prop :=
  v <> goal /\
  forall n, In n (neighbours v) -> ok n = true -> In n visited.

Definition searchInv (queue : list Entry) (visited : list Coord) : Prop :=
  NoDup visited /\
  (forall v, In v visited -> In v universe) /\
  In start visited /\
  (forall e, In e queue -> e <> []) /\
  (forall v, In v visited ->
             (exists e, In e queue /\ hd_error e = Some v) \/ closedAt visited v).

Lemma walk_head_ok (l : list Coord) (a : Coord) :
  walk ok l -> hd_error l = Some a -> ok a = true.
Proof.
  intros Hw Hh. inversion Hw; subst; cbn in Hh; injection Hh as <-; assumption.
Qed.

(** A set that holds the start and is closed everywhere holds every
    tile connected to the start. *)
Lemma closed_holds_connected (visited : list Coord) :
  (forall v, In v visited -> closedAt visited v) ->
  forall (l : list Coord) (a : Coord),
    walk ok l -> hd_error l = Some a -> In a visited -> In (last l a) visited.
Proof.
  intros Hclosed l a Hw. revert a.
  induction Hw as [c Hc | x y l Hx Hadj Hw IH]; intros a Hh Ha.
  - cbn in *. injection Hh as <-. exact Ha.
  - cbn [hd_error] in Hh. injection Hh as <-.
    assert (Hy : In y visited).
    { destruct (Hclosed x Ha) as [_ Hn]. apply Hn; [exact Hadj|].
      apply (walk_head_ok (y :: l)); [exact Hw | reflexivity]. }
    specialize (IH y eq_refl Hy).
    change (last (x :: y :: l) x) with (last (y :: l) x).
    assert (E : forall d d', last (y :: l) d = last (y :: l) d').
    { clear. revert y. induction l as [|z l IHl]; intros y d d'; [reflexivity|].
      change (last (z :: l) d = last (z :: l) d'). apply IHl. }
    rewrite (E x y). exact IH.
Qed.

(** Completeness: with rounds left for every tile of the universe, the
    search answers when the goal is connected to the start. *)
Lemma bfs_complete (rounds : nat) :
  forall (queue : list Entry) (visited : list Coord),
    searchInv queue visited ->
    (length queue + length universe < length visited + rounds)%nat ->
    connected ok start goal ->
    bfs rounds ok goal queue visited <> None.
Proof.
  induction rounds as [|r IH]; intros queue visited Hinv Hcount Hconn.
  - exfalso. destruct Hinv as (Hnd & Hsub & _).
    pose proof (NoDup_incl_length Hnd Hsub). lia.
  - destruct Hinv as (Hnd & Hsub & Hstart & Hne & Hfront).
    cbn [bfs].
    destruct queue as [|[|current before] queue'].
    + exfalso. destruct Hconn as (l & Hw & Hh & Hl).
      assert (Hclosed : forall v, In v visited -> closedAt visited v).
      { intros v Hv. destruct (Hfront v Hv) as [(e & [] & _) | Hc]. exact Hc. }
      pose proof (closed_holds_connected visited Hclosed l start Hw Hh Hstart) as Hg.
      rewrite Hl in Hg. destruct (Hclosed goal Hg) as [Hneq _]. congruence.
    + exfalso. apply (Hne []); [left|]; reflexivity.
    + destruct (Coord_eqb current goal) eqn:Eg; [discriminate|].
      assert (Hcg : current <> goal).
      { intro E. apply Coord_eqb_eq in E. congruence. }
      destruct (expand ok (neighbours current) (current :: before) visited)
        as [visited' entries] eqn:E.
      destruct (expand_spec ok _ _ _ _ _ E Hnd)
        as (H1 & H2 & H3 & H4 & H5 & H6).
      apply IH; [|rewrite length_app, H2; cbn [length] in Hcount; lia | exact Hconn].
      repeat split.
      * exact H1.
      * intros v Hv. destruct (H6 v Hv) as [Hold | (e & He & Hh)].
        -- apply Hsub. exact Hold.
        -- destruct (H5 e He) as (n & -> & _ & Hokn & _).
           cbn in Hh. injection Hh as <-. apply universe_ok. exact Hokn.
      * apply H3. exact Hstart.
      * intros e He. apply in_app_or in He. destruct He as [He | He].
        -- apply Hne. right. exact He.
        -- destruct (H5 e He) as (n & -> & _). discriminate.
      * intros v Hv. destruct (H6 v Hv) as [Hold | (e & He & Hh)].
        -- destruct (Hfront v Hold) as [(e & [<- | He] & Hh) | [Hneq Hcl]].
           ++ cbn in Hh. injection Hh as <-. right. split; [exact Hcg | exact H4].
           ++ left. exists e. split; [apply in_or_app; left; exact He | exact Hh].
           ++ right. split; [exact Hneq|].
              intros n Hn Hokn. apply H3. apply Hcl; assumption.
        -- left. exists e. split; [apply in_or_app; right; exact He | exact Hh].
Qed.

End BreadthFirstSearchComplete.

(** All coordinates of the N x N grid. *)
Definition allCoords (n : Z) : list Coord :=
  flat_map (fun y => map (fun x => mkCoord x y) (TrafficSystem.range n))
           (TrafficSystem.range n).

Lemma range_In (n x : Z) : 0 <= x < n -> In x (TrafficSystem.range n).
Proof.
  intro H. unfold TrafficSystem.range. apply in_map_iff.
  exists (Z.to_nat x). split; [lia|]. apply in_seq. lia.
Qed.

Lemma range_length (n : Z) : length (TrafficSystem.range n) = Z.to_nat n.
Proof. unfold TrafficSystem.range. rewrite length_map, length_seq. reflexivity. Qed.

Lemma allCoords_length (n : Z) : length (allCoords n) = (Z.to_nat n * Z.to_nat n)%nat.
Proof.
  unfold allCoords.
  assert (H : forall l : list Z,
             length (flat_map (fun y => map (fun x => mkCoord x y) (TrafficSystem.range n)) l)
             = (length l * Z.to_nat n)%nat).
  { induction l as [|y l IH]; [reflexivity|].
    cbn [flat_map]. rewrite length_app, length_map, range_length, IH. cbn. lia. }
  rewrite H, range_length. reflexivity.
Qed.

Lemma passable_in_grid kind (grid : Grid) (n : Z) (c : Coord) :
  Pathfinding.passable kind grid n c = true -> In c (allCoords n).
Proof.
  intro H.
  assert (Hb : 0 <= cx c < n /\ 0 <= cy c < n).
  { destruct kind; cbn in H; unfold isRoadTile, isRailTile in H;
      destruct (cx c <? 0) eqn:E1; try discriminate;
      destruct (cy c <? 0) eqn:E2; try discriminate;
      destruct (cx c >=? n) eqn:E3; try discriminate;
      destruct (cy c >=? n) eqn:E4; try discriminate;
      rewrite Z.geb_leb in E3, E4; lia. }
  unfold allCoords. apply in_flat_map. exists (cy c).
  split; [apply range_In; lia|].
  apply in_map_iff. exists (cx c). split; [destruct c; reflexivity | apply range_In; lia].
Qed.

(** C1: for two tiles of the required surface kind, [findPath] (for roads
    and for rails) answers with a path exactly when the tiles are
    connected through tiles of that kind; the path begins at the start,
    ends at the goal, its consecutive elements are grid-adjacent and all
    its elements are of the surface kind; a start-equals-goal query
    answers the single-element path; a disconnected pair answers [None]. *)
Theorem findPath_valid :
  forall (grid : Grid) (gridSize startX startY goalX goalY : Z)
         (surfaceKind : Pathfinding.SurfaceKind),
    let ok := Pathfinding.passable surfaceKind grid gridSize in
    let start := mkCoord startX startY in
    let goal := mkCoord goalX goalY in
    let answer :=
      Pathfinding.findPath grid gridSize startX startY goalX goalY surfaceKind in
    ok start = true -> ok goal = true ->
    (Pathfinding.connected ok start goal ->
       exists p, answer = Some p /\
                 hd_error p = Some start /\ last p start = goal /\
                 Pathfinding.walk ok p) /\
    (~ Pathfinding.connected ok start goal -> answer = None) /\
    (start = goal -> answer = Some [start]).
Proof.
  intros grid gridSize startX startY goalX goalY surfaceKind ok start goal answer
         Hstart Hgoal.
  assert (Hq : forall e, In e [[start]] -> goodEntry ok start e).
  { intros e [<- | []]. split; [apply Pathfinding.walk_one; exact Hstart | reflexivity]. }
  assert (Hsound : forall p, answer = Some p ->
            Pathfinding.walk ok p /\ hd_error p = Some start /\ last p start = goal).
  { intros p Hp. exact (bfs_sound ok start goal _ _ _ p Hq Hp). }
  split; [|split].
  - intro Hconn.
    assert (Hsome : answer <> None).
    { subst answer. unfold Pathfinding.findPath.
      apply (bfs_complete ok start goal (allCoords gridSize)).
      - exact (passable_in_grid surfaceKind grid gridSize).
      - repeat split.
        + constructor; [intros [] | constructor].
        + intros v [<- | []]. apply (passable_in_grid surfaceKind grid gridSize).
          exact Hstart.
        + left. reflexivity.
        + intros e [<- | []]. discriminate.
        + intros v [<- | []]. left. exists [start]. split; [left|]; reflexivity.
      - rewrite allCoords_length. cbn [length].
        assert (Z.to_nat gridSize * Z.to_nat gridSize
                <= Z.to_nat (gridSize * gridSize))%nat.
        { destruct (Z_le_gt_dec 0 gridSize) as [Hn | Hn].
          - rewrite Z2Nat.inj_mul by lia. lia.
          - replace (Z.to_nat gridSize) with 0%nat by lia. lia. }
        lia.
      - exact Hconn. }
    destruct answer as [p|] eqn:Ea; [|congruence].
    exists p. destruct (Hsound p eq_refl) as (Hw & Hh & Hl). repeat split; assumption.
  - intro Hnot. destruct answer as [p|] eqn:Ea; [|reflexivity].
    exfalso. apply Hnot. destruct (Hsound p eq_refl) as (Hw & Hh & Hl).
    exists p. repeat split; assumption.
  - intro E. subst answer. unfold Pathfinding.findPath.
    replace (Z.to_nat (gridSize * gridSize) + 2)%nat
      with (S (S (Z.to_nat (gridSize * gridSize)))) by lia.
    cbn [Pathfinding.bfs]. fold start goal.
    assert (Eg : Pathfinding.Coord_eqb start goal = true)
      by (apply Coord_eqb_eq; exact E).
    rewrite Eg. reflexivity.
Qed.

Lemma findPath_valid_witness :
  exists p,
    Pathfinding.findPathOnRoads crossGrid 3 1 0 1 2 = Some p /\
    hd_error p = Some (mkCoord 1 0) /\
    last p (mkCoord 1 0) = mkCoord 1 2 /\
    Pathfinding.walk (Pathfinding.passable Pathfinding.roadSurface crossGrid 3) p.
Proof.
  destruct (findPath_valid crossGrid 3 1 0 1 2 Pathfinding.roadSurface)
    as (Hconn & _ & _).
  - reflexivity.
  - reflexivity.
  - apply Hconn.
    exists [mkCoord 1 0; mkCoord 1 1; mkCoord 1 2]. split; [|split; reflexivity].
    apply Pathfinding.walk_cons; [reflexivity | right; right; right; left; reflexivity |].
    apply Pathfinding.walk_cons; [reflexivity | right; right; right; left; reflexivity |].
    apply Pathfinding.walk_one. reflexivity.
Defined.

(** ** Identifiers *)





(** ** Age bound of the live set *)

(** After every update, whatever the state before, no car and no
    pedestrian of the live set is older than its [maxAge]: the update that
    carries an agent's age past [maxAge] is the one that drops it. *)
Theorem live_agents_not_older_than_maxAge :
  (forall rand step options pick colors (w : WorldRenderState) (delta : Q)
          (s : CarSystemState),
     Forall (fun c => (car_age c <= car_maxAge c)%Q)
            (cars (updateCars rand step options pick colors w delta s))) /\
  (forall rand isMobile pi minZoom skins shirts findPath dirTo homes dests
          (w : WorldRenderState) (v : Z) (delta : Q)
          (s : Pedestrians.PedestrianSystemState),
     Forall (fun p => (Pedestrians.age p <= Pedestrians.maxAge p)%Q)
            (Pedestrians.pedestrians
               (Pedestrians.updatePedestrians rand isMobile pi minZoom skins shirts
                  findPath dirTo homes dests w v delta s))).
Proof.
  split.
  - intros. apply Forall_forall. intros c' Hc'.
    apply updateCars_kept in Hc'. destruct Hc' as (g & c & k & _ & _ & Hf & _).
    apply stepCar_kept in Hf. destruct Hf as (_ & _ & _ & _ & Hage & _). exact Hage.
  - intros. apply Forall_forall. intros p' Hp'.
    apply updatePedestrians_kept in Hp'. destruct Hp' as (g & p & _ & Hf & _).
    apply stepPedestrian_kept in Hf. destruct Hf as (_ & _ & _ & _ & Hage & _).
    exact Hage.
Qed.

(* ================================================================== *)
(** * Further properties of the traffic-light controllers *)
(* ================================================================== *)

(** ** The light schedule of the per-intersection controller *)








Section LightSchedule.

Import IntersectionLights.

(** The colours a controller state shows: north, east, south, west. *)
Definition shown (s : TrafficLightState) : LightColor * LightColor * LightColor * LightColor :=
  (l_north s, l_east s, l_south s, l_west s).













(** A tile with exactly three road neighbours has two of them opposite
    each other, so every T-intersection has a through road. *)
Lemma T_has_through_road (grid : Grid) (gridSize x y : Z) :
  let info := analyzeRoadNetwork grid gridSize x y in
  intersectionType info = T ->
  rn_north info && rn_south info = true \/
  (rn_north info && rn_south info = false /\ rn_east info && rn_west info = true).
Proof.
  intro info. subst info. unfold analyzeRoadNetwork.
  cbn [rn_north rn_east rn_south rn_west intersectionType].
  destruct (isRoadTile grid gridSize (x - 1) y), (isRoadTile grid gridSize x (y - 1)),
    (isRoadTile grid gridSize (x + 1) y), (isRoadTile grid gridSize x (y + 1));
    cbn; intro H; try discriminate; auto.
Qed.

(** What the controller shows at a tile: both lights of an axis agree,
    the two axes are not green together, a T-intersection has exactly one
    green axis, and a tile that is no intersection is red all around. *)
Definition orderly (info : RoadNetworkInfo) (s : TrafficLightState) : Prop :=
  l_south s = l_north s /\ l_west s = l_east s /\
  (l_north s = green -> l_east s <> green) /\
  (intersectionType info = T ->
   (l_north s = green /\ l_east s <> green) \/ (l_north s <> green /\ l_east s = green)) /\
  (intersectionType info <> T -> intersectionType info <> cross ->
   shown s = (red, red, red, red)).

Lemma updateTrafficLightState_orderly (grid : Grid) (gridSize x y : Z)
    (s : TrafficLightState) (d : Q) :
  let info := analyzeRoadNetwork grid gridSize x y in
  orderly info s -> orderly info (updateTrafficLightState s info d).
Proof.
  intros info Hs.
  pose proof (T_has_through_road grid gridSize x y) as HT. fold info in HT. cbn zeta in HT.
  unfold orderly, shown, updateTrafficLightState in *.
  destruct (intersectionType info) eqn:Ety.
  - destruct (HT eq_refl) as [Hns | [Hns Hew]].
    + rewrite Hns. cbn.
      destruct (phaseColor _); cbn; repeat split; try congruence;
        intros; try congruence; auto; [right | right | left]; split; congruence.
    + rewrite Hns, Hew. cbn.
      destruct (phaseColor _); cbn; repeat split; try congruence;
        intros; try congruence; auto; [left | left | right]; split; congruence.
  - destruct (Qltb _ 1); cbn; repeat split; try congruence; intros; congruence.
  - cbn. exact Hs.
  - cbn. exact Hs.
  - cbn. exact Hs.
Qed.

(** At no tile of any grid does the controller show green to both axes,
    whatever the sequence of updates (their deltas may even be negative):
    the two lights of an axis always agree, a T-intersection always has
    exactly one green axis (its stub is green whenever its through road is
    not, yellow included), and a tile with fewer than three road
    neighbours keeps all four lights red. *)
Theorem controller_never_green_both_ways :
  forall (grid : Grid) (gridSize x y : Z) (deltas : list Q),
    let info := analyzeRoadNetwork grid gridSize x y in
    orderly info (runLightState info (createTrafficLightState info) deltas).
Proof.
  intros grid gridSize x y deltas info.
  assert (H0 : orderly info (createTrafficLightState info)).
  { pose proof (T_has_through_road grid gridSize x y) as HT. fold info in HT.
    cbn zeta in HT.
    unfold orderly, shown, createTrafficLightState.
    destruct (intersectionType info) eqn:Ety.
    - destruct (HT eq_refl) as [Hns | [Hns Hew]].
      + rewrite Hns. cbn. repeat split; try congruence. intros _. left. split; congruence.
      + rewrite Hns, Hew. cbn. repeat split; try congruence. intros _. right.
        split; congruence.
    - cbn. repeat split; try congruence.
    - cbn. repeat split; congruence.
    - cbn. repeat split; congruence.
    - cbn. repeat split; congruence. }
  revert H0. generalize (createTrafficLightState info).
  induction deltas as [|d rest IH]; intros s Hs; cbn [runLightState].
  - exact Hs.
  - apply IH. apply (updateTrafficLightState_orderly grid gridSize x y). exact Hs.
Qed.

End LightSchedule.

(* ================================================================== *)
(** * Further properties of the traffic system *)
(* ================================================================== *)

Section IntersectionLookup.

Import TrafficSystem.

(** A [flat_map] over distinct keys whose pieces are duplicate-free and
    tagged with their key is duplicate-free. *)
Lemma NoDup_flat_map_tagged {A B : Type} (tag : B -> A) (f : A -> list B) (l : list A) :
  NoDup l ->
  (forall a, NoDup (f a)) ->
  (forall a b, In b (f a) -> tag b = a) ->
  NoDup (flat_map f l).
Proof.
  intros Hl Hf Htag. induction Hl as [|a l Hnotin Hl IH]; cbn.
  - constructor.
  - apply NoDup_app; [apply Hf | exact IH |].
    intros b Hb Hb'. apply in_flat_map in Hb'. destruct Hb' as (a' & Ha' & Hb').
    apply Htag in Hb, Hb'. apply Hnotin. congruence.
Qed.

Lemma NoDup_map_injective {A B : Type} (f : A -> B) (l : list A) :
  (forall a b, f a = f b -> a = b) -> NoDup l -> NoDup (map f l).
Proof.
  intros Hinj Hl. induction Hl as [|a l Hnotin Hl IH]; cbn; constructor.
  - intro H. apply in_map_iff in H. destruct H as (b & E & Hb).
    apply Hinj in E. subst b. contradiction.
  - exact IH.
Qed.

Lemma range_NoDup (n : Z) : NoDup (range n).
Proof.
  unfold range. apply NoDup_map_injective; [|apply seq_NoDup].
  intros a b H. lia.
Qed.

Lemma range_In_iff (n x : Z) : In x (range n) <-> 0 <= x < n.
Proof.
  unfold range. rewrite in_map_iff. split.
  - intros (k & <- & Hk). apply in_seq in Hk. lia.
  - intro H. exists (Z.to_nat x). split; [lia|]. apply in_seq. lia.
Qed.

(** A tile yields at most one intersection, which carries its
    coordinates. *)
Lemma intersectionAt_cases (grid : Grid) (gridSize x y : Z) :
  intersectionAt grid gridSize x y = [] \/
  exists dirs, intersectionAt grid gridSize x y = [mkIntersection x y dirs].
Proof.
  unfold intersectionAt.
  destruct (negb _); [left; reflexivity|].
  destruct (_ >=? 3); [right; eauto | left; reflexivity].
Qed.

Lemma intersectionAt_In (grid : Grid) (gridSize x y : Z) (i : Intersection) :
  In i (intersectionAt grid gridSize x y) ->
  ix i = x /\ iy i = y /\ intersectionAt grid gridSize x y = [i].
Proof.
  destruct (intersectionAt_cases grid gridSize x y) as [-> | (dirs & ->)].
  - intros [].
  - intros [<- | []]. repeat split.
Qed.

Lemma findIntersections_In (grid : Grid) (gridSize : Z) (i : Intersection) :
  In i (findIntersections grid gridSize) <->
  In (ix i) (range gridSize) /\ In (iy i) (range gridSize) /\
  intersectionAt grid gridSize (ix i) (iy i) = [i].
Proof.
  unfold findIntersections. rewrite in_flat_map. split.
  - intros (y & Hy & Hi). apply in_flat_map in Hi. destruct Hi as (x & Hx & Hi).
    apply intersectionAt_In in Hi. destruct Hi as (<- & <- & E). auto.
  - intros (Hx & Hy & E). exists (iy i). split; [exact Hy|].
    apply in_flat_map. exists (ix i). split; [exact Hx|]. rewrite E. left. reflexivity.
Qed.

Lemma findIntersections_NoDup (grid : Grid) (gridSize : Z) :
  NoDup (findIntersections grid gridSize).
Proof.
  unfold findIntersections.
  apply (NoDup_flat_map_tagged iy); [apply range_NoDup | |].
  - intro y. apply (NoDup_flat_map_tagged ix); [apply range_NoDup | |].
    + intro x. destruct (intersectionAt_cases grid gridSize x y) as [-> | (dirs & ->)];
        [constructor | constructor; [intros [] | constructor]].
    + intros x i Hi. apply intersectionAt_In in Hi. apply Hi.
  - intros y i Hi. apply in_flat_map in Hi. destruct Hi as (x & _ & Hi).
    apply intersectionAt_In in Hi. apply Hi.
Qed.

(** Lights that stand on the same tile are in the same state. *)
Definition lockstep (lights : list TrafficLight) : Prop :=
  forall l1 l2, In l1 lights -> In l2 lights ->
    tl_x l1 = tl_x l2 -> tl_y l1 = tl_y l2 ->
    state l1 = state l2 /\ timer l1 = timer l2.

Lemma lightsOf_In (i : Intersection) (p : Z) (l : TrafficLight) :
  In l (lightsOf i p) ->
  tl_x l = ix i /\ tl_y l = iy i /\ In (direction l) (idirections i) /\
  phase l = p /\
  state l = (if p mod 2 =? 0 then green else red) /\
  timer l = (if p mod 2 =? 0 then TRAFFIC_LIGHT_GREEN_DURATION
             else TRAFFIC_LIGHT_RED_DURATION).
Proof.
  unfold lightsOf. intro H. apply in_map_iff in H. destruct H as (d & <- & Hd).
  cbn. repeat split. exact Hd.
Qed.

Lemma initializeTrafficLights_from_In (intersections : list Intersection) :
  forall (p : Z) (l : TrafficLight),
    In l (initializeTrafficLights_from p intersections) ->
    exists i, In i intersections /\ tl_x l = ix i /\ tl_y l = iy i /\
              In (direction l) (idirections i).
Proof.
  induction intersections as [|i rest IH]; intros p l H; cbn in H.
  - contradiction.
  - apply in_app_or in H. destruct H as [H | H].
    + apply lightsOf_In in H. exists i. split; [left; reflexivity|]. tauto.
    + destruct (IH _ _ H) as (i' & Hi' & Hrest). exists i'. split; [right|]; assumption.
Qed.

Lemma initializeTrafficLights_from_lockstep (intersections : list Intersection) :
  NoDup intersections ->
  (forall i1 i2, In i1 intersections -> In i2 intersections ->
                 ix i1 = ix i2 -> iy i1 = iy i2 -> i1 = i2) ->
  forall p, lockstep (initializeTrafficLights_from p intersections).
Proof.
  intros Hnd Huniq. induction intersections as [|i rest IH]; intro p.
  - intros l1 l2 [].
  - apply NoDup_cons_iff in Hnd. destruct Hnd as [Hnotin Hnd].
    assert (Hrest : forall q, lockstep (initializeTrafficLights_from q rest)).
    { apply IH; [exact Hnd|]. intros i1 i2 H1 H2. apply Huniq; right; assumption. }
    assert (Hcross : forall l1 l2,
               In l1 (lightsOf i p) ->
               In l2 (initializeTrafficLights_from (p + 1) rest) ->
               tl_x l1 = tl_x l2 -> tl_y l1 = tl_y l2 -> False).
    { intros l1 l2 H1 H2 Ex Ey.
      apply lightsOf_In in H1. destruct H1 as (Hx1 & Hy1 & _).
      apply initializeTrafficLights_from_In in H2.
      destruct H2 as (i' & Hi' & Hx2 & Hy2 & _).
      apply Hnotin.
      rewrite (Huniq i i'); [exact Hi' | left; reflexivity | right; exact Hi' | |];
        congruence. }
    intros l1 l2 H1 H2 Ex Ey. cbn in H1, H2.
    apply in_app_or in H1. apply in_app_or in H2.
    destruct H1 as [H1 | H1], H2 as [H2 | H2].
    + apply lightsOf_In in H1, H2.
      destruct H1 as (_ & _ & _ & _ & -> & ->), H2 as (_ & _ & _ & _ & -> & ->).
      split; reflexivity.
    + exfalso. exact (Hcross l1 l2 H1 H2 Ex Ey).
    + exfalso. apply (Hcross l2 l1 H2 H1); congruence.
    + exact (Hrest (p + 1) l1 l2 H1 H2 Ex Ey).
Qed.

Lemma updateLight_frame (d : Q) (l : TrafficLight) :
  tl_x (updateLight d l) = tl_x l /\ tl_y (updateLight d l) = tl_y l /\
  direction (updateLight d l) = direction l /\ phase (updateLight d l) = phase l.
Proof.
  unfold updateLight. destruct (Qle_bool _ 0); [destruct (state l)|]; repeat split.
Qed.

Lemma updateTrafficLights_lockstep (lights : list TrafficLight) (d : Q) :
  lockstep lights -> lockstep (updateTrafficLights lights d).
Proof.
  intros H l1' l2' H1 H2 Ex Ey. unfold updateTrafficLights in *.
  apply in_map_iff in H1, H2.
  destruct H1 as (l1 & <- & H1), H2 as (l2 & <- & H2).
  destruct (updateLight_frame d l1) as (Ex1 & Ey1 & _).
  destruct (updateLight_frame d l2) as (Ex2 & Ey2 & _).
  destruct (H l1 l2 H1 H2) as [Es Et]; [congruence | congruence |].
  unfold updateLight. rewrite Es, Et.
  destruct (Qle_bool _ 0); [destruct (state l2)|]; split; reflexivity.
Qed.

Lemma runLights_lockstep (deltas : list Q) :
  forall lights, lockstep lights -> lockstep (runLights lights deltas).
Proof.
  induction deltas as [|d rest IH]; intros lights H; cbn [runLights].
  - exact H.
  - apply IH. apply updateTrafficLights_lockstep. exact H.
Qed.

Lemma getTrafficLightState_Some (lights : list TrafficLight) (x y : Z)
    (d : CarDirection) (c : LightColor) :
  getTrafficLightState lights x y d = Some c ->
  exists l, In l lights /\ tl_x l = x /\ tl_y l = y /\ direction l = d /\ state l = c.
Proof.
  unfold getTrafficLightState.
  destruct (find _ lights) as [l|] eqn:E; [|discriminate].
  intro H. injection H as <-. apply find_some in E. destruct E as [Hin Hb].
  apply andb_prop in Hb. destruct Hb as [Hb Hd].
  apply andb_prop in Hb. destruct Hb as [Hx Hy].
  exists l. repeat split; try assumption; try lia.
  destruct (direction l), d; try discriminate; reflexivity.
Qed.

(** On every grid and after every sequence of updates, the lights of one
    intersection all show the same colour: the lights that
    [initializeTrafficLights] creates for an intersection start in one
    state and [updateTrafficLights] steps them alike, so a query for any
    two directions of a tile gives the same answer. *)
Theorem lights_of_one_intersection_in_lockstep :
  forall (grid : Grid) (gridSize : Z) (deltas : list Q) (x y : Z)
         (d1 d2 : CarDirection) (c1 c2 : LightColor),
    let lights :=
      runLights (initializeTrafficLights (findIntersections grid gridSize)) deltas in
    getTrafficLightState lights x y d1 = Some c1 ->
    getTrafficLightState lights x y d2 = Some c2 ->
    c1 = c2.
Proof.
  intros grid gridSize deltas x y d1 d2 c1 c2 lights H1 H2.
  assert (Hl : lockstep lights).
  { apply runLights_lockstep. unfold initializeTrafficLights.
    apply initializeTrafficLights_from_lockstep; [apply findIntersections_NoDup|].
    intros i1 i2 Hi1 Hi2 Ex Ey.
    apply findIntersections_In in Hi1, Hi2.
    destruct Hi1 as (_ & _ & E1), Hi2 as (_ & _ & E2).
    rewrite Ex, Ey, E2 in E1. injection E1 as E1. congruence. }
  apply getTrafficLightState_Some in H1, H2.
  destruct H1 as (l1 & Hin1 & Hx1 & Hy1 & _ & <-).
  destruct H2 as (l2 & Hin2 & Hx2 & Hy2 & _ & <-).
  apply (Hl l1 l2 Hin1 Hin2); congruence.
Qed.

Lemma lights_of_one_intersection_in_lockstep_witness :
  getTrafficLightState
    (runLights (initializeTrafficLights (findIntersections crossGrid 3)) [3; 9]%Q)
    1 1 north = Some yellow /\
  getTrafficLightState
    (runLights (initializeTrafficLights (findIntersections crossGrid 3)) [3; 9]%Q)
    1 1 east = Some yellow /\
  yellow = yellow.
Proof.
  split; [reflexivity | split; [reflexivity|]].
  apply (lights_of_one_intersection_in_lockstep crossGrid 3 [3; 9]%Q 1 1 north east);
    reflexivity.
Defined.

(** The road neighbour that the network analysis reports towards a
    direction. *)
Definition connectionTowards (info : RoadNetworkInfo) (d : CarDirection) : bool :=
  match d with
  | north => rn_north info
  | east => rn_east info
  | south => rn_south info
  | west => rn_west info
  end.

Lemma getTrafficLightState_found (lights : list TrafficLight) (x y : Z)
    (d : CarDirection) :
  getTrafficLightState lights x y d <> None <->
  exists l, In l lights /\ tl_x l = x /\ tl_y l = y /\ direction l = d.
Proof.
  split.
  - destruct (getTrafficLightState lights x y d) as [c|] eqn:E; [|congruence].
    intros _. apply getTrafficLightState_Some in E.
    destruct E as (l & Hin & Hx & Hy & Hd & _). exists l. auto.
  - intros (l & Hin & Hx & Hy & Hd). unfold getTrafficLightState.
    destruct (find _ lights) as [l'|] eqn:E; [discriminate|].
    exfalso. pose proof (find_none _ _ E l Hin) as Hn. cbn in Hn.
    rewrite Hx, Hy, Hd, !Z.eqb_refl in Hn. destruct d; discriminate.
Qed.

Lemma updateTrafficLights_places (lights : list TrafficLight) (delta : Q) (x y : Z)
    (d : CarDirection) :
  (exists l, In l (updateTrafficLights lights delta) /\
             tl_x l = x /\ tl_y l = y /\ direction l = d) <->
  (exists l, In l lights /\ tl_x l = x /\ tl_y l = y /\ direction l = d).
Proof.
  unfold updateTrafficLights. split.
  - intros (l' & Hin & Hx & Hy & Hd). apply in_map_iff in Hin.
    destruct Hin as (l & <- & Hin).
    destruct (updateLight_frame delta l) as (Ex & Ey & Ed & _).
    exists l. repeat split; congruence.
  - intros (l & Hin & Hx & Hy & Hd).
    destruct (updateLight_frame delta l) as (Ex & Ey & Ed & _).
    exists (updateLight delta l). split; [apply in_map; exact Hin|].
    repeat split; congruence.
Qed.

Lemma runLights_places (deltas : list Q) (x y : Z) (d : CarDirection) :
  forall lights,
    (exists l, In l (runLights lights deltas) /\
               tl_x l = x /\ tl_y l = y /\ direction l = d) <->
    (exists l, In l lights /\ tl_x l = x /\ tl_y l = y /\ direction l = d).
Proof.
  induction deltas as [|delta rest IH]; intro lights; cbn [runLights].
  - reflexivity.
  - rewrite IH. apply updateTrafficLights_places.
Qed.

Lemma initializeTrafficLights_from_places (intersections : list Intersection)
    (x y : Z) (d : CarDirection) :
  forall p,
    (exists l, In l (initializeTrafficLights_from p intersections) /\
               tl_x l = x /\ tl_y l = y /\ direction l = d) <->
    (exists i, In i intersections /\ ix i = x /\ iy i = y /\ In d (idirections i)).
Proof.
  intro p. split.
  - intros (l & Hin & Hx & Hy & Hd).
    apply initializeTrafficLights_from_In in Hin.
    destruct Hin as (i & Hi & Ex & Ey & Hdir).
    exists i. repeat split; congruence.
  - revert p. induction intersections as [|i0 rest IH]; intros p (i & Hi & Hx & Hy & Hd).
    + contradiction.
    + cbn [initializeTrafficLights_from]. destruct Hi as [-> | Hi].
      * exists (mkTrafficLight (ix i) (iy i)
                  (if p mod 2 =? 0 then green else red) d
                  (if p mod 2 =? 0 then TRAFFIC_LIGHT_GREEN_DURATION
                   else TRAFFIC_LIGHT_RED_DURATION) p).
        split; [|cbn; auto].
        apply in_or_app. left. unfold lightsOf.
        apply in_map_iff. exists d. split; [reflexivity | exact Hd].
      * destruct (IH (p + 1)) as (l & Hin & Hl); [exists i; auto|].
        exists l. split; [apply in_or_app; right; exact Hin | exact Hl].
Qed.

(** Where the traffic system puts its lights.  On every grid and after
    every sequence of updates, [getTrafficLightState] answers for tile
    [(x, y)] and direction [d] exactly when the tile is a road tile of
    the grid for which the road-network analysis wants a traffic light
    (three or four road neighbours) and reports a road neighbour towards
    [d]; for every other tile or direction it answers [null]. *)
Theorem traffic_lights_placed_at_intersections :
  forall (grid : Grid) (gridSize : Z) (deltas : list Q) (x y : Z) (d : CarDirection),
    let lights :=
      runLights (initializeTrafficLights (findIntersections grid gridSize)) deltas in
    let info := analyzeRoadNetwork grid gridSize x y in
    getTrafficLightState lights x y d <> None <->
    isRoadTile grid gridSize x y = true /\
    needsTrafficLight info = true /\
    connectionTowards info d = true.
Proof.
  intros grid gridSize deltas x y d lights info. subst lights.
  rewrite getTrafficLightState_found, runLights_places.
  unfold initializeTrafficLights. rewrite initializeTrafficLights_from_places.
  assert (Hat : forall dirs,
            intersectionAt grid gridSize x y = [mkIntersection x y dirs] ->
            typeIs grid x y "road"%string = true /\ needsTrafficLight info = true /\
            (In d dirs <-> connectionTowards info d = true)).
  { intro dirs. unfold intersectionAt.
    destruct (typeIs grid x y "road"%string); cbn [negb]; [|discriminate].
    unfold analyzeRoad, info, analyzeRoadNetwork.
    cbn [directions d_north d_east d_south d_west needsTrafficLight
         rn_north rn_east rn_south rn_west].
    destruct (_ >=? 3); [|discriminate].
    intro H. injection H as <-. split; [reflexivity | split; [reflexivity|]].
    unfold connectionTowards. cbn [rn_north rn_east rn_south rn_west].
    destruct (isRoadTile grid gridSize (x - 1) y), (isRoadTile grid gridSize x (y - 1)),
      (isRoadTile grid gridSize (x + 1) y), (isRoadTile grid gridSize x (y + 1)),
      d; cbn; split; intro H; try reflexivity; try discriminate;
      repeat (destruct H as [H | H]; try discriminate); auto. }
  assert (Hroad : isRoadTile grid gridSize x y = true <->
                  In x (range gridSize) /\ In y (range gridSize) /\
                  typeIs grid x y "road"%string = true).
  { rewrite !range_In_iff. unfold isRoadTile.
    destruct (x <? 0) eqn:E1, (y <? 0) eqn:E2, (x >=? gridSize) eqn:E3,
      (y >=? gridSize) eqn:E4; cbn;
      rewrite ?Z.geb_leb in *;
      rewrite ?Z.ltb_lt, ?Z.ltb_ge, ?Z.leb_le, ?Z.leb_gt in *;
      split; intro H; try discriminate; try lia;
      try (destruct H as (? & ? & ?); lia).
    - repeat split; try lia. exact H.
    - apply H. }
  split.
  - intros (i & Hi & Hx & Hy & Hd). apply findIntersections_In in Hi.
    rewrite Hx, Hy in Hi. destruct Hi as (Hxr & Hyr & E).
    destruct i as [x0 y0 dirs]. cbn in Hx, Hy, Hd. subst x0 y0.
    destruct (Hat dirs E) as (Ht & Hn & Hdir).
    split; [apply Hroad; auto | split; [exact Hn | apply Hdir; exact Hd]].
  - intros (Hr & Hn & Hd). apply Hroad in Hr. destruct Hr as (Hxr & Hyr & Ht).
    destruct (intersectionAt_cases grid gridSize x y) as [E | (dirs & E)].
    + exfalso. revert E. unfold intersectionAt. rewrite Ht. cbn [negb].
      unfold analyzeRoad. cbn [directions d_north d_east d_south d_west].
      revert Hn. unfold info, analyzeRoadNetwork. cbn [needsTrafficLight].
      intros ->. discriminate.
    + exists (mkIntersection x y dirs). cbn.
      destruct (Hat dirs E) as (_ & _ & Hdir).
      split; [|split; [reflexivity | split; [reflexivity | apply Hdir; exact Hd]]].
      apply findIntersections_In. cbn. auto.
Qed.

End IntersectionLookup.

Section RoadRuns.

Import TrafficSystem.

(** [k] is the length of the run of road tiles that a counting loop of
    [analyzeRoad] sees: the tiles at distance [1 .. k] are road, and the
    run ends there unless it reached the loop's limit of four tiles. *)
Definition runOf (tile : Z -> bool) (k : Z) : Prop :=
  0 <= k <= 4 /\
  (forall i, 1 <= i <= k -> tile i = true) /\
  (k < 4 -> tile (k + 1) = false).

Lemma streak_spec (ok : Z -> bool) (step : Z) (n : nat) :
  forall start,
    let k := streak ok start step n in
    0 <= k <= Z.of_nat n /\
    (forall i, 0 <= i < k -> ok (start + i * step) = true) /\
    (k < Z.of_nat n -> ok (start + k * step) = false).
Proof.
  induction n as [|n IH]; intro start; cbn [streak].
  - cbn. split; [lia|]. split; intros; lia.
  - destruct (ok start) eqn:E.
    + specialize (IH (start + step)). cbn zeta in IH.
      destruct IH as (Hk & Hall & Hend).
      set (k := streak ok (start + step) step n) in *.
      split; [lia|]. split.
      * intros i Hi. destruct (Z.eq_dec i 0) as [-> | Hne].
        -- rewrite Z.mul_0_l, Z.add_0_r. exact E.
        -- replace (start + i * step) with (start + step + (i - 1) * step) by ring.
           apply Hall. lia.
      * intro Hlt. replace (start + (1 + k) * step) with (start + step + k * step) by ring.
        apply Hend. lia.
    + split; [lia|]. split; [intros; lia|].
      intros _. rewrite Z.mul_0_l, Z.add_0_r. exact E.
Qed.

Lemma streak_run (tile : Z -> bool) (ok : Z -> bool) (start step : Z) :
  (forall i, 1 <= i <= 4 -> ok (start + (i - 1) * step) = tile i) ->
  runOf tile (streak ok start step 4).
Proof.
  intro Hok. destruct (streak_spec ok step 4 start) as (Hk & Hall & Hend).
  cbn zeta in *. set (k := streak ok start step 4) in *.
  change (Z.of_nat 4) with 4 in *.
  split; [lia|]. split.
  - intros i Hi. rewrite <- Hok by lia. apply Hall. lia.
  - intro Hlt. rewrite <- Hok by lia.
    replace (k + 1 - 1) with k by lia. apply Hend. exact Hlt.
Qed.

(** What [analyzeRoad] counts and how it classifies.  The horizontal
    count is one (the tile itself, whatever it holds) plus the runs of
    road tiles that leave the tile along [x] in both directions, each cut
    off after four tiles; the vertical count likewise along [y].  A tile
    is [highway] with three lanes when one of the counts reaches four,
    [single] with one lane when it has no road neighbour at all, and
    [avenue] with two lanes otherwise. *)
Theorem analyzeRoad_counts_runs :
  forall (grid : Grid) (gridSize x y : Z),
    let a := analyzeRoad grid gridSize x y in
    let h := parallel_horizontal a in
    let v := parallel_vertical a in
    (exists l r u d,
       h = 1 + l + r /\ v = 1 + u + d /\
       runOf (fun i => isRoadTile grid gridSize (x - i) y) l /\
       runOf (fun i => isRoadTile grid gridSize (x + i) y) r /\
       runOf (fun i => isRoadTile grid gridSize x (y - i)) u /\
       runOf (fun i => isRoadTile grid gridSize x (y + i)) d) /\
    (ra_type a = highway /\ lanes a = 3 <-> 4 <= h \/ 4 <= v) /\
    (ra_type a = single /\ lanes a = 1 <->
     directions a = mkDirections false false false false) /\
    (ra_type a = avenue /\ lanes a = 2 <->
     h < 4 /\ v < 4 /\ directions a <> mkDirections false false false false).
Proof.
  intros grid gridSize x y a h v.
  set (l := streak (fun gx => (gx >=? 0) && (gx >=? x - 4) &&
                              isRoadTile grid gridSize gx y) (x - 1) (-1) 4).
  set (r := streak (fun gx => (gx <? gridSize) && (gx <=? x + 4) &&
                              isRoadTile grid gridSize gx y) (x + 1) 1 4).
  set (u := streak (fun gy => (gy >=? 0) && (gy >=? y - 4) &&
                              isRoadTile grid gridSize x gy) (y - 1) (-1) 4).
  set (d := streak (fun gy => (gy <? gridSize) && (gy <=? y + 4) &&
                              isRoadTile grid gridSize x gy) (y + 1) 1 4).
  assert (Hh : h = 1 + l + r) by reflexivity.
  assert (Hv : v = 1 + u + d) by reflexivity.
  assert (Hlow : forall gx gy lim, lim <= gx ->
            (gx >=? 0) && (gx >=? lim) && isRoadTile grid gridSize gx gy
            = isRoadTile grid gridSize gx gy).
  { intros gx gy lim Hlim. unfold isRoadTile.
    destruct (gx <? 0) eqn:E; cbn.
    - rewrite Z.geb_leb. apply Z.ltb_lt in E.
      replace (0 <=? gx) with false by (symmetry; apply Z.leb_gt; lia). reflexivity.
    - rewrite !Z.geb_leb. apply Z.ltb_ge in E.
      replace (0 <=? gx) with true by (symmetry; apply Z.leb_le; lia).
      replace (lim <=? gx) with true by (symmetry; apply Z.leb_le; lia). reflexivity. }
  assert (Hlow' : forall gx gy lim, lim <= gy ->
            (gy >=? 0) && (gy >=? lim) && isRoadTile grid gridSize gx gy
            = isRoadTile grid gridSize gx gy).
  { intros gx gy lim Hlim. unfold isRoadTile.
    destruct (gy <? 0) eqn:E; cbn.
    - rewrite Z.geb_leb. apply Z.ltb_lt in E.
      replace (0 <=? gy) with false by (symmetry; apply Z.leb_gt; lia).
      cbn. rewrite orb_true_r. reflexivity.
    - rewrite !Z.geb_leb. apply Z.ltb_ge in E.
      replace (0 <=? gy) with true by (symmetry; apply Z.leb_le; lia).
      replace (lim <=? gy) with true by (symmetry; apply Z.leb_le; lia). reflexivity. }
  assert (Hhigh : forall gx gy lim, gx <= lim ->
            (gx <? gridSize) && (gx <=? lim) && isRoadTile grid gridSize gx gy
            = isRoadTile grid gridSize gx gy).
  { intros gx gy lim Hlim. unfold isRoadTile.
    replace (gx <=? lim) with true by (symmetry; apply Z.leb_le; lia).
    rewrite Z.geb_leb.
    destruct (gx <? gridSize) eqn:E; cbn; [reflexivity|].
    apply Z.ltb_ge in E.
    replace (gridSize <=? gx) with true by (symmetry; apply Z.leb_le; lia).
    rewrite orb_true_r. reflexivity. }
  assert (Hhigh' : forall gx gy lim, gy <= lim ->
            (gy <? gridSize) && (gy <=? lim) && isRoadTile grid gridSize gx gy
            = isRoadTile grid gridSize gx gy).
  { intros gx gy lim Hlim. unfold isRoadTile.
    replace (gy <=? lim) with true by (symmetry; apply Z.leb_le; lia).
    rewrite (Z.geb_leb gy).
    destruct (gy <? gridSize) eqn:E; cbn; [reflexivity|].
    apply Z.ltb_ge in E.
    replace (gridSize <=? gy) with true by (symmetry; apply Z.leb_le; lia).
    rewrite !orb_true_r. reflexivity. }
  assert (Rl : runOf (fun i => isRoadTile grid gridSize (x - i) y) l).
  { apply streak_run. intros i Hi. cbn beta.
    replace (x - 1 + (i - 1) * -1) with (x - i) by ring. apply Hlow. lia. }
  assert (Rr : runOf (fun i => isRoadTile grid gridSize (x + i) y) r).
  { apply streak_run. intros i Hi. cbn beta.
    replace (x + 1 + (i - 1) * 1) with (x + i) by ring. apply Hhigh. lia. }
  assert (Ru : runOf (fun i => isRoadTile grid gridSize x (y - i)) u).
  { apply streak_run. intros i Hi. cbn beta.
    replace (y - 1 + (i - 1) * -1) with (y - i) by ring. apply Hlow'. lia. }
  assert (Rd : runOf (fun i => isRoadTile grid gridSize x (y + i)) d).
  { apply streak_run. intros i Hi. cbn beta.
    replace (y + 1 + (i - 1) * 1) with (y + i) by ring. apply Hhigh'. lia. }
  split.
  { exists l, r, u, d. split; [reflexivity|]. split; [reflexivity|].
    split; [exact Rl|]. split; [exact Rr|]. split; [exact Ru | exact Rd]. }
  assert (Hn : isRoadTile grid gridSize (x - 1) y = true <-> 1 <= l).
  { destruct Rl as (Hk & Hall & Hend). split.
    - intro E. destruct (Z_le_gt_dec 1 l); [assumption|].
      assert (l = 0) by lia. rewrite H in Hend. cbn in Hend.
      rewrite Hend in E by lia. discriminate.
    - intro H. apply (Hall 1). lia. }
  assert (Hs : isRoadTile grid gridSize (x + 1) y = true <-> 1 <= r).
  { destruct Rr as (Hk & Hall & Hend). split.
    - intro E. destruct (Z_le_gt_dec 1 r); [assumption|].
      assert (r = 0) by lia. rewrite H in Hend. cbn in Hend.
      rewrite Hend in E by lia. discriminate.
    - intro H. apply (Hall 1). lia. }
  assert (He : isRoadTile grid gridSize x (y - 1) = true <-> 1 <= u).
  { destruct Ru as (Hk & Hall & Hend). split.
    - intro E. destruct (Z_le_gt_dec 1 u); [assumption|].
      assert (u = 0) by lia. rewrite H in Hend. cbn in Hend.
      rewrite Hend in E by lia. discriminate.
    - intro H. apply (Hall 1). lia. }
  assert (Hw : isRoadTile grid gridSize x (y + 1) = true <-> 1 <= d).
  { destruct Rd as (Hk & Hall & Hend). split.
    - intro E. destruct (Z_le_gt_dec 1 d); [assumption|].
      assert (d = 0) by lia. rewrite H in Hend. cbn in Hend.
      rewrite Hend in E by lia. discriminate.
    - intro H. apply (Hall 1). lia. }
  destruct Rl as (Bl & _), Rr as (Br & _), Ru as (Bu & _), Rd as (Bd & _).
  subst h v a. unfold analyzeRoad.
  cbn [ra_type lanes directions parallel_horizontal parallel_vertical].
  fold l r u d. clear Hh Hv Hlow Hlow' Hhigh Hhigh'. clearbody l r u d.
  destruct (isRoadTile grid gridSize (x - 1) y),
    (isRoadTile grid gridSize x (y - 1)),
    (isRoadTile grid gridSize (x + 1) y),
    (isRoadTile grid gridSize x (y + 1));
    destruct (1 + l + r >=? 4) eqn:C1, (1 + u + d >=? 4) eqn:C2,
      (1 + l + r >=? 2) eqn:C3, (1 + u + d >=? 2) eqn:C4;
    rewrite ?Z.geb_leb in *;
    rewrite ?Z.leb_le, ?Z.leb_gt in *;
    cbn [orb];
    repeat split; intros; try congruence; try lia;
    try (exfalso; intuition (try congruence; lia)).
Qed.

End RoadRuns.

(* ================================================================== *)
(** * Further properties of the agent managers *)
(* ================================================================== *)

(** ** Capacity ceilings *)

Lemma forEachAgent_length {A} (f : A -> Rand (option A)) (l : list A) :
  forall k, (length (fst (forEachAgent f l k)) <= length l)%nat.
Proof.
  induction l as [|a l IH]; intro k.
  - cbn. lia.
  - rewrite forEachAgent_cons. cbn [fst length].
    specialize (IH (snd (f a k))).
    destruct (fst (f a k)); cbn [length]; lia.
Qed.

Lemma flat_map_option_length {A} (f : A -> option A) (l : list A) :
  (length (flat_map (fun a => match f a with Some a' => [a'] | None => [] end) l)
   <= length l)%nat.
Proof.
  induction l as [|a l IH]; cbn; [lia|].
  rewrite length_app. destruct (f a); cbn; lia.
Qed.

Lemma PathTrains_forEachTrain_length (f : PathTrains.Train ->
                                          Rand (option (option PathTrains.Train)))
    (l : list PathTrains.Train) :
  forall k l', fst (PathTrains.forEachTrain f l k) = Some l' ->
               (length l' <= length l)%nat.
Proof.
  induction l as [|t l IH]; intros k l' H; cbn in H.
  - injection H as <-. cbn. lia.
  - unfold bind in H. destruct (f t k) as [[kept|] k1]; [|discriminate].
    destruct (PathTrains.forEachTrain f l k1) as [[rest|] k2] eqn:E; [|discriminate].
    cbn in H. injection H as <-.
    specialize (IH k1 rest). rewrite E in IH. specialize (IH eq_refl).
    destruct kept; cbn; lia.
Qed.

(** The capacity ceilings hold as invariants.  An update never leaves
    more cars than the larger of the number before and the ceiling of the
    grid, which is at most 160; never more airplanes than the larger of
    the number before and 54; and, on mobile, never more path-following
    trains than the larger of the number before and 8.  A live set that
    starts within its ceiling therefore stays within it, whatever the
    grids, speeds and deltas of the calls. *)
Theorem live_sets_stay_within_ceilings :
  (forall rand step options pick colors (w : WorldRenderState) (delta : Q)
          (s : CarSystemState),
     maxCars (gridSize w) <= 160 /\
     Z.of_nat (length (cars (updateCars rand step options pick colors w delta s)))
     <= Z.max (Z.of_nat (length (cars s))) (maxCars (gridSize w))) /\
  (forall rand isMobile cos sin atan2 hypot pi tileW tileH minPopulation colors
          contrailAge contrailInterval toScreen airports
          (w : WorldRenderState) (v : Z) (delta : Q) (s : Aircraft.AircraftState),
     Z.of_nat (length (Aircraft.airplanes
                         (Aircraft.updateAirplanes rand isMobile cos sin atan2 hypot pi
                            tileW tileH minPopulation colors contrailAge
                            contrailInterval toScreen airports w v delta s)))
     <= Z.max (Z.of_nat (length (Aircraft.airplanes s))) 54) /\
  (forall rand minZoom colors findPath dirTo stations budget
          (w : WorldRenderState) (v : Z) (delta : Q)
          (s s' : PathTrains.TrainSystemState),
     PathTrains.updateTrains rand true minZoom colors findPath dirTo stations budget
       w v delta s = Some s' ->
     Z.of_nat (length (PathTrains.trains s'))
     <= Z.max (Z.of_nat (length (PathTrains.trains s))) 8).
Proof.
  split; [|split].
  - intros rand step options pickDir colors w delta s.
    split; [unfold maxCars; lia|].
    destruct (updateCars_cases w) as [Ha | (g & Hg & Hn)].
    + rewrite (updateCars_absent _ _ _ _ _ _ _ _ Ha). cbn. lia.
    + rewrite (updateCars_present _ _ _ _ _ _ _ _ _ Hg Hn). cbn [cars].
      pose proof (forEachAgent_length
                    (stepCar step pickDir g (gridSize w) (speedMultiplier (currentSpeed w)) delta)
                    (cars (carSpawnStep rand options colors w delta s))
                    (car_rng (carSpawnStep rand options colors w delta s))) as Hlen.
      assert (Hspawn : Z.of_nat (length (cars (carSpawnStep rand options colors w delta s)))
                       <= Z.max (Z.of_nat (length (cars s))) (maxCars (gridSize w))).
      { unfold carSpawnStep. cbn [cars].
        destruct (Z.of_nat (length (cars s)) <? maxCars (gridSize w)) eqn:C;
          cbn [andb]; [|cbn; lia].
        apply Z.ltb_lt in C.
        destruct (Qle_bool _ 0); [|cbn; lia].
        unfold spawnRandomCar. rewrite Hg. cbn [cars carId car_rng carSpawnTimer].
        destruct (gridSize w <=? 0); [cbn; lia|].
        destruct (spawnCarLoop _ _ _ _ _ _ _ _) as [[c|] k]; cbn.
        - rewrite length_app. cbn. lia.
        - lia. }
      lia.
  - intros. unfold Aircraft.updateAirplanes.
    destruct (grid w) as [g|]; [|lia].
    destruct ((gridSize w <=? 0) || (currentSpeed w =? 0)); [lia|].
    destruct (Aircraft.getPopulation g (gridSize w) v (Aircraft.cachedPopulation s))
      as [totalPopulation cache].
    destruct ((Z.of_nat (length (airports g (gridSize w))) =? 0) || _); [cbn; lia|].
    cbn [Aircraft.airplanes].
    match goal with
    | |- Z.of_nat (length (flat_map _ (Aircraft.airplanes ?s1))) <= _ =>
        set (st := s1)
    end.
    pose proof (flat_map_option_length
                  (Aircraft.stepAirplane isMobile cos sin atan2 hypot pi tileW tileH
                     contrailAge contrailInterval toScreen
                     (if currentSpeed w =? 1 then 1
                      else if currentSpeed w =? 2 then 3 # 2 else 2)%Q delta)
                  (Aircraft.airplanes st)) as Hlen.
    assert (Hspawn : Z.of_nat (length (Aircraft.airplanes st))
                     <= Z.max (Z.of_nat (length (Aircraft.airplanes s))) 54).
    { subst st.
      destruct (Z.of_nat (length (Aircraft.airplanes s))
                <? Aircraft.maxAirplanes totalPopulation) eqn:C; cbn [andb]; [|cbn; lia].
      apply Z.ltb_lt in C. unfold Aircraft.maxAirplanes in C.
      destruct (Qle_bool _ 0); [|cbn; lia].
      destruct (Aircraft.spawnAirplane _ _ _ _ _ _ _ _ _ _ _) as [plane k].
      destruct (Aircraft.random rand k) as [r k'].
      cbn. rewrite length_app. cbn. lia. }
    lia.
  - intros rand minZoom colors findPath dirTo stations budget w v delta s s'.
    unfold PathTrains.updateTrains.
    destruct (Qltb (zoom w) _); [intro H; injection H as <-; cbn; lia|].
    destruct (grid w) as [g|]; [|intro H; injection H as <-; cbn; lia].
    destruct (gridSize w <=? 0); [intro H; injection H as <-; cbn; lia|].
    destruct (PathTrains.railTileCountStep g (gridSize w) v _) as [railTileCount cache].
    cbn [PathTrains.trains PathTrains.trainId PathTrains.rng].
    match goal with
    | |- match ?sp with _ => _ end = _ -> _ => destruct sp as [s2|] eqn:Esp
    end; [|discriminate].
    destruct (PathTrains.forEachTrain _ _ _) as [[updated|] k] eqn:Eloop; [|discriminate].
    intro H. injection H as <-. cbn [PathTrains.trains].
    pose proof (PathTrains_forEachTrain_length _ _ _ updated
                  (f_equal fst Eloop)) as Hlen.
    assert (Hspawn : Z.of_nat (length (PathTrains.trains s2))
                     <= Z.max (Z.of_nat (length (PathTrains.trains s))) 8).
    { revert Esp.
      destruct (Z.of_nat (length (PathTrains.trains s))
                <? PathTrains.maxTrains true railTileCount) eqn:C; cbn [andb].
      2:{ intro H. injection H as <-. cbn. lia. }
      apply Z.ltb_lt in C. unfold PathTrains.maxTrains in C.
      destruct (Qle_bool _ 0).
      2:{ intro H. injection H as <-. cbn. lia. }
      destruct (PathTrains.spawnTrain _ _ _ _ _ _ _ _ _) as [[[] s3]|] eqn:Es;
        [| |discriminate].
      - destruct (PathTrains.random rand (PathTrains.rng s3)) as [r k'].
        intro H. injection H as <-. cbn [PathTrains.trains].
        revert Es. unfold PathTrains.spawnTrain.
        cbn [PathTrains.trains PathTrains.trainId PathTrains.rng
             PathTrains.trainSpawnTimer PathTrains.cachedRailTileCount].
        destruct (_ <? 2); [discriminate|].
        destruct (PathTrains.random rand _) as [r1 k1].
        destruct (PathTrains.random rand k1) as [r2 k2].
        destruct (PathTrains.redraw _ _ _ _ _ _) as [[idx|] k3]; [|discriminate].
        destruct (findPath g (gridSize w) _ _ _ _) as [[|c l]|]; try discriminate.
        destruct (PathTrains.random rand k3) as [r4 k4].
        destruct (PathTrains.random rand k4) as [r5 k5].
        destruct (PathTrains.random rand k5) as [r6 k6].
        destruct (PathTrains.random rand k6) as [r7 k7].
        intro H. injection H as <-. cbn. rewrite length_app. cbn. lia.
      - intro H. injection H as <-. cbn [PathTrains.trains].
        revert Es. unfold PathTrains.spawnTrain.
        cbn [PathTrains.trains PathTrains.trainId PathTrains.rng
             PathTrains.trainSpawnTimer PathTrains.cachedRailTileCount].
        destruct (_ <? 2); [intro H; injection H as <-; cbn; lia|].
        destruct (PathTrains.random rand _) as [r1 k1].
        destruct (PathTrains.random rand k1) as [r2 k2].
        destruct (PathTrains.redraw _ _ _ _ _ _) as [[idx|] k3]; [|discriminate].
        destruct (findPath g (gridSize w) _ _ _ _) as [[|c l]|];
          try (intro H; injection H as <-; cbn; lia).
        destruct (PathTrains.random rand k3) as [r4 k4].
        destruct (PathTrains.random rand k4) as [r5 k5].
        destruct (PathTrains.random rand k5) as [r6 k6].
        destruct (PathTrains.random rand k6) as [r7 k7].
        discriminate. }
    lia.
Qed.

(** ** The airplane life cycle *)

Section AirplaneLifeCycle.

Import Aircraft.

Variable rand : nat -> Q.
Variable isMobile : bool.
Variables cos sin : Q -> Q.
Variables atan2 hypot : Q -> Q -> Q.
Variable PI : Q.
Variables TILE_WIDTH TILE_HEIGHT : Q.
Variable AIRPLANE_MIN_POPULATION : Q.
Variable AIRPLANE_COLORS : list string.
Variables CONTRAIL_MAX_AGE CONTRAIL_SPAWN_INTERVAL : Q.
Variable gridToScreen : Z -> Z -> Q -> Q -> Q * Q.
Variable findAirports : Grid -> Z -> list Coord.

Let step := stepAirplane isMobile cos sin atan2 hypot PI TILE_WIDTH TILE_HEIGHT
              CONTRAIL_MAX_AGE CONTRAIL_SPAWN_INTERVAL gridToScreen.
Let update := updateAirplanes rand isMobile cos sin atan2 hypot PI TILE_WIDTH
                TILE_HEIGHT AIRPLANE_MIN_POPULATION AIRPLANE_COLORS CONTRAIL_MAX_AGE
                CONTRAIL_SPAWN_INTERVAL gridToScreen findAirports.

(** The order of the states an airplane passes through. *)
Definition stateRank (st : AirplaneState) : Z :=
  match st with
  | taking_off => 0
  | flying => 1
  | landing => 2
  | taxiing => 3
  end.

Lemma qmin_bounds (a b : Q) : (qmin a b <= a)%Q /\ (qmin a b <= b)%Q /\
                              (qmin a b == a \/ qmin a b == b)%Q.
Proof.
  unfold qmin. destruct (Qle_bool a b) eqn:E.
  - apply Qle_bool_iff in E. repeat split; [lra | exact E | left; reflexivity].
  - assert (b < a)%Q.
    { apply Qnot_le_lt. intro H. apply Qle_bool_iff in H. congruence. }
    repeat split; [lra | lra | right; reflexivity].
Qed.

Lemma qmax_bounds (a b : Q) : (a <= qmax a b)%Q /\ (b <= qmax a b)%Q /\
                              (qmax a b == a \/ qmax a b == b)%Q.
Proof.
  unfold qmax. destruct (Qle_bool a b) eqn:E.
  - apply Qle_bool_iff in E. repeat split; [exact E | lra | right; reflexivity].
  - assert (b < a)%Q.
    { apply Qnot_le_lt. intro H. apply Qle_bool_iff in H. congruence. }
    repeat split; [lra | lra | left; reflexivity].
Qed.

(** What the loop body keeps of an airplane it does not drop. *)
Lemma stepAirplane_kept (multiplier delta : Q) (plane plane' : Airplane) :
  step multiplier delta plane = Some plane' ->
  (0 <= delta)%Q ->
  id plane' = id plane /\
  (airportX plane', airportY plane') = (airportX plane, airportY plane) /\
  color plane' = color plane /\
  state plane' <> taxiing /\
  stateRank (state plane) <= stateRank (state plane') <= stateRank (state plane) + 1 /\
  ((0 <= altitude plane)%Q /\ (altitude plane <= 1)%Q ->
   (0 <= altitude plane')%Q /\ (altitude plane' <= 1)%Q) /\
  (state plane = taking_off -> state plane' = flying -> (altitude plane' == 1)%Q).
Proof.
  unfold step, stepAirplane. intros H Hd.
  destruct (if Qgtb (altitude plane) (7 # 10) then _ else _) as [sp contrail2].
  destruct (airportCenter _ _ _ _ _) as [acx acy].
  destruct (state plane) eqn:Est.
  - injection H as <-. cbn.
    destruct (qmin_bounds 1 (altitude plane + delta * (3 # 10))) as (B1 & B2 & B3).
    destruct (Qgeb (qmin 1 (altitude plane + delta * (3 # 10))) 1) eqn:E.
    + apply Qgeb_le in E. repeat split; try discriminate; cbn; try lia; try lra.
    + repeat split; try discriminate; cbn; try lia; try lra.
  - destruct (Qltb _ 400 && Qltb _ 10).
    + injection H as <-. cbn.
      repeat split; try discriminate; try lia; try (intros; assumption);
        try (match goal with H : _ /\ _ |- _ => destruct H; assumption end).
    + destruct (Qle_bool _ 0); [discriminate|].
      injection H as <-. cbn.
      repeat split; try discriminate; try lia; try (intros; assumption);
        try (match goal with H : _ /\ _ |- _ => destruct H; assumption end).
  - destruct (Qltb _ 50 || Qle_bool _ 0); [discriminate|].
    injection H as <-. cbn.
    destruct (qmax_bounds 0 (altitude plane - delta * (25 # 100))) as (B1 & B2 & B3).
    repeat split; try discriminate; try lia; try lra.
  - discriminate.
Qed.

(** An airplane that [updateAirplanes] pushes, before the loop of the
    same call moves it. *)
Lemma spawnAirplane_fresh (n : Z) (airports : list Coord) (nextId : Z) (k : nat) :
  let plane := fst (spawnAirplane rand atan2 PI TILE_WIDTH TILE_HEIGHT AIRPLANE_COLORS
                      gridToScreen n airports nextId k) in
  id plane = nextId /\
  ((state plane = taking_off /\ altitude plane = 0%Q) \/
   (state plane = flying /\ altitude plane = 1%Q)).
Proof.
  unfold spawnAirplane, bind, Aircraft.random, ret. cbn [fst snd].
  destruct (airportCenter _ _ _ _ _) as [acx acy].
  destruct (Qltb (rand (S k)) (1 # 2)); cbn [fst].
  - split; [reflexivity | left; split; reflexivity].
  - destruct (if _ =? 0 then _ else _) as [startX startY].
    cbn. split; [reflexivity | right; split; reflexivity].
Qed.

(** The flight envelope and the order of the life cycle.  Every airplane
    that is in the live set after an update with [delta >= 0] flies at an
    altitude within [[0, 1]], given that all did before; it carries the
    identifier, airport and colour of an airplane that was live before or
    of the one spawned in this call, and its state is the same or the next
    one in the order taking off, flying, landing.  An airplane never
    returns to an earlier state, and none in the taxiing state survives an
    update in which the loop runs. *)
Theorem airplanes_keep_flight_envelope :
  forall (w : WorldRenderState) (v : Z) (delta : Q) (s : AircraftState),
    (0 <= delta)%Q ->
    (forall p, In p (airplanes s) -> (0 <= altitude p)%Q /\ (altitude p <= 1)%Q) ->
    forall p', In p' (airplanes (update w v delta s)) ->
      ((0 <= altitude p')%Q /\ (altitude p' <= 1)%Q) /\
      (In p' (airplanes s) /\ update w v delta s = s \/
       state p' <> taxiing /\
       ((exists p, In p (airplanes s) /\ id p' = id p /\ color p' = color p /\
                   (airportX p', airportY p') = (airportX p, airportY p) /\
                   stateRank (state p) <= stateRank (state p')
                   <= stateRank (state p) + 1) \/
        (id p' = airplaneId s /\ stateRank (state p') <= 2))).
Proof.
  intros w v delta s Hd Hs p'. unfold update, updateAirplanes.
  destruct (grid w) as [g|]; [|intro H; split; [apply Hs; exact H | left; auto]].
  destruct ((gridSize w <=? 0) || (currentSpeed w =? 0));
    [intro H; split; [apply Hs; exact H | left; auto]|].
  destruct (getPopulation g (gridSize w) v (cachedPopulation s)) as [total cache].
  destruct ((Z.of_nat (length (findAirports g (gridSize w))) =? 0) || _);
    [intros []|].
  cbn [airplanes]. intro H. apply in_flat_map in H. destruct H as (p & Hp & Hstep).
  fold step in Hstep.
  destruct (step _ delta p) as [q|] eqn:E; [|contradiction].
  destruct Hstep as [<- | []].
  destruct (stepAirplane_kept _ _ _ _ E Hd)
    as (Hid & Hport & Hcol & Htaxi & Hrank & Halt & _).
  assert (Hsrc : In p (airplanes s) \/
                 (id p = airplaneId s /\
                  ((state p = taking_off /\ altitude p = 0%Q) \/
                   (state p = flying /\ altitude p = 1%Q)))).
  { revert Hp.
    destruct ((Z.of_nat (length (airplanes s)) <? maxAirplanes total) && Qle_bool _ 0);
      [|cbn; auto].
    pose proof (spawnAirplane_fresh (gridSize w) (findAirports g (gridSize w))
                  (airplaneId s) (rng s)) as Hfresh. cbn zeta in Hfresh.
    destruct (spawnAirplane _ _ _ _ _ _ _ _ _ _ _) as [plane k]. cbn [fst] in Hfresh.
    destruct (Aircraft.random rand k) as [r k']. cbn [airplanes].
    intro Hp. apply in_app_or in Hp. destruct Hp as [Hp | [<- | []]]; auto. }
  destruct Hsrc as [Hin | (Hnew & Hst)].
  - split; [apply Halt, Hs, Hin|]. right. split; [exact Htaxi|].
    left. exists p. auto.
  - split.
    + apply Halt. destruct Hst as [[_ ->] | [_ ->]]; split; discriminate.
    + right. split; [exact Htaxi|]. right. split; [congruence|].
      destruct (state q); cbn; try lia. contradiction.
Qed.

End AirplaneLifeCycle.

Lemma airplanes_keep_flight_envelope_witness :
  Forall (fun p => (0 <= Aircraft.altitude p)%Q /\ (Aircraft.altitude p <= 1)%Q)
    (Aircraft.airplanes
       (Aircraft.updateAirplanes zeroOracle false (fun _ => 0%Q) (fun _ => 0%Q)
          (fun _ _ => 0%Q) (fun _ _ => 1000%Q) (22 # 7) 64 32 0 sampleColors 2 (1 # 10)
          (fun _ _ _ _ => (0%Q, 0%Q)) (fun _ _ => [mkCoord 0 0]) runningCross 0 (1 # 10)
          (Aircraft.mkAircraftState [examplePlane] 1 100 (mkCache 0 (-1)) 0))).
Proof.
  apply Forall_forall. intros p' Hp'.
  apply (airplanes_keep_flight_envelope zeroOracle false (fun _ => 0%Q) (fun _ => 0%Q)
           (fun _ _ => 0%Q) (fun _ _ => 1000%Q) (22 # 7) 64 32 0 sampleColors 2 (1 # 10)
           (fun _ _ _ _ => (0%Q, 0%Q)) (fun _ _ => [mkCoord 0 0]) runningCross 0 (1 # 10)
           (Aircraft.mkAircraftState [examplePlane] 1 100 (mkCache 0 (-1)) 0)).
  - discriminate.
  - intros p [<- | []]. split; discriminate.
  - exact Hp'.
Defined.

(* ================================================================== *)
(** * Emergency vehicles ([useVehicles]: [dispatchEmergencyVehicle],
      [updateEmergencyVehicles]) *)
(* ================================================================== *)

Module EmergencyVehicles.

(** The literals the manager assigns to and tests on [vehicle.state]. *)
Inductive VehicleState := dispatching | responding | returning.

(** [vehicle.type] is compared with the literals ['fire_truck'] and
    ['police_car']. *)
Definition EmergencyVehicleType := string.

Definition isFireTruck (t : EmergencyVehicleType) : bool := String.eqb t "fire_truck".
Definition isPoliceCar (t : EmergencyVehicleType) : bool := String.eqb t "police_car".

Record EmergencyVehicle := mkEmergencyVehicle
  { id : Z;
    vtype : EmergencyVehicleType;
    tileX : Z; tileY : Z;
    direction : CarDirection;
    progress : Q;
    speed : Q;
    state : VehicleState;
    stationX : Z; stationY : Z;
    targetX : Z; targetY : Z;
    path : list Coord;
    pathIndex : Z;
    respondTime : Q;
    laneOffset : Q;
    flashTimer : Q }.

(** The key [`${x},${y}`] of an incident; on integer coordinates the
    string determines the pair. *)
Definition Key : Type := Z * Z.

Definition Key_eqb (a b : Key) : bool := (fst a =? fst b) && (snd a =? snd b).

Record Incident := mkIncident
  { inc_x : Z; inc_y : Z; inc_type : string; timeRemaining : Q }.

(** The incident registries: the sets [activeFiresRef] and
    [activeCrimesRef] and the map [activeCrimeIncidentsRef]. *)
Record Registries := mkRegistries
  { activeFires : list Key;
    activeCrimes : list Key;
    activeCrimeIncidents : list (Key * Incident) }.

(** [Set.prototype.delete] and [Map.prototype.delete] *)
Definition deleteKey (k : Key) (l : list Key) : list Key :=
  filter (fun k' => negb (Key_eqb k' k)) l.

Definition deleteEntry (k : Key) (l : list (Key * Incident)) : list (Key * Incident) :=
  filter (fun e => negb (Key_eqb (fst e) k)) l.

Record EmergencyState := mkEmergencyState
  { emergencyVehicles : list EmergencyVehicle;   (* emergencyVehiclesRef.current *)
    emergencyVehicleId : Z;                      (* emergencyVehicleIdRef.current *)
    emergencyDispatchTimer : Q;                  (* emergencyDispatchTimerRef.current *)
    registries : Registries }.

Definition targetKey (v : EmergencyVehicle) : Key := (targetX v, targetY v).

(** The release that ends in [continue]: a fire truck frees its fire, any
    other vehicle its crime and, where the source deletes it there, the
    crime incident. *)
Definition release (withIncident : bool) (v : EmergencyVehicle) (r : Registries)
  : Registries :=
  if isFireTruck (vtype v) then
    mkRegistries (deleteKey (targetKey v) (activeFires r)) (activeCrimes r)
      (activeCrimeIncidents r)
  else
    mkRegistries (activeFires r) (deleteKey (targetKey v) (activeCrimes r))
      (if withIncident then deleteEntry (targetKey v) (activeCrimeIncidents r)
       else activeCrimeIncidents r).

Definition pathAt (l : list Coord) (i : Z) : Coord := pick l i (mkCoord 0 0).
Definition pathLength (v : EmergencyVehicle) : Z := Z.of_nat (length (path v)).

Definition setFlash (v : EmergencyVehicle) (f : Q) : EmergencyVehicle :=
  mkEmergencyVehicle (id v) (vtype v) (tileX v) (tileY v) (direction v) (progress v)
    (speed v) (state v) (stationX v) (stationY v) (targetX v) (targetY v) (path v)
    (pathIndex v) (respondTime v) (laneOffset v) f.

Definition setRespondTime (v : EmergencyVehicle) (t : Q) : EmergencyVehicle :=
  mkEmergencyVehicle (id v) (vtype v) (tileX v) (tileY v) (direction v) (progress v)
    (speed v) (state v) (stationX v) (stationY v) (targetX v) (targetY v) (path v)
    (pathIndex v) t (laneOffset v) (flashTimer v).

Definition setProgress (v : EmergencyVehicle) (p : Q) : EmergencyVehicle :=
  mkEmergencyVehicle (id v) (vtype v) (tileX v) (tileY v) (direction v) p
    (speed v) (state v) (stationX v) (stationY v) (targetX v) (targetY v) (path v)
    (pathIndex v) (respondTime v) (laneOffset v) (flashTimer v).

(** [state = 'responding'; respondTime = 0; progress = 0] *)
Definition arrive (v : EmergencyVehicle) : EmergencyVehicle :=
  mkEmergencyVehicle (id v) (vtype v) (tileX v) (tileY v) (direction v) 0
    (speed v) responding (stationX v) (stationY v) (targetX v) (targetY v) (path v)
    (pathIndex v) 0 (laneOffset v) (flashTimer v).

(** The loop's [pathIndex++], [progress -= 1], tile and direction
    assignments. *)
Definition advance (v : EmergencyVehicle) (x y : Z) (d : CarDirection) (p : Q) (i : Z)
  : EmergencyVehicle :=
  mkEmergencyVehicle (id v) (vtype v) x y d p
    (speed v) (state v) (stationX v) (stationY v) (targetX v) (targetY v) (path v)
    i (respondTime v) (laneOffset v) (flashTimer v).

Section Manager.

Variable findPathOnRoads : Grid -> Z -> Z -> Z -> Z -> Z -> option (list Coord).
Variable getDirectionToTile : Z -> Z -> Z -> Z -> option CarDirection.

(** The callback [updateEmergencyDispatch] that the caller passes in; it
    may dispatch vehicles and edit the registries. *)
Variable updateEmergencyDispatch : EmergencyState -> EmergencyState.

Definition turnTowards (current : CarDirection) (fromX fromY toX toY : Z)
  : CarDirection :=
  match getDirectionToTile fromX fromY toX toY with
  | Some dir => dir
  | None => current
  end.

(** [dispatchEmergencyVehicle]: the result is [true] exactly when a
    vehicle was pushed. *)
Definition dispatchEmergencyVehicle (w : WorldRenderState)
    (type : EmergencyVehicleType) (stationX0 stationY0 targetX0 targetY0 : Z)
    (s : EmergencyState) : bool * EmergencyState :=
  match grid w with
  | None => (false, s)
  | Some currentGrid =>
      if gridSize w <=? 0 then (false, s)
      else
        match findPathOnRoads currentGrid (gridSize w)
                stationX0 stationY0 targetX0 targetY0 with
        | None => (false, s)
        | Some [] => (false, s)
        | Some p =>
            let startTile := pathAt p 0 in
            let direction :=
              if Z.of_nat (length p) >=? 2 then
                let nextTile := pathAt p 1 in
                turnTowards south (cx startTile) (cy startTile)
                  (cx nextTile) (cy nextTile)
              else south in
            let vehicle :=
              {| id := emergencyVehicleId s;
                 vtype := type;
                 tileX := cx startTile;
                 tileY := cy startTile;
                 direction := direction;
                 progress := 0;
                 speed := if isFireTruck type then 8 # 10 else 9 # 10;
                 state := dispatching;
                 stationX := stationX0; stationY := stationY0;
                 targetX := targetX0; targetY := targetY0;
                 path := p;
                 pathIndex := 0;
                 respondTime := 0;
                 laneOffset := 0;
                 flashTimer := 0 |} in
            (true, mkEmergencyState (emergencyVehicles s ++ [vehicle])
                     (emergencyVehicleId s + 1) (emergencyDispatchTimer s)
                     (registries s))
        end
  end.

(** The branch [if (vehicle.state === 'responding')] of the loop body.
    [None] is [continue] without the push. *)
Definition respond (currentGrid : Grid) (currentGridSize : Z) (multiplier delta : Q)
    (vehicle : EmergencyVehicle) (r : Registries)
  : option EmergencyVehicle * Registries :=
  if negb (isRoadTile currentGrid currentGridSize (tileX vehicle) (tileY vehicle)) then
    (None, release true vehicle r)
  else
    let vehicle := setRespondTime vehicle (respondTime vehicle + delta * multiplier)%Q in
    let respondDuration : Q := (if isFireTruck (vtype vehicle) then 8 else 5)%Q in
    if Qgeb (respondTime vehicle) respondDuration then
      let r1 :=
        if isPoliceCar (vtype vehicle) then
          mkRegistries (activeFires r) (activeCrimes r)
            (deleteEntry (targetKey vehicle) (activeCrimeIncidents r))
        else r in
      match findPathOnRoads currentGrid currentGridSize
              (tileX vehicle) (tileY vehicle) (stationX vehicle) (stationY vehicle) with
      | Some (first :: nextTile :: rest) =>
          let returnPath := first :: nextTile :: rest in
          (Some (mkEmergencyVehicle (id vehicle) (vtype vehicle)
                   (tileX vehicle) (tileY vehicle)
                   (turnTowards (direction vehicle) (tileX vehicle) (tileY vehicle)
                      (cx nextTile) (cy nextTile))
                   0 (speed vehicle) returning
                   (stationX vehicle) (stationY vehicle)
                   (targetX vehicle) (targetY vehicle)
                   returnPath 0 (respondTime vehicle) (laneOffset vehicle)
                   (flashTimer vehicle)),
           r1)
      | _ => (None, release false vehicle r1)
      end
    else (Some vehicle, r).

(** [while (vehicle.progress >= 1 && vehicle.pathIndex < vehicle.path.length - 1)].
    Every pass that stays in the loop moves [pathIndex] one step towards
    the end of the path, so [stepsLeft], the distance of [pathIndex] from
    the last index, bounds the passes.  The result is the vehicle and
    [shouldRemove]. *)
Fixpoint drive (stepsLeft : nat) (currentGridSize : Z) (vehicle : EmergencyVehicle)
  : EmergencyVehicle * bool :=
  match stepsLeft with
  | O => (vehicle, false)
  | S n =>
      if Qgeb (progress vehicle) 1 && (pathIndex vehicle <? pathLength vehicle - 1) then
        let i := pathIndex vehicle + 1 in
        let p := (progress vehicle - 1)%Q in
        let currentTile := pathAt (path vehicle) i in
        if (cx currentTile <? 0) || (cx currentTile >=? currentGridSize) ||
           (cy currentTile <? 0) || (cy currentTile >=? currentGridSize)
        then (advance vehicle (tileX vehicle) (tileY vehicle) (direction vehicle) p i, true)
        else
          let vehicle1 :=
            advance vehicle (cx currentTile) (cy currentTile) (direction vehicle) p i in
          if i >=? pathLength vehicle1 - 1 then
            match state vehicle1 with
            | dispatching => (arrive vehicle1, false)
            | returning => (vehicle1, true)
            | responding => (vehicle1, false)
            end
          else
            let vehicle2 :=
              if i + 1 <? pathLength vehicle1 then
                let nextTile := pathAt (path vehicle1) (i + 1) in
                advance vehicle1 (tileX vehicle1) (tileY vehicle1)
                  (turnTowards (direction vehicle1) (tileX vehicle1) (tileY vehicle1)
                     (cx nextTile) (cy nextTile))
                  p i
              else vehicle1 in
            drive n currentGridSize vehicle2
      else (vehicle, false)
  end.

Definition stepsToEnd (v : EmergencyVehicle) : nat :=
  Z.to_nat (pathLength v - 1 - pathIndex v).

Definition isResponding (v : EmergencyVehicle) : bool :=
  match state v with responding => true | _ => false end.

Definition isDispatching (v : EmergencyVehicle) : bool :=
  match state v with dispatching => true | _ => false end.

(** The body of [for (const vehicle of [...emergencyVehiclesRef.current])]. *)
Definition stepVehicle (currentGrid : Grid) (currentGridSize : Z)
    (multiplier delta : Q) (vehicle0 : EmergencyVehicle) (r : Registries)
  : option EmergencyVehicle * Registries :=
  let vehicle := setFlash vehicle0 (flashTimer vehicle0 + delta * 8)%Q in
  if isResponding vehicle then
    respond currentGrid currentGridSize multiplier delta vehicle r
  else if negb (isRoadTile currentGrid currentGridSize (tileX vehicle) (tileY vehicle))
  then (None, release true vehicle r)
  else if (tileX vehicle <? 0) || (tileX vehicle >=? currentGridSize) ||
          (tileY vehicle <? 0) || (tileY vehicle >=? currentGridSize)
  then (None, release true vehicle r)
  else
    let vehicle :=
      setProgress vehicle (progress vehicle + speed vehicle * delta * multiplier)%Q in
    if (pathLength vehicle =? 1) && isDispatching vehicle then
      (Some (arrive vehicle), r)
    else
      let (vehicle, shouldRemove) :=
        drive (stepsToEnd vehicle) currentGridSize vehicle in
      if shouldRemove then (None, release true vehicle r)
      else (Some vehicle, r).

(** The loop over the vehicles, with the registries threaded through. *)
Fixpoint forEachVehicle (f : EmergencyVehicle -> Registries ->
                             option EmergencyVehicle * Registries)
    (l : list EmergencyVehicle) (r : Registries)
  : list EmergencyVehicle * Registries :=
  match l with
  | [] => ([], r)
  | v :: rest =>
      let (kept, r1) := f v r in
      let (rest', r2) := forEachVehicle f rest r1 in
      (match kept with Some v' => v' :: rest' | None => rest' end, r2)
  end.

(** The first statements of [updateEmergencyVehicles]: the dispatch timer
    is decremented and, when it has run out, the dispatch callback runs
    and the timer is reset to 1.5. *)
Definition afterDispatch (delta : Q) (s : EmergencyState) : EmergencyState :=
  let timer := (emergencyDispatchTimer s - delta)%Q in
  let s0 := mkEmergencyState (emergencyVehicles s) (emergencyVehicleId s) timer
              (registries s) in
  if Qle_bool timer 0 then
    let s' := updateEmergencyDispatch s0 in
    mkEmergencyState (emergencyVehicles s') (emergencyVehicleId s') (15 # 10)
      (registries s')
  else s0.

Definition updateEmergencyVehicles (w : WorldRenderState) (delta : Q)
    (s : EmergencyState) : EmergencyState :=
  match grid w with
  | None => mkEmergencyState [] (emergencyVehicleId s) (emergencyDispatchTimer s)
              (registries s)
  | Some currentGrid =>
      if gridSize w <=? 0 then
        mkEmergencyState [] (emergencyVehicleId s) (emergencyDispatchTimer s)
          (registries s)
      else
        let s1 := afterDispatch delta s in
        let (updatedVehicles, r) :=
          forEachVehicle
            (stepVehicle currentGrid (gridSize w) (speedMultiplier (currentSpeed w)) delta)
            (emergencyVehicles s1) (registries s1) in
        mkEmergencyState updatedVehicles (emergencyVehicleId s1)
          (emergencyDispatchTimer s1) r
  end.

End Manager.

End EmergencyVehicles.

(** ** Properties of the emergency vehicles *)

Section EmergencyVehicleProperties.

Import EmergencyVehicles.

Variable findPathOnRoads : Grid -> Z -> Z -> Z -> Z -> Z -> option (list Coord).
Variable getDirectionToTile : Z -> Z -> Z -> Z -> option CarDirection.
Variable updateEmergencyDispatch : EmergencyState -> EmergencyState.

Let step := stepVehicle findPathOnRoads getDirectionToTile.
Let update := updateEmergencyVehicles findPathOnRoads getDirectionToTile
                updateEmergencyDispatch.

(** The order of the states a vehicle passes through. *)
Definition vehicleRank (st : VehicleState) : Z :=
  match st with
  | dispatching => 0
  | responding => 1
  | returning => 2
  end.

(** The registries only lose entries. *)
Definition shrunk (r r' : Registries) : Prop :=
  incl (activeFires r') (activeFires r) /\
  incl (activeCrimes r') (activeCrimes r) /\
  incl (activeCrimeIncidents r') (activeCrimeIncidents r).

(** The incident a vehicle was sent to is no longer claimed: its key is
    gone from the registry of the vehicle's kind. *)
Definition released (v : EmergencyVehicle) (r : Registries) : Prop :=
  if isFireTruck (vtype v) then ~ In (targetKey v) (activeFires r)
  else ~ In (targetKey v) (activeCrimes r).

(** What a vehicle keeps for life. *)
Definition sameVehicle (v v' : EmergencyVehicle) : Prop :=
  id v' = id v /\ vtype v' = vtype v /\ speed v' = speed v /\
  (stationX v', stationY v') = (stationX v, stationY v) /\
  (targetX v', targetY v') = (targetX v, targetY v).

Lemma shrunk_refl (r : Registries) : shrunk r r.
Proof. repeat split; apply incl_refl. Qed.

Lemma shrunk_trans (r1 r2 r3 : Registries) : shrunk r1 r2 -> shrunk r2 r3 -> shrunk r1 r3.
Proof.
  intros (A1 & B1 & C1) (A2 & B2 & C2).
  repeat split; eapply incl_tran; eassumption.
Qed.

Lemma deleteKey_incl (k : Key) (l : list Key) : incl (deleteKey k l) l.
Proof. intros x Hx. apply filter_In in Hx. apply Hx. Qed.

Lemma deleteEntry_incl (k : Key) (l : list (Key * Incident)) : incl (deleteEntry k l) l.
Proof. intros x Hx. apply filter_In in Hx. apply Hx. Qed.

Lemma deleteKey_gone (k : Key) (l : list Key) : ~ In k (deleteKey k l).
Proof.
  intro H. apply filter_In in H. destruct H as [_ H].
  unfold Key_eqb in H. rewrite !Z.eqb_refl in H. discriminate.
Qed.

Lemma release_shrunk (b : bool) (v : EmergencyVehicle) (r : Registries) :
  shrunk r (release b v r).
Proof.
  unfold release, shrunk. destruct (isFireTruck (vtype v)); cbn.
  - repeat split; try apply incl_refl. apply deleteKey_incl.
  - repeat split; try apply incl_refl; [apply deleteKey_incl|].
    destruct b; [apply deleteEntry_incl | apply incl_refl].
Qed.

Lemma release_released (b : bool) (v : EmergencyVehicle) (r : Registries) :
  released v (release b v r).
Proof.
  unfold release, released. destruct (isFireTruck (vtype v)); cbn; apply deleteKey_gone.
Qed.

Lemma released_shrunk (v : EmergencyVehicle) (r r' : Registries) :
  released v r -> shrunk r r' -> released v r'.
Proof.
  unfold released. intros H (A & B & _).
  destruct (isFireTruck (vtype v)); intro Hin; apply H; [apply A | apply B]; exact Hin.
Qed.

Lemma released_same (v v' : EmergencyVehicle) (r : Registries) :
  vtype v' = vtype v -> targetKey v' = targetKey v -> released v' r -> released v r.
Proof. unfold released. intros -> ->. auto. Qed.

Lemma sameVehicle_trans (a b c : EmergencyVehicle) :
  sameVehicle a b -> sameVehicle b c -> sameVehicle a c.
Proof.
  unfold sameVehicle. intros (A1 & A2 & A3 & A4 & A5) (B1 & B2 & B3 & B4 & B5).
  repeat split; congruence.
Qed.

Lemma released_sameVehicle (v v' : EmergencyVehicle) (r : Registries) :
  sameVehicle v v' -> released v' r -> released v r.
Proof.
  intros (_ & Ht & _ & _ & Hk). apply released_same; [exact Ht|].
  unfold targetKey. exact Hk.
Qed.

Lemma drive_frame (n : nat) (N : Z) :
  forall (v v' : EmergencyVehicle) (b : bool),
    drive getDirectionToTile n N v = (v', b) ->
    sameVehicle v v' /\ flashTimer v' = flashTimer v /\
    vehicleRank (state v) <= vehicleRank (state v') <= vehicleRank (state v) + 1.
Proof.
  induction n as [|n IH]; intros v v' b H; cbn [drive] in H.
  - injection H as <- <-. unfold sameVehicle. repeat split; lia.
  - destruct (Qgeb (progress v) 1 && (pathIndex v <? pathLength v - 1)).
    2:{ injection H as <- <-. unfold sameVehicle. repeat split; lia. }
    destruct ((cx _ <? 0) || _ || _ || _).
    { injection H as <- <-. unfold sameVehicle. cbn. repeat split; lia. }
    destruct (_ >=? _).
    + cbn [state advance] in H.
      destruct (state v) eqn:Est; injection H as <- <-; unfold sameVehicle; cbn;
        rewrite ?Est; cbn; repeat split; lia.
    + apply IH in H. destruct H as (Hs & Hf & Hr).
      destruct (_ <? _); cbn in Hs, Hf, Hr; unfold sameVehicle in *; cbn in *;
        repeat split; try apply Hs; try lia; assumption.
Qed.

(** One pass of the loop: a vehicle that is kept is the same vehicle, in
    the same state or the next; one that is dropped has released its
    incident; the registries only lose entries. *)
Lemma stepVehicle_cases (g : Grid) (N : Z) (mult delta : Q) (v : EmergencyVehicle)
    (r : Registries) :
  let res := step g N mult delta v r in
  shrunk r (snd res) /\
  match fst res with
  | Some v' =>
      sameVehicle v v' /\
      vehicleRank (state v) <= vehicleRank (state v') <= vehicleRank (state v) + 1
  | None => released v (snd res)
  end.
Proof.
  unfold step, stepVehicle. cbn zeta.
  set (v0 := setFlash v (flashTimer v + delta * 8)%Q).
  assert (Hv0 : sameVehicle v v0 /\ state v0 = state v) by (repeat split).
  destruct Hv0 as [Hsame0 Hst0].
  assert (Hrel : forall b r0, released v (release b v0 r0)).
  { intros b r0. apply (released_same v v0); [reflexivity | reflexivity |].
    apply release_released. }
  unfold isResponding. rewrite Hst0.
  destruct (state v) eqn:Est.
  - (* dispatching *)
    destruct (negb (isRoadTile g N (tileX v0) (tileY v0))).
    { cbn. split; [apply release_shrunk | apply Hrel]. }
    destruct ((tileX v0 <? 0) || _ || _ || _).
    { cbn. split; [apply release_shrunk | apply Hrel]. }
    destruct ((pathLength _ =? 1) && isDispatching _).
    { cbn. split; [apply shrunk_refl|]. unfold sameVehicle. repeat split; lia. }
    destruct (drive getDirectionToTile _ N _) as [v1 b] eqn:Ed.
    apply drive_frame in Ed. try unfold v0 in Ed.
    cbn [state setProgress setFlash] in Ed. rewrite Est in Ed.
    destruct Ed as (Hs & _ & Hr).
    assert (Hs' : sameVehicle v v1).
    { eapply sameVehicle_trans; [|exact Hs]. repeat split. }
    destruct b; cbn.
    + split; [apply release_shrunk|].
      apply (released_sameVehicle v v1 _ Hs'). apply release_released.
    + split; [apply shrunk_refl | split; [exact Hs' | exact Hr]].
  - (* responding *)
    unfold respond.
    destruct (negb (isRoadTile g N (tileX v0) (tileY v0))).
    { cbn. split; [apply release_shrunk | apply Hrel]. }
    destruct (Qgeb _ _).
    2:{ cbn. split; [apply shrunk_refl|]. unfold sameVehicle. cbn.
        rewrite Est. cbn. repeat split; lia. }
    set (v1 := setRespondTime v0 _).
    set (r1 := if isPoliceCar (vtype v1) then _ else r).
    assert (Hr1 : shrunk r r1).
    { subst r1. destruct (isPoliceCar (vtype v1)); [|apply shrunk_refl].
      repeat split; cbn; try apply incl_refl. apply deleteEntry_incl. }
    assert (Hdrop : shrunk r (release false v1 r1) /\ released v (release false v1 r1)).
    { split; [eapply shrunk_trans; [exact Hr1 | apply release_shrunk]|].
      apply (released_same v v1); [reflexivity | reflexivity | apply release_released]. }
    destruct (findPathOnRoads g N _ _ _ _) as [[|first [|nextTile rest]]|];
      cbn [fst snd]; try exact Hdrop.
    split; [exact Hr1|]. unfold sameVehicle. cbn. repeat split; lia.
  - (* returning *)
    destruct (negb (isRoadTile g N (tileX v0) (tileY v0))).
    { cbn. split; [apply release_shrunk | apply Hrel]. }
    destruct ((tileX v0 <? 0) || _ || _ || _).
    { cbn. split; [apply release_shrunk | apply Hrel]. }
    unfold isDispatching, v0. cbn [state setProgress setFlash]. rewrite Est.
    rewrite andb_false_r.
    destruct (drive getDirectionToTile _ N _) as [v1 b] eqn:Ed.
    apply drive_frame in Ed. try unfold v0 in Ed.
    cbn [state setProgress setFlash] in Ed. rewrite Est in Ed.
    destruct Ed as (Hs & _ & Hr).
    assert (Hs' : sameVehicle v v1).
    { eapply sameVehicle_trans; [|exact Hs]. repeat split. }
    destruct b; cbn.
    + split; [apply release_shrunk|].
      apply (released_sameVehicle v v1 _ Hs'). apply release_released.
    + split; [apply shrunk_refl | split; [exact Hs' | exact Hr]].
Qed.

Lemma forEachVehicle_cases (f : EmergencyVehicle -> Registries ->
                                option EmergencyVehicle * Registries)
    (P : EmergencyVehicle -> EmergencyVehicle -> Prop) :
  (forall v r, shrunk r (snd (f v r)) /\
               match fst (f v r) with
               | Some v' => P v v'
               | None => released v (snd (f v r))
               end) ->
  forall (l : list EmergencyVehicle) (r : Registries),
    let res := forEachVehicle f l r in
    shrunk r (snd res) /\
    (forall v', In v' (fst res) -> exists v, In v l /\ P v v') /\
    (forall v, In v l ->
       (exists v', In v' (fst res) /\ P v v') \/ released v (snd res)).
Proof.
  intro Hf. induction l as [|v l IH]; intro r; cbn [forEachVehicle].
  - cbn. split; [apply shrunk_refl|]. split; intros ? [].
  - specialize (Hf v r). destruct (f v r) as [kept r1]. cbn [fst snd] in Hf.
    destruct Hf as [Hsh Hkept].
    specialize (IH r1). cbn zeta in IH.
    destruct (forEachVehicle f l r1) as [rest r2]. cbn [fst snd] in *.
    destruct IH as (Hsh' & Hback & Hforw).
    split; [eapply shrunk_trans; eassumption|]. split.
    + intros v' Hv'. destruct kept as [v1|].
      * destruct Hv' as [<- | Hv'].
        -- exists v. split; [left; reflexivity | exact Hkept].
        -- destruct (Hback _ Hv') as (v0 & Hin & HP). exists v0. split; [right|]; assumption.
      * destruct (Hback _ Hv') as (v0 & Hin & HP). exists v0. split; [right|]; assumption.
    + intros v0 [<- | Hin].
      * destruct kept as [v1|].
        -- left. exists v1. split; [left; reflexivity | exact Hkept].
        -- right. eapply released_shrunk; eassumption.
      * destruct (Hforw _ Hin) as [(v' & Hv' & HP) | Hrel].
        -- left. exists v'. split; [|exact HP]. destruct kept; [right|]; exact Hv'.
        -- right. exact Hrel.
Qed.

(** No vehicle disappears without releasing its incident, as long as a
    grid is loaded.  Of the vehicles with which the loop of an update
    starts, each is either still in the live set afterwards, as the same
    vehicle (identifier, kind, speed, station, target) in the same state
    or the next one of dispatching, responding, returning, or the key of
    its target is gone from the registry of its kind: [activeFires] for a
    fire truck, [activeCrimes] for any other vehicle.  Every vehicle of
    the live set afterwards comes from one of those, and the registries
    only lose entries in the loop.  With no grid loaded the live set is
    emptied and the registries are left as they were. *)
Theorem emergency_vehicles_release_their_incident :
  forall (w : WorldRenderState) (delta : Q) (s : EmergencyState),
    let s1 := afterDispatch updateEmergencyDispatch delta s in
    let s' := update w delta s in
    let kept v v' :=
      sameVehicle v v' /\
      vehicleRank (state v) <= vehicleRank (state v') <= vehicleRank (state v) + 1 in
    (gridPresent w ->
     shrunk (registries s1) (registries s') /\
     (forall v', In v' (emergencyVehicles s') ->
        exists v, In v (emergencyVehicles s1) /\ kept v v') /\
     (forall v, In v (emergencyVehicles s1) ->
        (exists v', In v' (emergencyVehicles s') /\ kept v v') \/
        released v (registries s'))) /\
    (grid w = None \/ gridSize w <= 0 ->
     emergencyVehicles s' = [] /\ registries s' = registries s).
Proof.
  intros w delta s s1 s' kept. subst s'. unfold update, updateEmergencyVehicles.
  split.
  - intros (g & Hg & Hn). rewrite Hg. apply Z.leb_gt in Hn. rewrite Hn.
    fold s1.
    pose proof (forEachVehicle_cases
                  (step g (gridSize w) (speedMultiplier (currentSpeed w)) delta)
                  kept
                  (fun v r => stepVehicle_cases g (gridSize w)
                                (speedMultiplier (currentSpeed w)) delta v r)
                  (emergencyVehicles s1) (registries s1)) as H.
    cbn zeta in H. fold step.
    destruct (forEachVehicle _ (emergencyVehicles s1) (registries s1)) as [updated r].
    exact H.
  - intro H. destruct (grid w) as [g|]; [|split; reflexivity].
    destruct H as [H | H]; [discriminate|].
    apply Z.leb_le in H. rewrite H. split; reflexivity.
Qed.







End EmergencyVehicleProperties.

(** A stand-in for [getDirectionToTile] of the utilities module in the
    examples: the direction of a neighbouring tile under the adjacency
    that [analyzeRoadNetwork] uses, and none for any other tile. *)
Definition exampleDirectionToTile (fromX fromY toX toY : Z) : option CarDirection :=
  if (toX =? fromX - 1) && (toY =? fromY) then Some north
  else if (toX =? fromX + 1) && (toY =? fromY) then Some south
  else if (toX =? fromX) && (toY =? fromY - 1) then Some east
  else if (toX =? fromX) && (toY =? fromY + 1) then Some west
  else None.

Definition exampleUpdateEmergencyVehicles :=
  EmergencyVehicles.updateEmergencyVehicles Pathfinding.findPathOnRoads
    exampleDirectionToTile (fun s => s).

(** A fire truck dispatched from the station at [(0,0)] of the straight
    road to the fire at [(2,0)]. *)
Definition exampleDispatched : EmergencyVehicles.EmergencyState :=
  snd (EmergencyVehicles.dispatchEmergencyVehicle Pathfinding.findPathOnRoads
         exampleDirectionToTile runningRow "fire_truck"%string 0 0 2 0
         (EmergencyVehicles.mkEmergencyState [] 0 100
            (EmergencyVehicles.mkRegistries [(2, 0)] [] []))).

Fixpoint exampleEmergencyRun (n : nat) (s : EmergencyVehicles.EmergencyState)
  : EmergencyVehicles.EmergencyState :=
  match n with
  | O => s
  | S k => exampleEmergencyRun k (exampleUpdateEmergencyVehicles runningRow 1 s)
  end.

(** The truck reaches the fire in the third update, is done after eight
    seconds on the scene, drives back, and when it is removed at its
    station the fire is released. *)
Example emergency_vehicle_round_trip :
  map (fun v => (EmergencyVehicles.tileX v, EmergencyVehicles.state v))
      (EmergencyVehicles.emergencyVehicles (exampleEmergencyRun 3 exampleDispatched))
  = [(2, EmergencyVehicles.responding)] /\
  map (fun v => (EmergencyVehicles.tileX v, EmergencyVehicles.state v))
      (EmergencyVehicles.emergencyVehicles (exampleEmergencyRun 11 exampleDispatched))
  = [(2, EmergencyVehicles.returning)] /\
  EmergencyVehicles.activeFires
    (EmergencyVehicles.registries (exampleEmergencyRun 11 exampleDispatched)) = [(2, 0)] /\
  EmergencyVehicles.emergencyVehicles (exampleEmergencyRun 14 exampleDispatched) = [] /\
  EmergencyVehicles.activeFires
    (EmergencyVehicles.registries (exampleEmergencyRun 14 exampleDispatched)) = [].
Proof. repeat split; vm_compute; reflexivity. Qed.


(* ================================================================== *)
(** * Building footprints ([isPartOfMultiTileBuildingFn],
      [findBuildingOriginFn], [isPartOfParkBuildingFn]) *)
(* ================================================================== *)

Module BuildingHelpers.

Record BuildingOrigin := mkBuildingOrigin
  { originX : Z; originY : Z; buildingType : BuildingType }.

(** The offsets of [for (dy = 0 .. 3) for (dx = 0 .. 3)] ([maxSize = 4]),
    in the order in which the loops visit them. *)
Definition footprintOffsets : list (Z * Z) :=
  flat_map (fun dy => map (fun dx => (dx, dy)) [0; 1; 2; 3]) [0; 1; 2; 3].

(** [originX >= 0 && originX < gridSize && originY >= 0 && originY < gridSize] *)
Definition inGrid (gridSize x y : Z) : bool :=
  (x >=? 0) && (x <? gridSize) && (y >=? 0) && (y <? gridSize).

(** [gridX >= originX && gridX < originX + width &&
     gridY >= originY && gridY < originY + height] *)
Definition covers (ox oy : Z) (size : Z * Z) (x y : Z) : bool :=
  (x >=? ox) && (x <? ox + fst size) && (y >=? oy) && (y <? oy + snd size).

(** [size.width > 1 || size.height > 1] *)
Definition isMultiTile (size : Z * Z) : bool := (fst size >? 1) || (snd size >? 1).

(** The tile types that [findBuildingOriginFn] does not take for a
    building. *)
Definition isGround (t : BuildingType) : bool :=
  String.eqb t "empty" || String.eqb t "grass" || String.eqb t "water" ||
  String.eqb t "road" || String.eqb t "tree".

Definition PARK_BUILDINGS_LIST : list BuildingType :=
  [ "park_large"; "baseball_field_small"; "football_field";
    "mini_golf_course"; "go_kart_track"; "amphitheater"; "greenhouse_garden";
    "marina_docks_small"; "roller_coaster_small"; "mountain_lodge";
    "playground_large"; "mountain_trailhead" ]%string.

(** [parkBuildingsSet.has(type)] for the set built from the list. *)
Definition isParkBuilding (t : BuildingType) : bool :=
  existsb (String.eqb t) PARK_BUILDINGS_LIST.

(** The first result of a loop that returns from its body. *)
Fixpoint firstSome {A B : Type} (f : A -> option B) (l : list A) : option B :=
  match l with
  | [] => None
  | a :: rest => match f a with
                 | Some b => Some b
                 | None => firstSome f rest
                 end
  end.

Section Helpers.

(** [getBuildingSize] of the simulation library, which is not among the
    sources: the width and the height of a building type. *)
Variable getBuildingSize : BuildingType -> Z * Z.

(** The tile at an origin candidate, when the candidate is in the grid. *)
Definition originTile (grid : Grid) (gridSize ox oy : Z) : option Tile :=
  if inGrid gridSize ox oy then tileAt grid ox oy else None.

Definition isPartOfMultiTileBuildingFn (grid : Grid) (gridSize gridX gridY : Z) : bool :=
  existsb
    (fun d =>
       let ox := gridX - fst d in
       let oy := gridY - snd d in
       match originTile grid gridSize ox oy with
       | Some tile =>
           let buildingSize := getBuildingSize (type (building tile)) in
           isMultiTile buildingSize && covers ox oy buildingSize gridX gridY
       | None => false
       end)
    footprintOffsets.

Definition findBuildingOriginFn (grid : Grid) (gridSize gridX gridY : Z)
  : option BuildingOrigin :=
  match tileAt grid gridX gridY with
  | None => None
  | Some tile =>
      let t := type (building tile) in
      if negb (isGround t) then
        if isMultiTile (getBuildingSize t) then Some (mkBuildingOrigin gridX gridY t)
        else None
      else if String.eqb t "empty" then
        firstSome
          (fun d =>
             let ox := gridX - fst d in
             let oy := gridY - snd d in
             match originTile grid gridSize ox oy with
             | Some origin =>
                 let ot := type (building origin) in
                 if negb (isGround ot) && isMultiTile (getBuildingSize ot) &&
                    covers ox oy (getBuildingSize ot) gridX gridY
                 then Some (mkBuildingOrigin ox oy ot)
                 else None
             | None => None
             end)
          footprintOffsets
      else None
  end.

Definition isPartOfParkBuildingFn (grid : Grid) (gridSize gridX gridY : Z) : bool :=
  existsb
    (fun d =>
       let ox := gridX - fst d in
       let oy := gridY - snd d in
       match originTile grid gridSize ox oy with
       | Some tile =>
           isParkBuilding (type (building tile)) &&
           covers ox oy (getBuildingSize (type (building tile))) gridX gridY
       | None => false
       end)
    footprintOffsets.

End Helpers.

End BuildingHelpers.

(** ** Properties of the footprint helpers *)

Section FootprintLoops.

Import BuildingHelpers.

Lemma firstSome_Some {A B : Type} (f : A -> option B) (l : list A) (b : B) :
  firstSome f l = Some b -> exists a, In a l /\ f a = Some b.
Proof.
  induction l as [|a l IH]; cbn; [discriminate|].
  destruct (f a) as [b'|] eqn:E.
  - intro H. injection H as <-. exists a. auto.
  - intro H. destruct (IH H) as (a' & Hin & Hf). exists a'. auto.
Qed.

Lemma firstSome_None {A B : Type} (f : A -> option B) (l : list A) :
  firstSome f l = None <-> forall a, In a l -> f a = None.
Proof.
  induction l as [|a l IH]; cbn.
  - split; [intros _ a [] | reflexivity].
  - destruct (f a) as [b|] eqn:E.
    + split; [discriminate|]. intro H. rewrite <- E. apply H. left. reflexivity.
    + rewrite IH. split.
      * intros H a' [<- | Hin]; [exact E | apply H; exact Hin].
      * intros H a' Hin. apply H. right. exact Hin.
Qed.

Lemma footprintOffsets_In (d : Z * Z) :
  In d footprintOffsets <-> 0 <= fst d <= 3 /\ 0 <= snd d <= 3.
Proof.
  destruct d as [dx dy]. unfold footprintOffsets. cbn. split.
  - intro H. repeat (destruct H as [H | H]; [injection H as <- <-; lia|]).
    contradiction.
  - intros [Hx Hy].
    assert (Ex : dx = 0 \/ dx = 1 \/ dx = 2 \/ dx = 3) by lia.
    assert (Ey : dy = 0 \/ dy = 1 \/ dy = 2 \/ dy = 3) by lia.
    destruct Ex as [-> | [-> | [-> | ->]]], Ey as [-> | [-> | [-> | ->]]]; tauto.
Qed.

Lemma covers_spec (ox oy : Z) (size : Z * Z) (x y : Z) :
  covers ox oy size x y = true <->
  ox <= x < ox + fst size /\ oy <= y < oy + snd size.
Proof.
  unfold covers. rewrite !andb_true_iff, !Z.geb_leb, !Z.leb_le, !Z.ltb_lt. lia.
Qed.

Lemma inGrid_spec (n x y : Z) :
  inGrid n x y = true <-> 0 <= x < n /\ 0 <= y < n.
Proof.
  unfold inGrid. rewrite !andb_true_iff, !Z.geb_leb, !Z.leb_le, !Z.ltb_lt. lia.
Qed.

(** On an N x N matrix a tile is there exactly for the coordinates of the
    grid. *)
Lemma tileAt_wf (grid : Grid) (n x y : Z) :
  wf_grid grid n ->
  (exists t, tileAt grid x y = Some t) <-> 0 <= x < n /\ 0 <= y < n.
Proof.
  intros [Hlen Hrows]. unfold tileAt.
  destruct (x <? 0) eqn:Ex; cbn [orb].
  { apply Z.ltb_lt in Ex. split; [intros (t & H); discriminate | lia]. }
  destruct (y <? 0) eqn:Ey; cbn [orb].
  { apply Z.ltb_lt in Ey. split; [intros (t & H); discriminate | lia]. }
  apply Z.ltb_ge in Ex, Ey.
  destruct (nth_error grid (Z.to_nat y)) as [row|] eqn:Erow.
  - assert (Hy : (Z.to_nat y < length grid)%nat)
      by (apply nth_error_Some; congruence).
    assert (Hrow : Z.of_nat (length row) = n).
    { rewrite Forall_forall in Hrows. apply Hrows.
      eapply nth_error_In. exact Erow. }
    split.
    + intros (t & Ht).
      assert ((Z.to_nat x < length row)%nat) by (apply nth_error_Some; congruence).
      lia.
    + intros [Hx _].
      destruct (nth_error row (Z.to_nat x)) as [t|] eqn:Et; [eauto|].
      apply nth_error_None in Et. lia.
  - apply nth_error_None in Erow. split; [intros (t & H); discriminate | lia].
Qed.

End FootprintLoops.

Section BuildingFootprints.

Import BuildingHelpers.

Variable getBuildingSize : BuildingType -> Z * Z.

(** What an answer of [findBuildingOriginFn] means.  A non-null answer
    names a tile of the grid that holds the building type of the answer,
    a type that is no ground type and is more than one tile wide or high,
    at most three tiles up and to the left of the queried tile; it is
    the queried tile itself when that holds such a building, and
    otherwise the queried tile is ['empty'] and lies in the footprint of
    the answer.  The answer is null for a tile that is not in the matrix
    and for every grass, water, road and tree tile, also inside a
    footprint. *)
Theorem findBuildingOriginFn_sound :
  forall (grid : Grid) (gridSize x y : Z),
    match findBuildingOriginFn getBuildingSize grid gridSize x y with
    | Some o =>
        let size := getBuildingSize (buildingType o) in
        (exists tile origin,
           tileAt grid x y = Some tile /\
           tileAt grid (originX o) (originY o) = Some origin /\
           type (building origin) = buildingType o /\
           ((originX o = x /\ originY o = y) \/
            (type (building tile) = "empty"%string /\
             0 <= originX o < gridSize /\ 0 <= originY o < gridSize /\
             originX o <= x < originX o + fst size /\
             originY o <= y < originY o + snd size))) /\
        isGround (buildingType o) = false /\
        (1 < fst size \/ 1 < snd size) /\
        0 <= x - originX o <= 3 /\ 0 <= y - originY o <= 3
    | None => True
    end /\
    (tileAt grid x y = None ->
     findBuildingOriginFn getBuildingSize grid gridSize x y = None) /\
    (forall tile, tileAt grid x y = Some tile ->
       In (type (building tile)) ["grass"; "water"; "road"; "tree"]%string ->
       findBuildingOriginFn getBuildingSize grid gridSize x y = None).
Proof.
  intros grid gridSize x y.
  assert (Hbig : forall size, isMultiTile size = true -> 1 < fst size \/ 1 < snd size).
  { intros size H. unfold isMultiTile in H. apply orb_prop in H.
    destruct H as [H | H]; apply Z.gtb_lt in H; lia. }
  split; [|split].
  - unfold findBuildingOriginFn.
    destruct (tileAt grid x y) as [tile|] eqn:Et; [|exact I].
    cbn zeta.
    destruct (isGround (type (building tile))) eqn:Eg; cbn [negb].
    + destruct (String.eqb (type (building tile)) "empty") eqn:Ee; [|exact I].
      apply String.eqb_eq in Ee.
      match goal with
      | |- match firstSome ?f ?l with _ => _ end =>
          destruct (firstSome f l) as [o|] eqn:Ef; [|exact I]
      end.
      apply firstSome_Some in Ef. destruct Ef as (d & Hd & Hf).
      apply footprintOffsets_In in Hd.
      unfold originTile in Hf.
      destruct (inGrid gridSize (x - fst d) (y - snd d)) eqn:Ein; [|discriminate].
      destruct (tileAt grid (x - fst d) (y - snd d)) as [origin|] eqn:Eo; [|discriminate].
      destruct (negb (isGround (type (building origin)))) eqn:Eng; [|discriminate].
      destruct (isMultiTile _) eqn:Em; [|discriminate].
      destruct (covers _ _ _ x y) eqn:Ec; [|discriminate].
      cbn in Hf. injection Hf as <-. cbn [originX originY buildingType].
      apply inGrid_spec in Ein. apply covers_spec in Ec.
      apply negb_true_iff in Eng.
      split; [|split; [exact Eng | split; [apply Hbig; exact Em | lia]]].
      exists tile, origin. split; [reflexivity|]. split; [exact Eo|].
      split; [reflexivity|]. right. split; [exact Ee|]. lia.
    + destruct (isMultiTile _) eqn:Em; [|exact I].
      cbn [originX originY buildingType].
      split; [|split; [exact Eg | split; [apply Hbig; exact Em | lia]]].
      exists tile, tile. split; [reflexivity|]. split; [exact Et|].
      split; [reflexivity|]. left. split; reflexivity.
  - intro H. unfold findBuildingOriginFn. rewrite H. reflexivity.
  - intros tile Ht Hty. unfold findBuildingOriginFn. rewrite Ht. cbn zeta.
    cbn in Hty.
    destruct Hty as [<- | [<- | [<- | [<- | []]]]]; reflexivity.
Qed.

(** The two footprint queries agree where a building is found.  On an
    N x N matrix and with building sizes that are at least one tile in
    both directions, a tile for which [findBuildingOriginFn] finds an
    origin is part of a multi-tile building for
    [isPartOfMultiTileBuildingFn]; and for an ['empty'] tile the former
    finds an origin exactly when a building that is no ground type covers
    the tile from an origin at most three tiles up and to the left. *)
Theorem building_origin_is_part_of_building :
  forall (grid : Grid) (gridSize x y : Z),
    wf_grid grid gridSize ->
    (forall t, 1 <= fst (getBuildingSize t) /\ 1 <= snd (getBuildingSize t)) ->
    (findBuildingOriginFn getBuildingSize grid gridSize x y <> None ->
     isPartOfMultiTileBuildingFn getBuildingSize grid gridSize x y = true) /\
    (forall tile, tileAt grid x y = Some tile ->
       type (building tile) = "empty"%string ->
       (findBuildingOriginFn getBuildingSize grid gridSize x y <> None <->
        exists dx dy origin,
          0 <= dx <= 3 /\ 0 <= dy <= 3 /\
          0 <= x - dx < gridSize /\ 0 <= y - dy < gridSize /\
          tileAt grid (x - dx) (y - dy) = Some origin /\
          isGround (type (building origin)) = false /\
          isMultiTile (getBuildingSize (type (building origin))) = true /\
          covers (x - dx) (y - dy) (getBuildingSize (type (building origin))) x y
          = true)).
Proof.
  intros grid gridSize x y Hwf Hsize. split.
  - intro Hsome. unfold isPartOfMultiTileBuildingFn. apply existsb_exists.
    unfold findBuildingOriginFn in Hsome.
    destruct (tileAt grid x y) as [tile|] eqn:Et; [|congruence].
    cbn zeta in Hsome.
    destruct (isGround (type (building tile))) eqn:Eg; cbn [negb] in Hsome.
    + destruct (String.eqb (type (building tile)) "empty"); [|congruence].
      match type of Hsome with
      | firstSome ?f ?l <> None => destruct (firstSome f l) as [o|] eqn:Ef; [|congruence]
      end.
      apply firstSome_Some in Ef. destruct Ef as (d & Hd & Hf).
      exists d. split; [exact Hd|]. cbn zeta.
      destruct (originTile grid gridSize (x - fst d) (y - snd d)) as [origin|];
        [|discriminate].
      destruct (negb (isGround (type (building origin)))); [|discriminate].
      destruct (isMultiTile _); [|discriminate].
      destruct (covers _ _ _ x y); [reflexivity | discriminate].
    + destruct (isMultiTile (getBuildingSize (type (building tile)))) eqn:Em;
        [|congruence].
      exists (0, 0). split; [apply footprintOffsets_In; cbn; lia|].
      cbn [fst snd]. rewrite !Z.sub_0_r. unfold originTile.
      assert (Hin : 0 <= x < gridSize /\ 0 <= y < gridSize).
      { apply (tileAt_wf grid gridSize x y Hwf). eauto. }
      replace (inGrid gridSize x y) with true
        by (symmetry; apply inGrid_spec; exact Hin).
      rewrite Et, Em. cbn [andb]. apply covers_spec.
      destruct (Hsize (type (building tile))). lia.
  - intros tile Ht Hempty. unfold findBuildingOriginFn. rewrite Ht. cbn zeta.
    rewrite Hempty.
    change (isGround "empty"%string) with true.
    change (String.eqb "empty" "empty")%string with true. cbn [negb].
    split.
    + intro Hsome.
      match type of Hsome with
      | firstSome ?f ?l <> None => destruct (firstSome f l) as [o|] eqn:Ef; [|congruence]
      end.
      apply firstSome_Some in Ef. destruct Ef as (d & Hd & Hf).
      apply footprintOffsets_In in Hd. unfold originTile in Hf.
      destruct (inGrid gridSize (x - fst d) (y - snd d)) eqn:Ein; [|discriminate].
      destruct (tileAt grid (x - fst d) (y - snd d)) as [origin|] eqn:Eo; [|discriminate].
      destruct (negb (isGround (type (building origin)))) eqn:Eng; [|discriminate].
      destruct (isMultiTile _) eqn:Em; [|discriminate].
      destruct (covers _ _ _ x y) eqn:Ec; [|discriminate].
      apply inGrid_spec in Ein. apply negb_true_iff in Eng.
      exists (fst d), (snd d), origin. repeat split; try lia; assumption.
    + intros (dx & dy & origin & Hdx & Hdy & Hx & Hy & Eo & Eng & Em & Ec) Hnone.
      rewrite firstSome_None in Hnone.
      specialize (Hnone (dx, dy)). cbn [fst snd] in Hnone.
      unfold originTile in Hnone.
      replace (inGrid gridSize (x - dx) (y - dy)) with true in Hnone
        by (symmetry; apply inGrid_spec; lia).
      rewrite Eo, Eng, Em, Ec in Hnone. cbn in Hnone.
      assert (In (dx, dy) footprintOffsets) by (apply footprintOffsets_In; cbn; lia).
      specialize (Hnone H). discriminate.
Qed.

End BuildingFootprints.

(** An example size table: a hospital takes 2 x 2 tiles, everything else
    one tile. *)
Definition exampleBuildingSize (t : BuildingType) : Z * Z :=
  if String.eqb t "hospital" then (2, 2) else (1, 1).

(** A 3 x 3 grid with a hospital whose origin is the tile [(0,0)] and
    whose other three tiles are ['empty']. *)
Definition hospitalGrid : Grid :=
  [ [tileOf "hospital"%string; tileOf "empty"%string; G];
    [tileOf "empty"%string; tileOf "empty"%string; G];
    [G; G; G] ].

Lemma building_origin_is_part_of_building_witness :
  BuildingHelpers.findBuildingOriginFn exampleBuildingSize hospitalGrid 3 1 1
  = Some (BuildingHelpers.mkBuildingOrigin 0 0 "hospital"%string) /\
  BuildingHelpers.isPartOfMultiTileBuildingFn exampleBuildingSize hospitalGrid 3 1 1
  = true.
Proof.
  split; [reflexivity|].
  apply (building_origin_is_part_of_building exampleBuildingSize hospitalGrid 3 1 1).
  - split; [reflexivity | repeat constructor].
  - intro t. unfold exampleBuildingSize. destruct (String.eqb t "hospital"); cbn; lia.
  - discriminate.
Defined.

(* ================================================================== *)
(** * Camera ([getMapBounds] and [clampOffset] of cameraUtils.ts;
      [useCameraControls] repeats them and adds [handleWheel]) *)
(* ================================================================== *)

Module Camera.



Section Camera.

(** The tile dimensions of the types module, which is not among the
    sources. *)
Variables TILE_WIDTH TILE_HEIGHT : Q.





End Camera.

End Camera.

(** ** Properties of the camera *)


Section CameraProperties.

Import Camera.

Variables TILE_WIDTH TILE_HEIGHT : Q.




End CameraProperties.

(* ================================================================== *)
(** * Helicopter manager ([useAircraft]: [updateHelicopters]) *)
(* ================================================================== *)

Module Helicopters.

Inductive HelicopterState := taking_off | flying | landing | hovering.

(** An entry of [findHeliports]: [{ x, y, type, size }]. *)
Record Heliport := mkHeliport
  { port_x : Z; port_y : Z; port_type : string; port_size : Z }.

Record Helicopter := mkHelicopter
  { id : Z;
    x : Q; y : Q;
    angle : Q;
    state : HelicopterState;
    speed : Q;
    altitude : Q;
    targetAltitude : Q;
    originX : Z; originY : Z; originType : string;
    destX : Z; destY : Z; destType : string;
    destScreenX : Q; destScreenY : Q;
    stateProgress : Q;
    rotorWash : list Aircraft.Particle;
    rotorAngle : Q;
    color : string }.

Record HelicopterManager := mkHelicopterManager
  { helicopters : list Helicopter;       (* helicoptersRef.current *)
    helicopterId : Z;                    (* helicopterIdRef.current *)
    helicopterSpawnTimer : Q;            (* helicopterSpawnTimerRef.current *)
    cachedPopulation : Cache;            (* cachedPopulationRef.current *)
    rng : nat }.

(** [list.filter((_, i) => keep(i))], the index counted from [i]. *)
Fixpoint filterIndex {A} (keep : Z -> bool) (i : Z) (l : list A) : list A :=
  match l with
  | [] => []
  | a :: rest =>
      if keep i then a :: filterIndex keep (i + 1) rest
      else filterIndex keep (i + 1) rest
  end.

Section Manager.

Variable rand : nat -> Q.
Variable isMobile : bool.
(** [Math.cos], [Math.sin], [Math.atan2], [Math.hypot], [Math.PI] and
    the constants and helpers of modules that are not among the sources. *)
Variables cos sin : Q -> Q.
Variables atan2 hypot : Q -> Q -> Q.
Variable PI : Q.
Variables TILE_WIDTH TILE_HEIGHT : Q.
Variable HELICOPTER_MIN_POPULATION : Q.
Variable HELICOPTER_COLORS : list string.
Variables ROTOR_WASH_MAX_AGE ROTOR_WASH_SPAWN_INTERVAL : Q.
Variable gridToScreen : Z -> Z -> Q -> Q -> Q * Q.
Variable findHeliports : Grid -> Z -> list Heliport.

Definition random : Rand Q := fun k => (rand k, S k).

Definition portCenter (port : Heliport) : Q * Q :=
  let (screenX, screenY) := gridToScreen (port_x port) (port_y port) 0 0 in
  (screenX + TILE_WIDTH * inject_Z (port_size port) / 2,
   screenY + TILE_HEIGHT * inject_Z (port_size port) / 2)%Q.

Definition pickColor (r : Q) : string :=
  pick HELICOPTER_COLORS (floorTimes r (Z.of_nat (length HELICOPTER_COLORS)))
    EmptyString.

(** The spawn branch of [updateHelicopters]; [None] when no heliport other
    than the origin is left.  An index outside the list, which
    [Math.random()] in [[0, 1)] never gives, reads the default entry. *)
Definition spawnHelicopter (heliports : list Heliport) (nextId : Z)
  : Rand (option Helicopter) :=
  r1 <- random ;;
  let originIndex := floorTimes r1 (Z.of_nat (length heliports)) in
  let origin := pick heliports originIndex (mkHeliport 0 0 EmptyString 0) in
  let otherHeliports := filterIndex (fun i => negb (i =? originIndex)) 0 heliports in
  if Z.of_nat (length otherHeliports) >? 0 then
    r2 <- random ;;
    let dest := pick otherHeliports (floorTimes r2 (Z.of_nat (length otherHeliports)))
                  (mkHeliport 0 0 EmptyString 0) in
    let (originCenterX, originCenterY) := portCenter origin in
    let (destCenterX, destCenterY) := portCenter dest in
    let angleToDestination :=
      atan2 (destCenterY - originCenterY) (destCenterX - originCenterX) in
    r3 <- random ;;
    r4 <- random ;;
    ret (Some (mkHelicopter nextId originCenterX originCenterY angleToDestination
                 taking_off (15 + r3 * 10) 0 (1 # 2)
                 (port_x origin) (port_y origin) (port_type origin)
                 (port_x dest) (port_y dest) (port_type dest)
                 destCenterX destCenterY 0 [] 0 (pickColor r4)))%Q
  else ret None.

(** The body of [for (const heli of helicoptersRef.current)]; [None] is
    [continue] before the push. *)
Definition stepHelicopter (multiplier delta : Q) (heli : Helicopter) : option Helicopter :=
  let rotorAngle1 := (rotorAngle heli + delta * 25)%Q in
  let washMaxAge := if isMobile then 4 # 10 else ROTOR_WASH_MAX_AGE in
  let washSpawnInterval := if isMobile then 8 # 100 else ROTOR_WASH_SPAWN_INTERVAL in
  let wash1 := Aircraft.ageContrail delta washMaxAge (rotorWash heli) in
  let (stateProgress1, wash2) :=
    if Qgtb (altitude heli) (2 # 10) &&
       match state heli with flying => true | _ => false end
    then
      let sp := (stateProgress heli + delta)%Q in
      if Qgeb sp washSpawnInterval then
        let behindAngle := (angle heli + PI)%Q in
        let offsetDist := 6%Q in
        ((sp - washSpawnInterval)%Q,
         wash1 ++ [Aircraft.mkParticle (x heli + cos behindAngle * offsetDist)
                     (y heli + sin behindAngle * offsetDist) 0 1]%Q)
      else (sp, wash1)
    else (stateProgress heli, wash1) in
  match state heli with
  | taking_off =>
      let altitude' := qmin (1 # 2) (altitude heli + delta * (4 # 10)) in
      let speed' := qmin 50 (speed heli + delta * 15) in
      let (x', y') :=
        if Qgeb altitude' (3 # 10) then
          (x heli + cos (angle heli) * speed' * delta * multiplier * (1 # 2),
           y heli + sin (angle heli) * speed' * delta * multiplier * (1 # 2))%Q
        else (x heli, y heli) in
      Some (mkHelicopter (id heli) x' y' (angle heli)
              (if Qgeb altitude' (1 # 2) then flying else taking_off)
              speed' altitude' (targetAltitude heli)
              (originX heli) (originY heli) (originType heli)
              (destX heli) (destY heli) (destType heli)
              (destScreenX heli) (destScreenY heli)
              stateProgress1 wash2 rotorAngle1 (color heli))
  | flying =>
      let x' := (x heli + cos (angle heli) * speed heli * delta * multiplier)%Q in
      let y' := (y heli + sin (angle heli) * speed heli * delta * multiplier)%Q in
      let distToDest := hypot (x' - destScreenX heli) (y' - destScreenY heli) in
      Some (mkHelicopter (id heli) x' y' (angle heli)
              (if Qltb distToDest 80 then landing else flying)
              (speed heli) (altitude heli)
              (if Qltb distToDest 80 then 0 else targetAltitude heli)
              (originX heli) (originY heli) (originType heli)
              (destX heli) (destY heli) (destType heli)
              (destScreenX heli) (destScreenY heli)
              stateProgress1 wash2 rotorAngle1 (color heli))
  | landing =>
      let distToDest := hypot (x heli - destScreenX heli) (y heli - destScreenY heli) in
      let speed' := qmax 10 (speed heli - delta * 20) in
      let '(angle', x', y') :=
        if Qgtb distToDest 15 then
          let angleToDestination :=
            atan2 (destScreenY heli - y heli) (destScreenX heli - x heli) in
          (angleToDestination,
           x heli + cos angleToDestination * speed' * delta * multiplier,
           y heli + sin angleToDestination * speed' * delta * multiplier)%Q
        else (angle heli, x heli, y heli) in
      let altitude' := qmax 0 (altitude heli - delta * (3 # 10)) in
      if Qle_bool altitude' 0 && Qltb distToDest 20 then None
      else
        Some (mkHelicopter (id heli) x' y' angle' landing speed' altitude'
                (targetAltitude heli)
                (originX heli) (originY heli) (originType heli)
                (destX heli) (destY heli) (destType heli)
                (destScreenX heli) (destScreenY heli)
                stateProgress1 wash2 rotorAngle1 (color heli))
  | hovering =>
      Some (mkHelicopter (id heli) (x heli) (y heli) (angle heli) hovering
              (speed heli) (altitude heli) (targetAltitude heli)
              (originX heli) (originY heli) (originType heli)
              (destX heli) (destY heli) (destType heli)
              (destScreenX heli) (destScreenY heli)
              stateProgress1 wash2 rotorAngle1 (color heli))
  end.

Definition maxHelicopters (totalPopulation : Q) (heliports : list Heliport) : Z :=
  let populationBased := Qfloor (totalPopulation / 1000) in
  let heliportBased := Qfloor (inject_Z (Z.of_nat (length heliports)) * (25 # 10)) in
  Z.min 60 (Z.max 6 (Z.min populationBased heliportBased)).

Definition updateHelicopters (w : WorldRenderState) (currentGridVersion : Z)
    (delta : Q) (s : HelicopterManager) : HelicopterManager :=
  match grid w with
  | None => s
  | Some currentGrid =>
      if (gridSize w <=? 0) || (currentSpeed w =? 0) then s
      else
        let heliports := findHeliports currentGrid (gridSize w) in
        let (totalPopulation, cache) :=
          Aircraft.getPopulation currentGrid (gridSize w) currentGridVersion
            (cachedPopulation s) in
        if (Z.of_nat (length heliports) <? 2) ||
           Qltb totalPopulation HELICOPTER_MIN_POPULATION
        then mkHelicopterManager [] (helicopterId s) (helicopterSpawnTimer s) cache
               (rng s)
        else
          let multiplier : Q :=
            (if currentSpeed w =? 1 then 1
             else if currentSpeed w =? 2 then 15 # 10 else 2)%Q in
          let timer := (helicopterSpawnTimer s - delta)%Q in
          let s1 :=
            if (Z.of_nat (length (helicopters s)) <? maxHelicopters totalPopulation heliports)
               && Qle_bool timer 0
            then
              let (spawned, k) := spawnHelicopter heliports (helicopterId s) (rng s) in
              let (r, k') := random k in
              match spawned with
              | Some heli =>
                  mkHelicopterManager (helicopters s ++ [heli]) (helicopterId s + 1)
                    ((8 # 10) + r * (22 # 10))%Q cache k'
              | None =>
                  mkHelicopterManager (helicopters s) (helicopterId s)
                    ((8 # 10) + r * (22 # 10))%Q cache k'
              end
            else mkHelicopterManager (helicopters s) (helicopterId s) timer cache (rng s) in
          mkHelicopterManager
            (flat_map (fun heli =>
                         match stepHelicopter multiplier delta heli with
                         | Some heli' => [heli']
                         | None => []
                         end)
                      (helicopters s1))
            (helicopterId s1) (helicopterSpawnTimer s1) (cachedPopulation s1) (rng s1)
  end.

End Manager.

End Helicopters.

(** ** Properties of the helicopter manager *)

Section FilterIndex.

Import Helicopters.

Lemma filterIndex_In {A} (keep : Z -> bool) (l : list A) :
  forall (i : Z) (a : A),
    In a (filterIndex keep i l) ->
    exists j : nat, nth_error l j = Some a /\ keep (i + Z.of_nat j) = true.
Proof.
  induction l as [|b l IH]; intros i a H; cbn [filterIndex] in H; [contradiction|].
  assert (Hrest : In a (filterIndex keep (i + 1) l) ->
                  exists j : nat, nth_error (b :: l) j = Some a /\
                                  keep (i + Z.of_nat j) = true).
  { intro Hin. destruct (IH _ _ Hin) as (j & Hj & Hk).
    exists (S j). split; [exact Hj|].
    replace (i + Z.of_nat (S j)) with (i + 1 + Z.of_nat j) by lia. exact Hk. }
  destruct (keep i) eqn:E; [|exact (Hrest H)].
  destruct H as [<- | H]; [|exact (Hrest H)].
  exists 0%nat. split; [reflexivity|].
  replace (i + Z.of_nat 0) with i by lia. exact E.
Qed.

Lemma filterIndex_length {A} (keep : Z -> bool) (l : list A) :
  forall i : Z, (length (filterIndex keep i l) <= length l)%nat.
Proof.
  induction l as [|b l IH]; intro i; cbn [filterIndex length]; [lia|].
  specialize (IH (i + 1)). destruct (keep i); cbn [length]; lia.
Qed.

(** Dropping one index leaves all entries but one. *)
Lemma filterIndex_drop_one {A} (skip : Z) (l : list A) :
  forall i : Z,
    (length l <= S (length (filterIndex (fun j => negb (Z.eqb j skip)) i l)))%nat.
Proof.
  induction l as [|b l IH]; intro i; cbn [filterIndex length]; [lia|].
  destruct (i =? skip) eqn:E; cbn [negb length].
  - apply Z.eqb_eq in E.
    assert (Hall : forall (m : list A) (i0 : Z), skip < i0 ->
                     filterIndex (fun j => negb (j =? skip)) i0 m = m).
    { induction m as [|c m IHm]; intros i0 Hi; cbn [filterIndex]; [reflexivity|].
      replace (i0 =? skip) with false by (symmetry; apply Z.eqb_neq; lia).
      cbn [negb]. rewrite IHm by lia. reflexivity. }
    rewrite Hall by lia. lia.
  - specialize (IH (i + 1)). lia.
Qed.

End FilterIndex.

Section HelicopterLifeCycle.

Import Helicopters.

Variable rand : nat -> Q.
Variable isMobile : bool.
Variables cos sin : Q -> Q.
Variables atan2 hypot : Q -> Q -> Q.
Variable PI : Q.
Variables TILE_WIDTH TILE_HEIGHT : Q.
Variable HELICOPTER_MIN_POPULATION : Q.
Variable HELICOPTER_COLORS : list string.
Variables ROTOR_WASH_MAX_AGE ROTOR_WASH_SPAWN_INTERVAL : Q.
Variable gridToScreen : Z -> Z -> Q -> Q -> Q * Q.
Variable findHeliports : Grid -> Z -> list Heliport.

Let step := stepHelicopter isMobile cos sin atan2 hypot PI ROTOR_WASH_MAX_AGE
              ROTOR_WASH_SPAWN_INTERVAL.
Let spawn := spawnHelicopter rand atan2 TILE_WIDTH TILE_HEIGHT HELICOPTER_COLORS
               gridToScreen.
Let update := updateHelicopters rand isMobile cos sin atan2 hypot PI TILE_WIDTH
                TILE_HEIGHT HELICOPTER_MIN_POPULATION HELICOPTER_COLORS
                ROTOR_WASH_MAX_AGE ROTOR_WASH_SPAWN_INTERVAL gridToScreen findHeliports.

(** The order of the states a helicopter passes through; nothing enters
    or leaves ['hovering']. *)
Definition flightRank (st : HelicopterState) : Z :=
  match st with
  | taking_off => 0
  | flying => 1
  | landing => 2
  | hovering => 3
  end.

(** The flight envelope: altitude within [[0, 0.5]], speed within
    [[10, 50]], cruise at the full altitude, and no hovering. *)
Definition inEnvelope (heli : Helicopter) : Prop :=
  ((0 <= altitude heli)%Q /\ (altitude heli <= 1 # 2)%Q) /\
  ((10 <= speed heli)%Q /\ (speed heli <= 50)%Q) /\
  (state heli = flying -> (altitude heli == 1 # 2)%Q) /\
  state heli <> hovering.

(** The route of a helicopter: what it keeps for its whole life. *)
Definition sameFlight (a b : Helicopter) : Prop :=
  id b = id a /\ color b = color a /\
  (originX b, originY b, originType b) = (originX a, originY a, originType a) /\
  (destX b, destY b, destType b) = (destX a, destY a, destType a) /\
  (destScreenX b, destScreenY b) = (destScreenX a, destScreenY a).

Lemma stepHelicopter_kept (multiplier delta : Q) (heli heli' : Helicopter) :
  step multiplier delta heli = Some heli' ->
  (0 <= delta)%Q ->
  sameFlight heli heli' /\
  flightRank (state heli) <= flightRank (state heli') <= flightRank (state heli) + 1 /\
  (inEnvelope heli -> inEnvelope heli').
Proof.
  unfold step, stepHelicopter, sameFlight, inEnvelope. intros H Hd.
  destruct (if Qgtb (altitude heli) (2 # 10) && _ then _ else _) as [sp wash2].
  destruct (state heli) eqn:Est.
  - destruct (if Qgeb _ (3 # 10) then _ else _) as [x' y'].
    injection H as <-. cbn [id color originX originY originType destX destY destType
                             destScreenX destScreenY state altitude speed].
    destruct (qmin_bounds (1 # 2) (altitude heli + delta * (4 # 10))) as (B1 & B2 & B3).
    destruct (qmin_bounds 50 (speed heli + delta * 15)) as (S1 & S2 & S3).
    split; [repeat split; reflexivity|].
    destruct (Qgeb (qmin (1 # 2) (altitude heli + delta * (4 # 10))) (1 # 2)) eqn:E.
    + apply Qgeb_le in E. cbn [flightRank]. split; [lia|].
      intros ((A1 & A2) & (V1 & V2) & _ & _).
      repeat split; try discriminate; try lra.
    + cbn [flightRank]. split; [lia|].
      intros ((A1 & A2) & (V1 & V2) & _ & _).
      repeat split; try discriminate; try lra.
  - injection H as <-. cbn [id color originX originY originType destX destY destType
                             destScreenX destScreenY state altitude speed].
    split; [repeat split; reflexivity|].
    destruct (Qltb _ 80); cbn [flightRank]; (split; [lia|]);
      intros ((A1 & A2) & (V1 & V2) & Hc & _);
      specialize (Hc eq_refl);
      repeat split; try discriminate; try lra.
  - destruct (if Qgtb _ 15 then _ else _) as [[angle' x'] y'].
    destruct (Qle_bool _ 0 && Qltb _ 20); [discriminate|].
    injection H as <-. cbn [id color originX originY originType destX destY destType
                             destScreenX destScreenY state altitude speed].
    destruct (qmax_bounds 0 (altitude heli - delta * (3 # 10))) as (B1 & B2 & B3).
    destruct (qmax_bounds 10 (speed heli - delta * 20)) as (S1 & S2 & S3).
    split; [repeat split; reflexivity|].
    cbn [flightRank]. split; [lia|].
    intros ((A1 & A2) & (V1 & V2) & _ & _).
    repeat split; try discriminate; try lra.
  - injection H as <-. cbn [id color originX originY originType destX destY destType
                             destScreenX destScreenY state altitude speed].
    split; [repeat split; reflexivity|].
    cbn [flightRank]. split; [lia|].
    intros (_ & _ & _ & Hh). contradiction.
Qed.

(** What the spawn branch produces. *)
Lemma spawnHelicopter_cases (heliports : list Heliport) (nextId : Z) (k : nat) :
  unitOracle rand ->
  match fst (spawn heliports nextId k) with
  | Some heli =>
      (exists (i j : nat) (origin dest : Heliport),
         i <> j /\
         nth_error heliports i = Some origin /\ nth_error heliports j = Some dest /\
         (originX heli, originY heli, originType heli)
         = (port_x origin, port_y origin, port_type origin) /\
         (destX heli, destY heli, destType heli)
         = (port_x dest, port_y dest, port_type dest)) /\
      id heli = nextId /\ state heli = taking_off /\ altitude heli = 0%Q /\
      (15 <= speed heli)%Q /\ (speed heli < 25)%Q
  | None => (length heliports <= 1)%nat
  end.
Proof.
  intro Hunit. unfold spawn, spawnHelicopter, bind, Helicopters.random, ret.
  cbn [fst snd].
  set (originIndex := floorTimes (rand k) (Z.of_nat (length heliports))).
  set (others := filterIndex (fun i => negb (i =? originIndex)) 0 heliports).
  destruct (Z.of_nat (length others) >? 0) eqn:E.
  - assert (Hne : others <> []).
    { intro H. rewrite H in E. discriminate. }
    assert (Hports : heliports <> []).
    { intro H. apply Hne. subst others. rewrite H. reflexivity. }
    set (origin := pick heliports originIndex (mkHeliport 0 0 EmptyString 0)).
    set (dest := pick others (floorTimes (rand (S k)) (Z.of_nat (length others)))
                   (mkHeliport 0 0 EmptyString 0)).
    destruct (portCenter TILE_WIDTH TILE_HEIGHT gridToScreen origin) as [ocx ocy].
    destruct (portCenter TILE_WIDTH TILE_HEIGHT gridToScreen dest) as [dcx dcy].
    cbn [fst id state altitude speed originX originY originType destX destY destType].
    destruct (Hunit k) as (R1 & R1'). destruct (Hunit (S k)) as (R2 & R2').
    destruct (Hunit (S (S k))) as (R3 & R3').
    assert (Hrange : 0 <= originIndex < Z.of_nat (length heliports)).
    { apply floorTimes_range; [exact R1 | exact R1'|].
      destruct heliports; [congruence | cbn; lia]. }
    assert (Hdest : In dest others) by (apply pick_In; assumption).
    apply filterIndex_In in Hdest. destruct Hdest as (j & Hj & Hkeep).
    apply negb_true_iff, Z.eqb_neq in Hkeep.
    split; [|repeat split; lra].
    exists (Z.to_nat originIndex), j, origin, dest.
    split; [lia|]. split; [|split; [exact Hj | split; reflexivity]].
    subst origin. unfold pick. apply nth_error_nth'. lia.
  - cbn [fst].
    pose proof (filterIndex_drop_one originIndex heliports 0) as Hlen.
    fold others in Hlen.
    destruct (length others); [lia | discriminate].
Qed.

(** Helicopters keep their flight envelope and their route.  After an
    update with [delta >= 0] and random numbers in [[0, 1)], every live
    helicopter is within the envelope (altitude within [[0, 0.5]], speed
    within [[10, 50]], cruising at exactly 0.5, never hovering), given
    that all were before; it is a helicopter that was live before, with
    its identifier, colour, origin and destination, in the same state or
    the next one of taking off, flying, landing, or it is the one spawned
    in this call, which flies between two different entries of the list
    of heliports. *)
Theorem helicopters_keep_flight_envelope :
  forall (w : WorldRenderState) (v : Z) (delta : Q) (s : HelicopterManager),
    (0 <= delta)%Q ->
    unitOracle rand ->
    (forall h, In h (helicopters s) -> inEnvelope h) ->
    forall h', In h' (helicopters (update w v delta s)) ->
      inEnvelope h' /\
      (In h' (helicopters s) /\ update w v delta s = s \/
       (exists h, In h (helicopters s) /\ sameFlight h h' /\
                  flightRank (state h) <= flightRank (state h')
                  <= flightRank (state h) + 1) \/
       (id h' = helicopterId s /\ flightRank (state h') <= 2 /\
        exists (g : Grid) (i j : nat) (origin dest : Heliport),
          grid w = Some g /\ i <> j /\
          nth_error (findHeliports g (gridSize w)) i = Some origin /\
          nth_error (findHeliports g (gridSize w)) j = Some dest /\
          (originX h', originY h', originType h')
          = (port_x origin, port_y origin, port_type origin) /\
          (destX h', destY h', destType h')
          = (port_x dest, port_y dest, port_type dest))).
Proof.
  intros w v delta s Hd Hunit Hs h'. unfold update, updateHelicopters.
  destruct (grid w) as [g|]; [|intro H; split; [apply Hs; exact H | left; auto]].
  destruct ((gridSize w <=? 0) || (currentSpeed w =? 0));
    [intro H; split; [apply Hs; exact H | left; auto]|].
  destruct (Aircraft.getPopulation g (gridSize w) v (cachedPopulation s))
    as [total cache].
  destruct ((Z.of_nat (length (findHeliports g (gridSize w))) <? 2) || _);
    [intros []|].
  cbn [helicopters]. intro H. apply in_flat_map in H. destruct H as (h & Hh & Hstep).
  fold step in Hstep.
  destruct (step _ delta h) as [q|] eqn:E; [|contradiction].
  destruct Hstep as [<- | []].
  destruct (stepHelicopter_kept _ _ _ _ E Hd) as (Hsame & Hrank & Henv).
  assert (Hsrc : In h (helicopters s) \/
                 (id h = helicopterId s /\ state h = taking_off /\ inEnvelope h /\
                  exists (i j : nat) (origin dest : Heliport),
                    i <> j /\
                    nth_error (findHeliports g (gridSize w)) i = Some origin /\
                    nth_error (findHeliports g (gridSize w)) j = Some dest /\
                    (originX h, originY h, originType h)
                    = (port_x origin, port_y origin, port_type origin) /\
                    (destX h, destY h, destType h)
                    = (port_x dest, port_y dest, port_type dest))).
  { revert Hh.
    destruct ((Z.of_nat (length (helicopters s)) <? maxHelicopters total _)
              && Qle_bool _ 0); [|cbn; auto].
    pose proof (spawnHelicopter_cases (findHeliports g (gridSize w))
                  (helicopterId s) (rng s) Hunit) as Hfresh.
    unfold spawn in Hfresh.
    destruct (spawnHelicopter _ _ _ _ _ _ _ _ _) as [[heli|] k]; cbn [fst] in Hfresh;
      destruct (Helicopters.random rand k) as [r k']; cbn [helicopters]; [|auto].
    intro Hh. apply in_app_or in Hh. destruct Hh as [Hh | [<- | []]]; [auto|].
    right. destruct Hfresh as (Hroute & Hid & Hst & Halt & V1 & V2).
    split; [exact Hid|]. split; [exact Hst|]. split; [|exact Hroute].
    unfold inEnvelope. rewrite Halt, Hst.
    repeat split; try discriminate; lra. }
  destruct Hsrc as [Hin | (Hnew & Hst & Hfresh & Hroute)].
  - split; [apply Henv, Hs, Hin|]. right. left. exists h. auto.
  - split; [apply Henv, Hfresh|]. right. right.
    destruct Hsame as (Hid & _ & Ho & Hdst & _).
    split; [congruence|]. split; [rewrite Hst in Hrank; cbn in Hrank; lia|].
    destruct Hroute as (i & j & origin & dest & Hij & Hi & Hj & Hor & Hde).
    exists g, i, j, origin, dest.
    repeat split; try assumption; congruence.
Qed.

(** The helicopter fleet.  An update adds at most one helicopter and never
    takes the fleet above the larger of its size before and the ceiling,
    which lies within [[6, 60]]; identifiers are handed out in order, one
    per spawned helicopter; and with fewer than two heliports (or too
    small a population) a running update empties the fleet. *)
Theorem helicopter_fleet_within_ceiling :
  forall (w : WorldRenderState) (v : Z) (delta : Q) (s : HelicopterManager),
    let s' := update w v delta s in
    Z.of_nat (length (helicopters s'))
    <= Z.max (Z.of_nat (length (helicopters s))) 60 /\
    (length (helicopters s') <= S (length (helicopters s)))%nat /\
    helicopterId s <= helicopterId s' <= helicopterId s + 1 /\
    (forall total ports, 6 <= maxHelicopters total ports <= 60) /\
    (forall g, grid w = Some g -> 0 < gridSize w -> currentSpeed w <> 0 ->
               (length (findHeliports g (gridSize w)) < 2)%nat ->
               helicopters s' = []).
Proof.
  intros w v delta s s'. subst s'.
  assert (Hmax : forall total ports, 6 <= maxHelicopters total ports <= 60)
    by (intros; unfold maxHelicopters; lia).
  unfold update, updateHelicopters.
  destruct (grid w) as [g|].
  2:{ repeat split; try lia; try apply Hmax; discriminate. }
  destruct (gridSize w <=? 0) eqn:En.
  { cbn [orb]. apply Z.leb_le in En.
    repeat split; try lia; try apply Hmax; intros; lia. }
  destruct (currentSpeed w =? 0) eqn:Es.
  { cbn [orb]. apply Z.eqb_eq in Es.
    repeat split; try lia; try apply Hmax; intros; lia. }
  cbn [orb].
  destruct (Aircraft.getPopulation g (gridSize w) v (cachedPopulation s))
    as [total cache].
  destruct (Z.of_nat (length (findHeliports g (gridSize w))) <? 2) eqn:Ep.
  { cbn [orb helicopters helicopterId length].
    repeat split; try lia; try apply Hmax; intros; lia. }
  apply Z.ltb_ge in Ep.
  destruct (Qltb total HELICOPTER_MIN_POPULATION).
  { cbn [orb helicopters helicopterId length].
    repeat split; try lia; try apply Hmax; intros; lia. }
  cbn [orb helicopters helicopterId].
  match goal with
  | |- context [flat_map _ (helicopters ?s1)] => set (st := s1)
  end.
  pose proof (flat_map_option_length
                (stepHelicopter isMobile cos sin atan2 hypot PI ROTOR_WASH_MAX_AGE
                   ROTOR_WASH_SPAWN_INTERVAL
                   (if currentSpeed w =? 1 then 1
                    else if currentSpeed w =? 2 then 15 # 10 else 2)%Q delta)
                (helicopters st)) as Hlen.
  assert (Hspawn : Z.of_nat (length (helicopters st))
                   <= Z.max (Z.of_nat (length (helicopters s))) 60 /\
                   (length (helicopters st) <= S (length (helicopters s)))%nat /\
                   helicopterId s <= helicopterId st <= helicopterId s + 1).
  { subst st.
    destruct (Z.of_nat (length (helicopters s)) <? maxHelicopters total _) eqn:C;
      cbn [andb]; [|cbn; lia].
    apply Z.ltb_lt in C.
    pose proof (Hmax total (findHeliports g (gridSize w))) as Hm.
    destruct (Qle_bool _ 0); [|cbn; lia].
    destruct (spawnHelicopter _ _ _ _ _ _ _ _ _) as [[heli|] k];
      destruct (Helicopters.random rand k) as [r k']; cbn; [|lia].
    rewrite length_app. cbn. lia. }
  repeat split; try lia; try apply Hmax.
  intros g0 Hg _ _ Hlt. injection Hg as <-. lia.
Qed.

End HelicopterLifeCycle.

(** Two heliports and an empty fleet whose spawn timer has run out: the
    update spawns a helicopter and moves it. *)
Definition exampleHeliports : list Helicopters.Heliport :=
  [Helicopters.mkHeliport 0 0 "heliport" 1; Helicopters.mkHeliport 2 2 "hospital" 2]%string.

Definition exampleFleet : Helicopters.HelicopterManager :=
  Helicopters.updateHelicopters zeroOracle false (fun _ => 0%Q) (fun _ => 0%Q)
    (fun _ _ => 0%Q) (fun _ _ => 1000%Q) (22 # 7) 64 32 0 sampleColors (1 # 2) (1 # 10)
    (fun _ _ _ _ => (0%Q, 0%Q)) (fun _ _ => exampleHeliports) runningCross 0 (1 # 10)
    (Helicopters.mkHelicopterManager [] 0 0 (mkCache 0 (-1)) 0).

Lemma helicopters_keep_flight_envelope_witness :
  length (Helicopters.helicopters exampleFleet) = 1%nat /\
  Forall inEnvelope (Helicopters.helicopters exampleFleet).
Proof.
  split; [vm_compute; reflexivity|].
  apply Forall_forall. intros h' Hh'.
  apply (helicopters_keep_flight_envelope zeroOracle false (fun _ => 0%Q) (fun _ => 0%Q)
           (fun _ _ => 0%Q) (fun _ _ => 1000%Q) (22 # 7) 64 32 0 sampleColors (1 # 2)
           (1 # 10) (fun _ _ _ _ => (0%Q, 0%Q)) (fun _ _ => exampleHeliports)
           runningCross 0 (1 # 10)
           (Helicopters.mkHelicopterManager [] 0 0 (mkCache 0 (-1)) 0)).
  - discriminate.
  - exact zeroOracle_unit.
  - intros h [].
  - exact Hh'.
Defined.

(* ================================================================== *)
(** * Further properties of the pedestrian manager *)
(* ================================================================== *)

Section PedestrianRoutes.

Import Pedestrians.

Variable rand : nat -> Q.
Variable isMobile : bool.
Variable PI : Q.
Variable PEDESTRIAN_MIN_ZOOM : Q.
Variable PEDESTRIAN_SKIN_COLORS : list string.
Variable PEDESTRIAN_SHIRT_COLORS : list string.
Variable findPathOnRoads : Grid -> Z -> Z -> Z -> Z -> Z -> option (list Coord).
Variable getDirectionToTile : Z -> Z -> Z -> Z -> option CarDirection.
Variable findResidentialBuildings : Grid -> Z -> list Coord.
Variable findPedestrianDestinations : Grid -> Z -> list Destination.

Let update :=
  updatePedestrians rand isMobile PI PEDESTRIAN_MIN_ZOOM PEDESTRIAN_SKIN_COLORS
    PEDESTRIAN_SHIRT_COLORS findPathOnRoads getDirectionToTile
    findResidentialBuildings findPedestrianDestinations.
Let stepP := stepPedestrian findPathOnRoads getDirectionToTile.
Let back := turnBack findPathOnRoads getDirectionToTile.
Let walkP := walk findPathOnRoads getDirectionToTile.
Let spawn :=
  spawnPedestrian rand PI PEDESTRIAN_SKIN_COLORS PEDESTRIAN_SHIRT_COLORS
    findPathOnRoads getDirectionToTile findResidentialBuildings
    findPedestrianDestinations.
Let spawnLoop :=
  spawnBatchLoop rand PI PEDESTRIAN_SKIN_COLORS PEDESTRIAN_SHIRT_COLORS
    findPathOnRoads getDirectionToTile findResidentialBuildings
    findPedestrianDestinations.

(** [pathIndex] is an index of [path]. *)
Definition validIndex (p : Pedestrian) : Prop := 0 <= pathIndex p < pathLength p.

(** What a pedestrian keeps for its whole life. *)
Definition sameTraveller (p p' : Pedestrian) : Prop :=
  id p' = id p /\
  (homeX p', homeY p') = (homeX p, homeY p) /\
  (destX p', destY p', destType p') = (destX p, destY p, destType p) /\
  (skinColor p', shirtColor p', sidewalkSide p')
  = (skinColor p, shirtColor p, sidewalkSide p) /\
  speed p' = speed p /\ maxAge p' = maxAge p.

(** The one change of route: a pedestrian on its way out starts to return
    on the path found from its destination to its home. *)
Definition turnedBack (g : Grid) (n : Z) (p p' : Pedestrian) : Prop :=
  returningHome p = false /\ returningHome p' = true /\
  findPathOnRoads g n (destX p) (destY p) (homeX p) (homeY p) = Some (path p').

Definition follows (g : Grid) (n : Z) (p p' : Pedestrian) : Prop :=
  sameTraveller p p' /\
  ((path p' = path p /\ returningHome p' = returningHome p /\
    pathIndex p <= pathIndex p') \/
   turnedBack g n p p') /\
  (validIndex p -> validIndex p').

Lemma sameTraveller_refl (p : Pedestrian) : sameTraveller p p.
Proof. unfold sameTraveller. repeat split. Qed.

Lemma sameTraveller_trans (a b c : Pedestrian) :
  sameTraveller a b -> sameTraveller b c -> sameTraveller a c.
Proof.
  unfold sameTraveller.
  intros (A1 & A2 & A3 & A4 & A5 & A6) (B1 & B2 & B3 & B4 & B5 & B6).
  repeat split; congruence.
Qed.

Lemma follows_refl (g : Grid) (n : Z) (p : Pedestrian) : follows g n p p.
Proof.
  split; [apply sameTraveller_refl|]. split; [|auto].
  left. repeat split. lia.
Qed.

Lemma follows_trans (g : Grid) (n : Z) (a b c : Pedestrian) :
  follows g n a b -> follows g n b c -> follows g n a c.
Proof.
  intros (S1 & R1 & V1) (S2 & R2 & V2).
  split; [eapply sameTraveller_trans; eassumption|].
  split; [|auto].
  pose proof S1 as (_ & Hhome & Hdest & _).
  injection Hhome as Hhx Hhy. injection Hdest as Hdx Hdy _.
  destruct R1 as [(P1 & H1 & I1) | (F1 & T1 & Q1)];
    destruct R2 as [(P2 & H2 & I2) | (F2 & T2 & Q2)].
  - left. repeat split; [congruence | congruence | lia].
  - right. unfold turnedBack. repeat split; [congruence | exact T2|].
    rewrite <- Hdx, <- Hdy, <- Hhx, <- Hhy. exact Q2.
  - right. unfold turnedBack. repeat split; [exact F1 | congruence|].
    rewrite P2. exact Q1.
  - congruence.
Qed.

Lemma turnBack_follows (jump : bool) (g : Grid) (n : Z) (p p' : Pedestrian) :
  back jump g n p = Some p' -> follows g n p p'.
Proof.
  unfold back, turnBack. destruct (returningHome p) eqn:Er; [discriminate|].
  destruct (findPathOnRoads g n _ _ _ _) as [[|c l]|] eqn:Ef; try discriminate.
  intro H. injection H as <-.
  split; [|split].
  - unfold sameTraveller. destruct jump; cbn; repeat split.
  - right. unfold turnedBack. rewrite Ef.
    destruct jump; cbn; repeat split; assumption.
  - intros _. unfold validIndex, pathLength.
    destruct jump; cbn [withPath pathIndex path length]; lia.
Qed.

Lemma advance_follows (g : Grid) (n : Z) (p : Pedestrian) (tx ty : Z)
    (d : CarDirection) (pr : Q) (i : Z) :
  pathIndex p <= i ->
  (validIndex p -> i < pathLength p) ->
  follows g n p (advance p tx ty d pr i).
Proof.
  intros Hi Hv. split; [|split].
  - unfold sameTraveller. cbn. repeat split.
  - left. cbn. repeat split. exact Hi.
  - intros Hp. specialize (Hv Hp). unfold validIndex, pathLength in *. cbn. lia.
Qed.

Lemma walk_follows (fuel : nat) (g : Grid) (n : Z) :
  forall (p p' : Pedestrian),
    walkP fuel g n p = (p', true) -> follows g n p p'.
Proof.
  induction fuel as [|m IH]; intros p p' H; cbn [walkP walk] in H.
  - injection H as <-. apply follows_refl.
  - destruct (Qgeb (progress p) 1); cbn [andb] in H;
      [|injection H as <-; apply follows_refl].
    destruct (pathIndex p <? pathLength p - 1) eqn:Eidx;
      [|injection H as <-; apply follows_refl].
    apply Z.ltb_lt in Eidx.
    destruct (_ || _); [discriminate|].
    set (c := pathAt (path p) (pathIndex p + 1)) in *.
    set (p1 := advance p (cx c) (cy c) (direction p) (progress p - 1)%Q
                 (pathIndex p + 1)) in *.
    assert (H1 : follows g n p p1).
    { apply advance_follows; lia. }
    destruct (pathIndex p + 1 >=? pathLength p1 - 1).
    + fold back in H. destruct (back false g n p1) as [p2|] eqn:Eb; [|discriminate].
      injection H as <-. apply (follows_trans _ _ _ _ _ H1).
      apply turnBack_follows with (jump := false). exact Eb.
    + fold walkP in H. apply IH in H.
      apply (follows_trans _ _ _ _ _ H1).
      refine (follows_trans _ _ _ _ _ _ H).
      destruct (pathIndex p + 1 + 1 <? pathLength p1); [|apply follows_refl].
      apply advance_follows; [cbn; lia|].
      intros Hv. unfold validIndex in Hv. cbn in Hv. cbn. lia.
Qed.

Lemma stepPedestrian_follows (g : Grid) (n : Z) (mult d : Q) (p p' : Pedestrian) :
  stepP g n mult d p = Some p' -> follows g n p p'.
Proof.
  unfold stepP, stepPedestrian.
  destruct (Qgtb (age p + d) (maxAge p)); [discriminate|].
  destruct (isRoadTile g n (tileX p) (tileY p)); cbn [negb]; [|discriminate].
  set (p0 := mkPedestrian _ _ _ _ _ _ _ _ _ _ _ _ _ _ _ _ _ _ _ _).
  assert (H0 : follows g n p p0).
  { split; [|split].
    - unfold sameTraveller. cbn. repeat split.
    - left. cbn. repeat split. lia.
    - unfold validIndex, pathLength. cbn. auto. }
  destruct (if _ && _ then _ else Some p0) as [p1|] eqn:Earr; [|discriminate].
  assert (H1 : follows g n p0 p1).
  { destruct ((pathLength p0 =? 1) && Qgeb (progress p0) 1) in Earr.
    - apply turnBack_follows with (jump := true). exact Earr.
    - injection Earr as <-. apply follows_refl. }
  fold walkP.
  destruct (walkP (stepsToEnd p1) g n p1) as [p2 alive] eqn:Ewalk.
  destruct alive; cbn [andb]; [|discriminate].
  apply walk_follows in Ewalk.
  pose proof (follows_trans _ _ _ _ _ H0 (follows_trans _ _ _ _ _ H1 Ewalk)) as H2.
  destruct (Qgeb (progress p2) 1 && (pathIndex p2 >=? pathLength p2 - 1)).
  - intro H. fold back in H. apply (follows_trans _ _ _ _ _ H2).
    apply turnBack_follows with (jump := true). exact H.
  - intro H. injection H as <-. exact H2.
Qed.

(** A pedestrian pushed in a call that started with the identifier
    counter at [lo]: it stands on a tile of the path found from its home
    to its destination. *)
Definition freshWalker (g : Grid) (n : Z) (lo : Z) (p : Pedestrian) : Prop :=
  lo <= id p /\ validIndex p /\
  findPathOnRoads g n (homeX p) (homeY p) (destX p) (destY p) = Some (path p) /\
  pathAt (path p) (pathIndex p) = mkCoord (tileX p) (tileY p) /\
  (returningHome p = true <-> pathIndex p = pathLength p - 1).

Lemma spawnPedestrian_route (g : Grid) (n : Z) (s : PedestrianSystemState) :
  unitOracle rand ->
  let s' := snd (spawn g n s) in
  pedestrianId s <= pedestrianId s' /\
  forall p, In p (pedestrians s') ->
            In p (pedestrians s) \/ freshWalker g n (pedestrianId s) p.
Proof.
  intro Hunit. unfold spawn, spawnPedestrian. cbn zeta.
  destruct (Z.of_nat (length _) =? 0); [cbn [snd pedestrians pedestrianId]; split; [lia | auto]|].
  destruct (Z.of_nat (length _) =? 0); [cbn [snd pedestrians pedestrianId]; split; [lia | auto]|].
  unfold Pedestrians.random.
  destruct (findPathOnRoads g n _ _ _ _) as [[|c l]|] eqn:Ef;
    try (cbn [snd pedestrians pedestrianId]; split; [lia | solve [auto]]).
  cbn [snd pedestrians pedestrianId]. split; [lia|].
  intros p Hp. apply in_app_or in Hp. destruct Hp as [Hp | [<- | []]]; [left; exact Hp|].
  right. unfold freshWalker, validIndex, pathLength.
  cbn [id pathIndex path homeX homeY destX destY tileX tileY returningHome].
  destruct (Hunit (S (S (rng s)))) as (R1 & R2).
  pose proof (floorTimes_range _ (Z.of_nat (length (c :: l))) R1 R2) as Hrange.
  assert (Hpos : 0 < Z.of_nat (length (c :: l))) by (cbn [length]; lia).
  specialize (Hrange Hpos).
  split; [lia|]. split; [exact Hrange|]. split; [exact Ef|].
  split; [destruct (pathAt _ _); reflexivity|].
  rewrite Z.geb_leb, Z.leb_le. lia.
Qed.

Lemma spawnBatchLoop_route (m : nat) (g : Grid) (n : Z) :
  unitOracle rand ->
  forall (s : PedestrianSystemState) (spawned : Z),
    let s' := snd (spawnLoop m g n s spawned) in
    pedestrianId s <= pedestrianId s' /\
    forall p, In p (pedestrians s') ->
              In p (pedestrians s) \/ freshWalker g n (pedestrianId s) p.
Proof.
  intro Hunit.
  induction m as [|m IH]; intros s spawned; cbn.
  - split; [lia | auto].
  - pose proof (spawnPedestrian_route g n s Hunit) as H1. fold spawn.
    destruct (spawn g n s) as [ok s1]. cbn [snd] in H1.
    destruct H1 as (Hid & Hp).
    specialize (IH s1 (if ok then spawned + 1 else spawned)).
    fold spawnLoop. cbn zeta in IH.
    destruct IH as (Hid' & Hp').
    split; [lia|].
    intros p Hin. destruct (Hp' p Hin) as [H | H].
    + apply Hp. exact H.
    + right. unfold freshWalker in *. destruct H as (Hlo & Hrest).
      split; [lia | exact Hrest].
Qed.

(** Pedestrians make one round trip.  After an update with random numbers
    in [[0, 1)], every live pedestrian has a path index within its path,
    given that all had before.  It continues a pedestrian that was live
    before or was pushed in this call on the path found from its home to
    its destination: the identifier, home, destination, looks, speed and
    maximum age are those of that pedestrian; either the path and the
    [returningHome] flag are unchanged and the path index has not gone
    back, or the pedestrian was on its way out and is now returning on
    the path found from its destination to its home.  A pedestrian that
    is returning never sets out again. *)
Theorem pedestrians_make_one_round_trip :
  forall (w : WorldRenderState) (v : Z) (d : Q) (s : PedestrianSystemState),
    unitOracle rand ->
    (forall p, In p (pedestrians s) -> validIndex p) ->
    forall p', In p' (pedestrians (update w v d s)) ->
      validIndex p' /\
      exists g p,
        grid w = Some g /\
        (In p (pedestrians s) \/ freshWalker g (gridSize w) (pedestrianId s) p) /\
        sameTraveller p p' /\
        ((path p' = path p /\ returningHome p' = returningHome p /\
          pathIndex p <= pathIndex p') \/
         turnedBack g (gridSize w) p p') /\
        (returningHome p = true -> returningHome p' = true).
Proof.
  intros w v d s Hunit Hvalid p'. unfold update, updatePedestrians.
  destruct (Qltb (zoom w) _); [intros []|].
  destruct (grid w) as [g|]; [|intros []].
  destruct (gridSize w <=? 0); [intros []|].
  destruct (roadTileCountStep g (gridSize w) v (cachedRoadTileCount s))
    as [roadTileCount cache].
  set (s1 := mkPedestrianSystemState (pedestrians s) (pedestrianId s)
               (pedestrianSpawnTimer s - d)%Q cache (rng s)).
  cbn [pedestrians].
  match goal with
  | |- context [if ?c then ?a else s1] => set (s2 := if c then a else s1)
  end.
  assert (H2 : forall p, In p (pedestrians s2) ->
                         In p (pedestrians s) \/
                         freshWalker g (gridSize w) (pedestrianId s) p).
  { subst s2. destruct (_ && _).
    - pose proof (spawnBatchLoop_route (Z.to_nat (spawnBatch isMobile roadTileCount))
                    g (gridSize w) Hunit s1 0) as H.
      fold spawnLoop.
      destruct (spawnLoop _ g (gridSize w) s1 0) as [cnt s'].
      cbn [snd] in H. cbn [pedestrians]. destruct H as (_ & Hp). exact Hp.
    - subst s1. cbn. auto. }
  intro Hin. apply in_flat_map in Hin. destruct Hin as (p & Hp0 & Hin).
  fold stepP in Hin.
  destruct (stepP g (gridSize w) (speedMultiplier (currentSpeed w)) d p)
    as [q|] eqn:Es; [|contradiction].
  destruct Hin as [<- | []].
  apply stepPedestrian_follows in Es. destruct Es as (Hsame & Hroute & Hidx).
  assert (Hv : validIndex p).
  { destruct (H2 p Hp0) as [Hold | (_ & Hv & _)]; [apply Hvalid; exact Hold | exact Hv]. }
  split; [apply Hidx; exact Hv|].
  exists g, p. split; [reflexivity|]. split; [apply H2; exact Hp0|].
  split; [exact Hsame|]. split; [exact Hroute|].
  intro Hr. destruct Hroute as [(_ & -> & _) | (_ & Ht & _)]; assumption.
Qed.

End PedestrianRoutes.

(** One home and one destination at the two ends of the vertical road of
    [crossGrid]: the first update spawns a batch of pedestrians. *)
Definition exampleWalkers : Pedestrians.PedestrianSystemState :=
  Pedestrians.updatePedestrians zeroOracle false (22 # 7) (1 # 2) sampleColors
    sampleColors Pathfinding.findPathOnRoads exampleDirectionToTile
    (fun _ _ => [mkCoord 1 0])
    (fun _ _ => [Pedestrians.mkDestination 1 2 "park"%string])
    runningCross 0 (1 # 10) (Pedestrians.initialState 0).

Lemma pedestrians_make_one_round_trip_witness :
  length (Pedestrians.pedestrians exampleWalkers) = 20%nat /\
  Forall validIndex (Pedestrians.pedestrians exampleWalkers).
Proof.
  split; [vm_compute; reflexivity|].
  apply Forall_forall. intros p' Hp'.
  apply (pedestrians_make_one_round_trip zeroOracle false (22 # 7) (1 # 2) sampleColors
           sampleColors Pathfinding.findPathOnRoads exampleDirectionToTile
           (fun _ _ => [mkCoord 1 0])
           (fun _ _ => [Pedestrians.mkDestination 1 2 "park"%string])
           runningCross 0 (1 # 10) (Pedestrians.initialState 0)).
  - exact zeroOracle_unit.
  - intros p [].
  - exact Hp'.
Defined.

(* ================================================================== *)
(** * Occlusion of cars ([isCarBehindBuilding] of [drawCars]) *)
(* ================================================================== *)

Module CarDrawing.

Definition skipTypes : list BuildingType :=
  ["road"; "grass"; "empty"; "water"; "tree"]%string.

(** [skipTypes.includes(buildingType)] *)
Definition includes (l : list BuildingType) (t : BuildingType) : bool :=
  existsb (String.eqb t) l.

(** [for (dy = 0; dy <= 1; dy++) for (dx = 0; dx <= 1; dx++)] *)
Definition offsets : list (Z * Z) :=
  flat_map (fun dy => map (fun dx => (dx, dy)) [0; 1]) [0; 1].

(** One pass of the inner loop: [true] is [return true], [false] is a
    [continue] or the end of the pass. *)
Definition hiddenBy (currentGrid : Grid) (currentGridSize carTileX carTileY : Z)
    (o : Z * Z) : bool :=
  let (dx, dy) := o in
  let carDepth := carTileX + carTileY in
  if (dx =? 0) && (dy =? 0) then false
  else
    let checkX := carTileX + dx in
    let checkY := carTileY + dy in
    if (checkX <? 0) || (checkY <? 0) ||
       (checkX >=? currentGridSize) || (checkY >=? currentGridSize)
    then false
    else
      match tileAt currentGrid checkX checkY with
      | None => false
      | Some tile =>
          let buildingType := type (building tile) in
          if includes skipTypes buildingType then false
          else
            let buildingDepth := checkX + checkY in
            buildingDepth >? carDepth
      end.

Definition isCarBehindBuilding (currentGrid : Grid) (currentGridSize : Z)
    (carTileX carTileY : Z) : bool :=
  existsb (hiddenBy currentGrid currentGridSize carTileX carTileY) offsets.

End CarDrawing.

Section CarOcclusion.

Import CarDrawing.

(** A tile that hides what is behind it: it is in the grid and holds
    something other than road, grass, empty ground, water or a tree. *)
Definition obstructs (grid : Grid) (gridSize x y : Z) : Prop :=
  0 <= x < gridSize /\ 0 <= y < gridSize /\
  exists tile, tileAt grid x y = Some tile /\
               ~ In (type (building tile)) skipTypes.

Lemma includes_spec (l : list BuildingType) (t : BuildingType) :
  includes l t = true <-> In t l.
Proof.
  unfold includes. rewrite existsb_exists. split.
  - intros (k & Hk & E). apply String.eqb_eq in E. subst k. exact Hk.
  - intro H. exists t. split; [exact H | apply String.eqb_refl].
Qed.

Lemma hiddenBy_spec (grid : Grid) (gridSize x y dx dy : Z) :
  0 <= dx -> 0 <= dy ->
  hiddenBy grid gridSize x y (dx, dy) = true <->
  (dx <> 0 \/ dy <> 0) /\ obstructs grid gridSize (x + dx) (y + dy).
Proof.
  intros Hdx Hdy. unfold hiddenBy, obstructs.
  destruct ((dx =? 0) && (dy =? 0)) eqn:E0.
  { apply andb_true_iff in E0. destruct E0 as [E1 E2].
    apply Z.eqb_eq in E1. apply Z.eqb_eq in E2.
    split; [discriminate | intros ([H | H] & _); contradiction]. }
  apply andb_false_iff in E0.
  assert (Hnz : dx <> 0 \/ dy <> 0).
  { destruct E0 as [E | E]; apply Z.eqb_neq in E; auto. }
  destruct ((x + dx <? 0) || (y + dy <? 0) || (x + dx >=? gridSize)
            || (y + dy >=? gridSize)) eqn:Eb.
  { split; [discriminate|]. intros (_ & Hx & Hy & _).
    repeat rewrite orb_true_iff in Eb. rewrite !Z.geb_leb in Eb.
    destruct Eb as [[[Eb | Eb] | Eb] | Eb];
      [apply Z.ltb_lt in Eb | apply Z.ltb_lt in Eb
       | apply Z.leb_le in Eb | apply Z.leb_le in Eb]; lia. }
  repeat rewrite orb_false_iff in Eb. rewrite !Z.geb_leb in Eb.
  destruct Eb as [[[B1 B2] B3] B4].
  apply Z.ltb_ge in B1. apply Z.ltb_ge in B2.
  apply Z.leb_gt in B3. apply Z.leb_gt in B4.
  destruct (tileAt grid (x + dx) (y + dy)) as [tile|] eqn:Et.
  2:{ split; [discriminate|]. intros (_ & _ & _ & t & Ht & _). discriminate. }
  destruct (includes skipTypes (type (building tile))) eqn:Ei.
  - apply includes_spec in Ei. split; [discriminate|].
    intros (_ & _ & _ & t & Ht & Hn). injection Ht as <-. contradiction.
  - assert (Hdepth : (x + dx + (y + dy) >? x + y) = true)
      by (rewrite Z.gtb_ltb; apply Z.ltb_lt; lia).
    rewrite Hdepth. split; [|reflexivity]. intros _.
    split; [exact Hnz|]. split; [lia|]. split; [lia|].
    exists tile. split; [reflexivity|].
    intro Hin. apply includes_spec in Hin. congruence.
Qed.

(** When a car is hidden.  [isCarBehindBuilding] answers true exactly
    when one of the three tiles at [(x+1, y)], [(x, y+1)] and
    [(x+1, y+1)] is in the grid and holds something other than road,
    grass, empty ground, water or a tree; the comparison of depths never
    decides, as each of the three tiles is deeper than the car's.  So a
    car on the last tile of both axes is never hidden, and the answer
    does not depend on the tile of the car itself. *)
Theorem car_hidden_by_the_tiles_in_front :
  forall (grid : Grid) (gridSize x y : Z),
    (isCarBehindBuilding grid gridSize x y = true <->
     obstructs grid gridSize (x + 1) y \/
     obstructs grid gridSize x (y + 1) \/
     obstructs grid gridSize (x + 1) (y + 1)) /\
    (gridSize - 1 <= x -> gridSize - 1 <= y ->
     isCarBehindBuilding grid gridSize x y = false).
Proof.
  intros grid gridSize x y.
  assert (Hiff : isCarBehindBuilding grid gridSize x y = true <->
                 obstructs grid gridSize (x + 1) y \/
                 obstructs grid gridSize x (y + 1) \/
                 obstructs grid gridSize (x + 1) (y + 1)).
  { unfold isCarBehindBuilding, offsets.
    cbn [flat_map map app existsb].
    rewrite !orb_true_iff.
    rewrite (hiddenBy_spec grid gridSize x y 0 0) by lia.
    rewrite (hiddenBy_spec grid gridSize x y 1 0) by lia.
    rewrite (hiddenBy_spec grid gridSize x y 0 1) by lia.
    rewrite (hiddenBy_spec grid gridSize x y 1 1) by lia.
    replace (x + 0) with x by lia. replace (y + 0) with y by lia.
    split.
    - intros [(H & _) | [(_ & H) | [(_ & H) | [(_ & H) | H]]]];
        [lia | auto | auto | auto | discriminate].
    - intros [H | [H | H]].
      + right. left. split; [lia | exact H].
      + right. right. left. split; [lia | exact H].
      + right. right. right. left. split; [lia | exact H]. }
  split; [exact Hiff|].
  intros Hx Hy.
  apply not_true_is_false. intro E.
  apply Hiff in E. unfold obstructs in E.
  destruct E as [E | [E | E]]; lia.
Qed.

End CarOcclusion.

(* ================================================================== *)
(** * Further properties of the path-following train manager *)
(* ================================================================== *)

Section TrainLegs.

Import PathTrains.

Variable rand : nat -> Q.
Variable isMobile : bool.
Variable TRAIN_MIN_ZOOM : Q.
Variable TRAIN_COLORS : list string.
Variable findPathOnRails : Grid -> Z -> Z -> Z -> Z -> Z -> option (list Coord).
Variable getDirectionToTile : Z -> Z -> Z -> Z -> option CarDirection.
Variable findRailStations : Grid -> Z -> list Coord.
Variable retryBudget : nat.

Let update :=
  updateTrains rand isMobile TRAIN_MIN_ZOOM TRAIN_COLORS findPathOnRails
    getDirectionToTile findRailStations retryBudget.
Let spawn :=
  spawnTrain rand TRAIN_COLORS findPathOnRails getDirectionToTile findRailStations
    retryBudget.
Let leg := newLeg rand findPathOnRails getDirectionToTile findRailStations retryBudget.
Let move := moveTrain rand findPathOnRails getDirectionToTile findRailStations
              retryBudget.
Let stepT := stepTrain rand findPathOnRails getDirectionToTile findRailStations
               retryBudget.

Definition originStation (t : Train) : Coord :=
  mkCoord (originStationX t) (originStationY t).
Definition destStation (t : Train) : Coord :=
  mkCoord (destStationX t) (destStationY t).

(** What a train keeps for its whole life. *)
Definition sameTrain (t t' : Train) : Prop :=
  id t' = id t /\ color t' = color t /\ speed t' = speed t /\
  maxAge t' = maxAge t /\ carCount t' = carCount t.

(** The train is on the same leg of its journey. *)
Definition sameLeg (t t' : Train) : Prop :=
  originStation t' = originStation t /\ destStation t' = destStation t /\
  path t' = path t /\ pathIndex t <= pathIndex t'.

(** The train has arrived and set out again: from the station it was
    heading for to a station with other coordinates, on the path found
    from its tile. *)
Definition nextLeg (g : Grid) (n : Z) (t t' : Train) : Prop :=
  originStation t' = destStation t /\
  destStation t' <> destStation t /\
  In (destStation t') (findRailStations g n) /\
  pathIndex t' = 0 /\ progress t' = 0%Q /\
  findPathOnRails g n (tileX t') (tileY t') (destStationX t') (destStationY t')
  = Some (path t').

Definition continues (g : Grid) (n : Z) (t t' : Train) : Prop :=
  sameTrain t t' /\ (sameLeg t t' \/ nextLeg g n t t').

(** A train pushed by [spawnTrain]: it runs between two different entries
    of the list of stations. *)
Definition spawnedTrain (g : Grid) (n : Z) (s : TrainSystemState) (t : Train) : Prop :=
  id t = trainId s /\ pathIndex t = 0 /\
  findPathOnRails g n (originStationX t) (originStationY t)
    (destStationX t) (destStationY t) = Some (path t) /\
  exists i j : nat,
    i <> j /\
    nth_error (findRailStations g n) i = Some (originStation t) /\
    nth_error (findRailStations g n) j = Some (destStation t).

Lemma redraw_result (budget : nat) (len : Z) (avoid : Z -> bool) :
  unitOracle rand -> 0 < len ->
  forall (idx : Z) (k : nat) (i : Z) (k' : nat),
    0 <= idx < len ->
    redraw rand budget len avoid idx k = (Some i, k') ->
    avoid i = false /\ 0 <= i < len.
Proof.
  intros Hunit Hlen.
  induction budget as [|b IH]; intros idx k i k' Hidx H; cbn [redraw] in H.
  - destruct (avoid idx) eqn:E; [discriminate|].
    injection H as <- _. split; assumption.
  - destruct (avoid idx) eqn:E.
    + unfold bind, PathTrains.random in H.
      apply IH in H; [exact H|].
      destruct (Hunit k) as (R1 & R2). apply floorTimes_range; assumption.
    + injection H as <- _. split; assumption.
Qed.

Lemma pathAt_nth_error (l : list Coord) (i : Z) :
  0 <= i < Z.of_nat (length l) ->
  nth_error l (Z.to_nat i) = Some (pathAt l i).
Proof.
  intro H. unfold pathAt, pick. apply nth_error_nth'. lia.
Qed.

Lemma coord_eta (c : Coord) : mkCoord (cx c) (cy c) = c.
Proof. destruct c. reflexivity. Qed.

Lemma sameTrain_trans (a b c : Train) :
  sameTrain a b -> sameTrain b c -> sameTrain a c.
Proof.
  unfold sameTrain. intros (A1 & A2 & A3 & A4 & A5) (B1 & B2 & B3 & B4 & B5).
  repeat split; congruence.
Qed.

Lemma continues_refl (g : Grid) (n : Z) (t : Train) : continues g n t t.
Proof.
  split; [unfold sameTrain; repeat split|].
  left. unfold sameLeg. repeat split. lia.
Qed.

(** Steps on the same leg before whatever comes next. *)
Lemma sameLeg_continues (g : Grid) (n : Z) (a b c : Train) :
  sameTrain a b -> sameLeg a b -> continues g n b c -> continues g n a c.
Proof.
  intros Hs (O1 & D1 & P1 & I1) (Hs' & Hc).
  split; [eapply sameTrain_trans; eassumption|].
  destruct Hc as [(O2 & D2 & P2 & I2) | (O2 & D2 & S2 & I2 & R2 & F2)].
  - left. unfold sameLeg. repeat split; [congruence | congruence | congruence | lia].
  - right. unfold nextLeg. repeat split; try assumption; congruence.
Qed.

Lemma advance_sameLeg (t : Train) (x y : Z) (d : CarDirection) (p : Q) (i : Z) :
  pathIndex t <= i ->
  sameTrain t (advance t x y d p i) /\ sameLeg t (advance t x y d p i).
Proof.
  intro H. split; [unfold sameTrain; cbn; repeat split|].
  unfold sameLeg, originStation, destStation. cbn. repeat split. exact H.
Qed.

Lemma newLeg_continues (g : Grid) (n : Z) (t t' : Train) (k k' : nat) :
  unitOracle rand ->
  leg g n t k = (Some (Some t'), k') ->
  sameTrain t t' /\ nextLeg g n t t'.
Proof.
  intros Hunit. unfold leg, newLeg.
  set (stations := findRailStations g n).
  set (len := Z.of_nat (length stations)).
  destruct (len >=? 2) eqn:Elen; [|discriminate].
  rewrite Z.geb_leb in Elen. apply Z.leb_le in Elen.
  unfold bind, PathTrains.random.
  destruct (redraw rand retryBudget len _ _ (S k)) as [[idx|] k1] eqn:Er;
    [|discriminate].
  apply redraw_result in Er; [|exact Hunit | lia|].
  2:{ destruct (Hunit k) as (R1 & R2). apply floorTimes_range; [assumption..|lia]. }
  destruct Er as (Havoid & Hidx).
  destruct (findPathOnRails g n _ _ _ _) as [[|c l]|] eqn:Ef; try discriminate.
  unfold ret. intro H. injection H as <- _.
  split; [unfold sameTrain; cbn; repeat split|].
  unfold nextLeg, originStation, destStation.
  cbn [originStationX originStationY destStationX destStationY pathIndex progress
       tileX tileY path].
  split; [reflexivity|]. split.
  - intro Heq. injection Heq as Hx Hy.
    assert (Hgt : (len >? 1) = true) by (rewrite Z.gtb_ltb; apply Z.ltb_lt; lia).
    rewrite Hgt, Hx, Hy, !Z.eqb_refl in Havoid. discriminate.
  - split.
    + rewrite coord_eta. unfold pathAt, pick. apply nth_In. unfold len, stations in Hidx. lia.
    + repeat split. exact Ef.
Qed.

Lemma moveTrain_continues (g : Grid) (n : Z) :
  unitOracle rand ->
  forall (guardLeft : nat) (t t' : Train) (k k' : nat),
    move guardLeft g n t k = (Some (Some t'), k') -> continues g n t t'.
Proof.
  intro Hunit.
  induction guardLeft as [|m IH]; intros t t' k k' H; cbn [move moveTrain] in H.
  - unfold ret in H. injection H as <- _. apply continues_refl.
  - destruct (Qgeb (progress t) 1 && (pathIndex t <? pathLength t - 1));
      [|unfold ret in H; injection H as <- _; apply continues_refl].
    destruct (_ || _); [discriminate|].
    set (c := pathAt (path t) (pathIndex t + 1)) in *.
    set (t1 := advance t (cx c) (cy c) (direction t) (progress t - 1)%Q
                 (pathIndex t + 1)) in *.
    destruct (advance_sameLeg t (cx c) (cy c) (direction t) (progress t - 1)%Q
                (pathIndex t + 1)) as [Hs1 Hl1]; [lia|].
    fold t1 in Hs1, Hl1.
    destruct (pathIndex t + 1 >=? pathLength t1 - 1).
    + fold leg in H. apply (newLeg_continues _ _ _ _ _ _ Hunit) in H.
      destruct H as [Hs Hn].
      apply (sameLeg_continues g n t t1 t' Hs1 Hl1). split; [exact Hs | right; exact Hn].
    + fold move in H. apply IH in H.
      apply (sameLeg_continues g n t t1 t' Hs1 Hl1).
      destruct (pathIndex t + 1 + 1 <? pathLength t1); [|exact H].
      match type of H with
      | continues _ _ (advance ?a ?x ?y ?d ?p ?i) _ =>
          destruct (advance_sameLeg a x y d p i) as [Hs2 Hl2]; [cbn; lia|];
          exact (sameLeg_continues g n _ _ _ Hs2 Hl2 H)
      end.
Qed.

Lemma stepTrain_continues (g : Grid) (n : Z) (mult delta : Q) (t t' : Train)
    (k k' : nat) :
  unitOracle rand ->
  stepT g n mult delta t k = (Some (Some t'), k') -> continues g n t t'.
Proof.
  intro Hunit. unfold stepT, stepTrain.
  destruct (Qgtb (age t + delta) (maxAge t)); [discriminate|].
  destruct (isRailTile g n (tileX t) (tileY t)); cbn [negb]; [|discriminate].
  intro H. fold move in H. apply (moveTrain_continues g n Hunit) in H.
  destruct H as ((I1 & I2 & I3 & I4 & I5) & Hc). cbn in I1, I2, I3, I4, I5.
  split; [unfold sameTrain; repeat split; assumption|].
  destruct Hc as [(O & D & P & I) | (O & D & S & I & R & F)].
  - left. unfold sameLeg, originStation, destStation in *. cbn in O, D, P, I.
    repeat split; assumption.
  - right. unfold nextLeg, originStation, destStation in *. cbn in O, D.
    repeat split; assumption.
Qed.

Lemma forEachTrain_In (f : Train -> Rand (option (option Train))) (l : list Train) :
  forall (k k' : nat) (l' : list Train),
    forEachTrain f l k = (Some l', k') ->
    forall t', In t' l' ->
               exists t k1 k2, In t l /\ f t k1 = (Some (Some t'), k2).
Proof.
  induction l as [|t l IH]; intros k k' l' H t' Hin; cbn [forEachTrain] in H.
  - unfold ret in H. injection H as <- _. contradiction.
  - unfold bind in H. destruct (f t k) as [[kept|] k1] eqn:Ef; [|discriminate].
    destruct (forEachTrain f l k1) as [[rest|] k2] eqn:E; [|discriminate].
    unfold ret in H. injection H as <- _.
    assert (Hrest : In t' rest ->
                    exists t0 k3 k4, In t0 (t :: l) /\ f t0 k3 = (Some (Some t'), k4)).
    { intro Hr. destruct (IH _ _ _ E t' Hr) as (t0 & k3 & k4 & Ht0 & Hf).
      exists t0, k3, k4. split; [right; exact Ht0 | exact Hf]. }
    destruct kept as [t1|]; [|exact (Hrest Hin)].
    destruct Hin as [<- | Hin]; [|exact (Hrest Hin)].
    exists t, k, k1. split; [left; reflexivity | exact Ef].
Qed.

Lemma spawnTrain_spawned (g : Grid) (n : Z) (s s' : TrainSystemState) (ok : bool) :
  unitOracle rand ->
  spawn g n s = Some (ok, s') ->
  forall t, In t (trains s') -> In t (trains s) \/ spawnedTrain g n s t.
Proof.
  intros Hunit. unfold spawn, spawnTrain.
  set (stations := findRailStations g n).
  set (len := Z.of_nat (length stations)).
  destruct (len <? 2) eqn:Elen; [intro H; injection H as _ <-; auto|].
  apply Z.ltb_ge in Elen.
  unfold PathTrains.random.
  destruct (Hunit (rng s)) as (R1 & R1'). destruct (Hunit (S (rng s))) as (R2 & R2').
  assert (Ho : 0 <= floorTimes (rand (rng s)) len < len)
    by (apply floorTimes_range; [assumption..|lia]).
  assert (Hd : 0 <= floorTimes (rand (S (rng s))) len < len)
    by (apply floorTimes_range; [assumption..|lia]).
  destruct (redraw rand retryBudget len _ _ _) as [[destIdx|] k3] eqn:Er;
    [|discriminate].
  apply redraw_result in Er; [|exact Hunit | lia | exact Hd].
  destruct Er as (Havoid & HdestIdx).
  assert (Hgt : (len >? 1) = true) by (rewrite Z.gtb_ltb; apply Z.ltb_lt; lia).
  rewrite Hgt, andb_true_r in Havoid. apply Z.eqb_neq in Havoid.
  destruct (findPathOnRails g n _ _ _ _) as [[|c l]|] eqn:Ef;
    try (intro H; injection H as _ <-; cbn [trains]; solve [auto]).
  intro H. injection H as _ <-. cbn [trains].
  intros t Hin. apply in_app_or in Hin. destruct Hin as [Hin | [<- | []]]; [auto|].
  right. unfold spawnedTrain, originStation, destStation.
  cbn [id pathIndex path originStationX originStationY destStationX destStationY].
  split; [reflexivity|]. split; [reflexivity|]. split; [exact Ef|].
  exists (Z.to_nat (floorTimes (rand (rng s)) len)), (Z.to_nat destIdx).
  split; [lia|]. rewrite !coord_eta.
  subst len stations. split; apply pathAt_nth_error; lia.
Qed.

(** Trains run between different stations.  With random numbers in
    [[0, 1)], every train that is live after an update is a train that
    was live before, or the one spawned in this call between two
    different entries of the list of stations, with its identifier,
    colour, speed, maximum age and number of cars; and either it is on
    the same leg, the path index not gone back, or it has arrived and set
    out again from the station it was heading for towards a station of
    the list with other coordinates.  So, when no two stations of the
    list share their coordinates, no train ever runs from a station to
    itself. *)
Theorem path_trains_run_between_different_stations :
  forall (w : WorldRenderState) (v : Z) (delta : Q) (s s' : TrainSystemState),
    unitOracle rand ->
    update w v delta s = Some s' ->
    forall t', In t' (trains s') ->
      exists g t,
        grid w = Some g /\
        (In t (trains s) \/ spawnedTrain g (gridSize w) s t) /\
        sameTrain t t' /\
        (sameLeg t t' \/ nextLeg g (gridSize w) t t') /\
        (NoDup (findRailStations g (gridSize w)) ->
         (forall t0, In t0 (trains s) -> originStation t0 <> destStation t0) ->
         originStation t' <> destStation t').
Proof.
  intros w v delta s s' Hunit. unfold update, updateTrains.
  destruct (Qltb (zoom w) _); [intro H; injection H as <-; intros t' []|].
  destruct (grid w) as [g|]; [|intro H; injection H as <-; intros t' []].
  destruct (gridSize w <=? 0); [intro H; injection H as <-; intros t' []|].
  destruct (railTileCountStep g (gridSize w) v _) as [railTileCount cache].
  cbn [trains trainId rng].
  match goal with
  | |- match ?sp with _ => _ end = _ -> _ => destruct sp as [s2|] eqn:Esp
  end; [|discriminate].
  destruct (forEachTrain _ _ _) as [[updated|] k] eqn:Eloop; [|discriminate].
  intro H. injection H as <-. cbn [trains]. intros t' Hin.
  destruct (forEachTrain_In _ _ _ _ _ Eloop t' Hin) as (t & k1 & k2 & Ht & Hstep).
  fold stepT in Hstep. apply (stepTrain_continues _ _ _ _ _ _ _ _ Hunit) in Hstep.
  destruct Hstep as (Hsame & Hleg).
  assert (Hsrc : In t (trains s) \/ spawnedTrain g (gridSize w) s t).
  { revert Esp.
    destruct ((Z.of_nat (length (trains s)) <? maxTrains isMobile railTileCount)
              && Qle_bool _ 0).
    2:{ intro H. injection H as <-. cbn [trains] in Ht. auto. }
    fold spawn.
    destruct (spawn g (gridSize w) _) as [[ok s3]|] eqn:Es; [|discriminate].
    pose proof (spawnTrain_spawned _ _ _ _ _ Hunit Es) as Hfresh.
    cbn [trains trainId] in Hfresh.
    destruct ok.
    - destruct (PathTrains.random rand (rng s3)) as [r k'].
      intro H. injection H as <-. cbn [trains] in Ht.
      destruct (Hfresh t Ht) as [Hold | Hnew]; [auto | right; exact Hnew].
    - intro H. injection H as <-. cbn [trains] in Ht.
      destruct (Hfresh t Ht) as [Hold | Hnew]; [auto | right; exact Hnew]. }
  exists g, t. split; [reflexivity|]. split; [exact Hsrc|].
  split; [exact Hsame|]. split; [exact Hleg|].
  intros Hnodup Hold.
  assert (Ht0 : originStation t <> destStation t).
  { destruct Hsrc as [Hin0 | (_ & _ & _ & i & j & Hij & Hi & Hj)];
      [apply Hold; exact Hin0|].
    intro Heq. apply Hij.
    apply (proj1 (NoDup_nth_error (findRailStations g (gridSize w))) Hnodup).
    - apply nth_error_Some. rewrite Hi. discriminate.
    - rewrite Hi, Hj, Heq. reflexivity. }
  destruct Hleg as [(O & D & _) | (O & D & _)].
  - rewrite O, D. exact Ht0.
  - rewrite O. intro Heq. apply D. symmetry. exact Heq.
Qed.

End TrainLegs.

(** An oracle that alternates between 0 and 1/2, and two stations at the
    ends of the rail of [railRow]: the first update spawns a train from
    the first station to the second. *)
Definition alternatingOracle : nat -> Q :=
  fun k => if Nat.even k then 0%Q else (1 # 2)%Q.

Lemma alternatingOracle_unit : unitOracle alternatingOracle.
Proof.
  intro k. unfold alternatingOracle. destruct (Nat.even k); split; reflexivity || discriminate.
Qed.

Definition exampleStations : list Coord := [mkCoord 0 0; mkCoord 5 0].

Definition exampleRailway : option PathTrains.TrainSystemState :=
  PathTrains.updateTrains alternatingOracle false (1 # 2) sampleColors
    Pathfinding.findPathOnRails exampleDirectionToTile (fun _ _ => exampleStations) 8
    (mkWorld (Some railRow) 6 1 1) 0 (1 # 10)
    (PathTrains.mkTrainSystemState [] 0 0 (mkCache 0 (-1)) 0).

Lemma path_trains_run_between_different_stations_witness :
  exists s',
    exampleRailway = Some s' /\
    length (PathTrains.trains s') = 1%nat /\
    Forall (fun t' => originStation t' <> destStation t') (PathTrains.trains s').
Proof.
  destruct exampleRailway as [s'|] eqn:E; [|vm_compute in E; discriminate].
  exists s'. split; [reflexivity|].
  split; [vm_compute in E; injection E as <-; reflexivity|].
  apply Forall_forall. intros t' Ht'.
  destruct (path_trains_run_between_different_stations alternatingOracle false (1 # 2)
              sampleColors Pathfinding.findPathOnRails exampleDirectionToTile
              (fun _ _ => exampleStations) 8 (mkWorld (Some railRow) 6 1 1) 0 (1 # 10)
              (PathTrains.mkTrainSystemState [] 0 0 (mkCache 0 (-1)) 0) s'
              alternatingOracle_unit E t' Ht')
    as (g & t & _ & _ & _ & _ & H).
  apply H.
  - repeat constructor; cbn; intuition discriminate.
  - intros t0 [].
Defined.

(* ================================================================== *)
(** * Lanes of a road tile ([analyzeRoadNetwork]) *)
(* ================================================================== *)

Section RoadLanes.

(** [connectionCount] of [analyzeRoadNetwork]. *)
Definition connectionsOf (info : RoadNetworkInfo) : Z :=
  countTrue [rn_north info; rn_east info; rn_south info; rn_west info].

(** The parallel-road counts of a road tile.  The tiles that
    [analyzeRoadNetwork] inspects for a road running alongside are the
    four neighbours of the tile itself, and the neighbour of such a
    neighbour that makes it count is the tile itself.  So on a road tile
    [eastParallel] is 1 exactly when the tile has its south connection,
    [westParallel] when it has its north one, [northParallel] its east
    one and [southParallel] its west one; the tile is a wide road as
    soon as it has one connection; and it has one lane without
    connections, two lanes with one or two, three at a T intersection
    and four at a crossing: the two lanes for an intersection that is
    not wide never occur. *)
Theorem road_tile_with_a_connection_is_wide :
  forall (grid : Grid) (gridSize x y : Z),
    isRoadTile grid gridSize x y = true ->
    let info := analyzeRoadNetwork grid gridSize x y in
    let count := connectionsOf info in
    eastParallel info = (if rn_south info then 1 else 0) /\
    westParallel info = (if rn_north info then 1 else 0) /\
    northParallel info = (if rn_east info then 1 else 0) /\
    southParallel info = (if rn_west info then 1 else 0) /\
    isWideRoad info = (0 <? count) /\
    laneCount info = (if count =? 0 then 1 else if count <=? 2 then 2 else count) /\
    0 <= count <= 4.
Proof.
  intros grid gridSize x y Hroad info count. subst count info.
  unfold connectionsOf, analyzeRoadNetwork.
  cbn [rn_north rn_east rn_south rn_west eastParallel westParallel northParallel
       southParallel isWideRoad laneCount].
  replace (x + 1 - 1) with x by lia. replace (x - 1 + 1) with x by lia.
  replace (y - 1 + 1) with y by lia. replace (y + 1 - 1) with y by lia.
  rewrite Hroad.
  destruct (isRoadTile grid gridSize (x - 1) y),
           (isRoadTile grid gridSize x (y - 1)),
           (isRoadTile grid gridSize (x + 1) y),
           (isRoadTile grid gridSize x (y + 1));
    cbn [orb andb]; rewrite ?orb_true_r; cbn; repeat split; discriminate.
Qed.

End RoadLanes.

Lemma road_tile_with_a_connection_is_wide_witness :
  laneCount (analyzeRoadNetwork crossGrid 3 1 1) = 4 /\
  isWideRoad (analyzeRoadNetwork crossGrid 3 1 0) = true.
Proof.
  split.
  - apply (road_tile_with_a_connection_is_wide crossGrid 3 1 1). reflexivity.
  - apply (road_tile_with_a_connection_is_wide crossGrid 3 1 0). reflexivity.
Defined.

(* ================================================================== *)
(** * Identifiers of pedestrians and free-roaming trains *)
(* ================================================================== *)

Section Numbering.

(** Distinct identifiers, all from 0 and below the next one to be given
    out. *)
Definition numbered {A} (ident : A -> Z) (next : Z) (l : list A) : Prop :=
  NoDup (map ident l) /\ Forall (fun a => 0 <= ident a < next) l.



Lemma numbered_weaken {A} (ident : A -> Z) (next next' : Z) (l : list A) :
  next <= next' -> numbered ident next l -> numbered ident next' l.
Proof.
  intros Hle [Hnd Hlt]. split; [exact Hnd|].
  eapply Forall_impl; [|exact Hlt]. cbn. intros. lia.
Qed.


End Numbering.

Section PedestrianNumbers.

Import Pedestrians.

Variable rand : nat -> Q.
Variable isMobile : bool.
Variable PI : Q.
Variable PEDESTRIAN_MIN_ZOOM : Q.
Variable PEDESTRIAN_SKIN_COLORS : list string.
Variable PEDESTRIAN_SHIRT_COLORS : list string.
Variable findPathOnRoads : Grid -> Z -> Z -> Z -> Z -> Z -> option (list Coord).
Variable getDirectionToTile : Z -> Z -> Z -> Z -> option CarDirection.
Variable findResidentialBuildings : Grid -> Z -> list Coord.
Variable findPedestrianDestinations : Grid -> Z -> list Destination.

Let update :=
  updatePedestrians rand isMobile PI PEDESTRIAN_MIN_ZOOM PEDESTRIAN_SKIN_COLORS
    PEDESTRIAN_SHIRT_COLORS findPathOnRoads getDirectionToTile
    findResidentialBuildings findPedestrianDestinations.
Let spawn :=
  spawnPedestrian rand PI PEDESTRIAN_SKIN_COLORS PEDESTRIAN_SHIRT_COLORS
    findPathOnRoads getDirectionToTile findResidentialBuildings
    findPedestrianDestinations.
Let spawnLoop :=
  spawnBatchLoop rand PI PEDESTRIAN_SKIN_COLORS PEDESTRIAN_SHIRT_COLORS
    findPathOnRoads getDirectionToTile findResidentialBuildings
    findPedestrianDestinations.





End PedestrianNumbers.

Section RoamingTrainNumbers.

Import RoamingTrains.

Variable rand : nat -> Q.
Variable isMobile : bool.
Variable DIRECTION_META_step : CarDirection -> Z * Z.
Variable getRailDirectionOptions : Grid -> Z -> Z -> Z -> list CarDirection.

Let update := updateTrains rand isMobile DIRECTION_META_step getRailDirectionOptions.
Let stepT := stepTrain rand DIRECTION_META_step getRailDirectionOptions.



End RoamingTrainNumbers.

